(** * dnd-agent: a shallow embedding of the Dungeon-Master agent's tools and loop

    The repository holds two Go programs of package [main]:
    - [src/main.go], the turn-based game (tools [ask_player], [lookup_monster],
      [lookup_spell], [roll_dice] with a structured input, and [gameLoop]);
    - [src/unnamed/part_000], the one-shot encounter (the same lookups and a
      [roll_dice] that takes a notation string such as [2d6+3]).

    Conventions of the embedding:
    - [int] is 64 bits wide: a Go [int] is a [Z] kept inside the two's-complement
      range by [wrap64], written out at every arithmetic operation of the
      source on values the input controls; an index into a string or a slice
      is a plain [Z], since a length never leaves the range of [int];
    - a Go [string] is a Rocq [string], that is a sequence of bytes, UTF-8
      where the library reads runes;
    - a run-time panic is the [Panic] result of the [exec] monad;
    - the collaborators (entropy source, HTTP client, JSON decoder, [fmt] on
      dynamic values, the Unicode case tables, the agent, the input stream)
      are Section variables or explicit arguments;
    - [make] panics where the run time refuses the length, and an allocation
      the run time accepts finds its memory. *)

From Stdlib Require Import ZArith String Ascii Lia DecimalString DecimalPos.
From stdpp Require Import base list strings.

Local Open Scope Z_scope.
#[local] Set Warnings "-register-all".

(** ** Go run-time model *)

Module Go.

(** The run-time panics the modelled code can raise. *)
Inductive panic : Set :=
| SliceBoundsOutOfRange
| IndexOutOfRange
| InterfaceConversion
| RandIntNonPositive
| MakeSliceLenOutOfRange.

Inductive exec (A : Type) : Type :=
| Ok (a : A)
| Panic (p : panic).
Arguments Ok {A} a.
Arguments Panic {A} p.

#[global] Instance exec_ret : MRet exec := fun A a => Ok a.
#[global] Instance exec_bind : MBind exec := fun A B k m =>
  match m with
  | Ok a => k a
  | Panic p => Panic p
  end.

(** *** [int]: 64-bit two's complement *)

Definition minInt : Z := - 2 ^ 63.
Definition maxInt : Z := 2 ^ 63 - 1.

Definition wrap64 (z : Z) : Z := (z + 2 ^ 63) mod 2 ^ 64 - 2 ^ 63.

Definition inInt (z : Z) : Prop := minInt <= z <= maxInt.

Definition int_add (a b : Z) : Z := wrap64 (a + b).
Definition int_mul (a b : Z) : Z := wrap64 (a * b).

(** *** Bytes and strings *)

(** The line feed, [\n] in the source's literals. *)
Definition nl : string := String "010" EmptyString.

Definition byte_val (c : ascii) : Z := Z.of_nat (nat_of_ascii c).

Definition len (s : string) : Z := Z.of_nat (String.length s).

Fixpoint drop_bytes (n : nat) (s : string) : string :=
  match n, s with
  | O, _ => s
  | S n', String _ r => drop_bytes n' r
  | S _, EmptyString => EmptyString
  end.

Fixpoint take_bytes (n : nat) (s : string) : string :=
  match n, s with
  | O, _ => EmptyString
  | S n', String c r => String c (take_bytes n' r)
  | S _, EmptyString => EmptyString
  end.

(** [s[i:]]: panics unless [0 <= i <= len(s)]. *)
Definition slice_from (s : string) (i : Z) : exec string :=
  if (0 <=? i) && (i <=? len s) then Ok (drop_bytes (Z.to_nat i) s)
  else Panic SliceBoundsOutOfRange.

(** [s[:j]]: panics unless [0 <= j <= len(s)]. *)
Definition slice_to (s : string) (j : Z) : exec string :=
  if (0 <=? j) && (j <=? len s) then Ok (take_bytes (Z.to_nat j) s)
  else Panic SliceBoundsOutOfRange.

(** [s[i]]: panics unless [0 <= i < len(s)]. *)
Definition byte_at (s : string) (i : Z) : exec ascii :=
  if (0 <=? i) && (i <? len s) then
    match String.get (Z.to_nat i) s with
    | Some c => Ok c
    | None => Panic IndexOutOfRange
    end
  else Panic IndexOutOfRange.

(** The six ASCII blanks: tab, line feed, vertical tab, form feed, carriage
    return, space. *)
Definition asciiSpace (c : ascii) : bool :=
  let n := byte_val c in ((9 <=? n) && (n <=? 13)) || (n =? 32).

(** The two-byte UTF-8 encodings of blanks: U+0085 and U+00A0. *)
Definition space2 (c0 c1 : ascii) : bool :=
  (byte_val c0 =? 194) && ((byte_val c1 =? 133) || (byte_val c1 =? 160)).

(** The three-byte UTF-8 encodings of blanks: U+1680, U+2000 to U+200A,
    U+2028, U+2029, U+202F, U+205F and U+3000. *)
Definition space3 (c0 c1 c2 : ascii) : bool :=
  let n0 := byte_val c0 in
  let n1 := byte_val c1 in
  let n2 := byte_val c2 in
  ((n0 =? 225) && (n1 =? 154) && (n2 =? 128))
  || ((n0 =? 226) && (n1 =? 128)
      && (((128 <=? n2) && (n2 <=? 138)) || (n2 =? 168) || (n2 =? 169) || (n2 =? 175)))
  || ((n0 =? 226) && (n1 =? 129) && (n2 =? 159))
  || ((n0 =? 227) && (n1 =? 128) && (n2 =? 128)).

(** The blanks ([unicode.IsSpace], and the [isSpace] of [fmt]'s scanner) are
    the runes with the property White_Space; each has one valid encoding, of
    one, two or three bytes. *)

(** Dropping the blanks at the front. *)
Fixpoint trimLeft (s : string) : string :=
  match s with
  | EmptyString => EmptyString
  | String c0 r0 =>
      if asciiSpace c0 then trimLeft r0
      else
        match r0 with
        | EmptyString => s
        | String c1 r1 =>
            if space2 c0 c1 then trimLeft r1
            else
              match r1 with
              | EmptyString => s
              | String c2 r2 => if space3 c0 c1 c2 then trimLeft r2 else s
              end
        end
  end.

Fixpoint rev_onto (s acc : string) : string :=
  match s with
  | EmptyString => acc
  | String c r => rev_onto r (String c acc)
  end.

(** The bytes of [s] in reverse order. *)
Definition rev_bytes (s : string) : string := rev_onto s EmptyString.

(** Dropping the blanks at the front of a reversed string: the encodings
    read last byte first. *)
Fixpoint trimLeft_rev (s : string) : string :=
  match s with
  | EmptyString => EmptyString
  | String c0 r0 =>
      if asciiSpace c0 then trimLeft_rev r0
      else
        match r0 with
        | EmptyString => s
        | String c1 r1 =>
            if space2 c1 c0 then trimLeft_rev r1
            else
              match r1 with
              | EmptyString => s
              | String c2 r2 => if space3 c2 c1 c0 then trimLeft_rev r2 else s
              end
        end
  end.

(** Dropping the blanks at the back. *)
Definition trimRight (s : string) : string := rev_bytes (trimLeft_rev (rev_bytes s)).

(** [strings.TrimSpace]: the string without the blanks at its two ends. *)
Definition TrimSpace (s : string) : string := trimRight (trimLeft s).

Definition lower_byte (c : ascii) : ascii :=
  let n := byte_val c in
  if (65 <=? n) && (n <=? 90) then ascii_of_nat (Z.to_nat (n + 32)) else c.

Fixpoint isASCII (s : string) : bool :=
  match s with
  | EmptyString => true
  | String c r => (byte_val c <? 128) && isASCII r
  end.

Fixpoint lower_bytes (s : string) : string :=
  match s with
  | EmptyString => EmptyString
  | String c r => String (lower_byte c) (lower_bytes r)
  end.

(** [strings.ToLower]: byte by byte on an ASCII string; on any other string
    it is [strings.Map(unicode.ToLower, s)], which rests on the Unicode case
    tables and is taken as the parameter [mapToLower]. *)
Definition ToLower (mapToLower : string -> string) (s : string) : string :=
  if isASCII s then lower_bytes s else mapToLower s.

Definition byte_in (c : ascii) (chars : string) : bool :=
  existsb (Ascii.eqb c) (list_ascii_of_string chars).

Fixpoint indexAny_from (s chars : string) (i : Z) : Z :=
  match s with
  | EmptyString => -1
  | String c r => if byte_in c chars then i else indexAny_from r chars (i + 1)
  end.

(** [strings.IndexAny(s, chars)] for an ASCII [chars]: the index of the first
    byte of [s] that is in [chars], or [-1]. *)
Definition IndexAny (s chars : string) : Z := indexAny_from s chars 0.

(** The two pieces of [s] around the first occurrence of the byte [sep]. *)
Fixpoint cut (s : string) (sep : ascii) : option (string * string) :=
  match s with
  | EmptyString => None
  | String c r =>
      if Ascii.eqb c sep then Some (EmptyString, r)
      else match cut r sep with
           | Some (a, b) => Some (String c a, b)
           | None => None
           end
  end.

(** [strings.SplitN(s, sep, 2)] for a one-byte separator [sep]. *)
Definition SplitN2 (s : string) (sep : ascii) : list string :=
  match cut s sep with
  | Some (a, b) => [a; b]
  | None => [s]
  end.

(** [strings.ReplaceAll(s, old, new)] for one-byte [old] and [new]. *)
Fixpoint ReplaceAll (s : string) (old new : ascii) : string :=
  match s with
  | EmptyString => EmptyString
  | String c r => String (if Ascii.eqb c old then new else c) (ReplaceAll r old new)
  end.

(** *** [strconv.Atoi] *)

Definition digit_val (c : ascii) : option Z :=
  let n := byte_val c in
  if (48 <=? n) && (n <=? 57) then Some (n - 48) else None.

Fixpoint parse_digits (s : string) (acc : Z) : option Z :=
  match s with
  | EmptyString => Some acc
  | String c r =>
      match digit_val c with
      | Some d => parse_digits r (acc * 10 + d)
      | None => None
      end
  end.

(** [strconv.ParseInt(s, 10, 64)], [None] for a syntax or range error: an
    optional sign, then one or more decimal digits, the value within the
    [int64] range. [strconv.Atoi] is this function (its fast path for short
    strings computes the same result). *)
Definition Atoi (s : string) : option Z :=
  match s with
  | EmptyString => None
  | String c r =>
      let neg := Ascii.eqb c "-" in
      let body := if neg || Ascii.eqb c "+" then r else s in
      match body with
      | EmptyString => None
      | _ =>
          match parse_digits body 0 with
          | None => None
          | Some un =>
              if neg then (if un <=? 2 ^ 63 then Some (- un) else None)
              else (if un <? 2 ^ 63 then Some un else None)
          end
      end
  end.

(** *** [fmt.Sscanf(s, "%d", &x)] *)

(** The scanner's [SkipSpace] with [nlIsSpace] unset: blanks are skipped, a
    line feed is an error. *)
Fixpoint skipSpace (s : string) : option string :=
  match s with
  | EmptyString => Some EmptyString
  | String c0 r0 =>
      if Ascii.eqb c0 "010" then None
      else if asciiSpace c0 then skipSpace r0
      else
        match r0 with
        | EmptyString => Some s
        | String c1 r1 =>
            if space2 c0 c1 then skipSpace r1
            else
              match r1 with
              | EmptyString => Some s
              | String c2 r2 => if space3 c0 c1 c2 then skipSpace r2 else Some s
              end
        end
  end.

(** The digits [scanNumber] accepts for the verb [%d]: ["0123456789"]. *)
Definition isScanDigit (c : ascii) : bool :=
  match digit_val c with
  | Some _ => true
  | None => false
  end.

Fixpoint takeScanDigits (s : string) : string :=
  match s with
  | EmptyString => EmptyString
  | String c r => if isScanDigit c then String c (takeScanDigits r) else EmptyString
  end.

(** [scanInt] for the verb [%d]: skip blanks, accept one sign, read the
    longest run of scan digits (at least one), convert it with
    [strconv.ParseInt]. [None] when the scan fails, in which case [Sscanf]
    leaves its operand untouched. Input left after the number is ignored. *)
Definition Sscanf_d (s : string) : option Z :=
  match skipSpace s with
  | None => None
  | Some EmptyString => None
  | Some (String c r as s1) =>
      let signed := Ascii.eqb c "-" || Ascii.eqb c "+" in
      let rest := if signed then r else s1 in
      match takeScanDigits rest with
      | EmptyString => None
      | tok => Atoi (if signed then String c tok else tok)
      end
  end.

(** *** [fmt] verbs on integers *)

(** [%d]. *)
Definition fmt_d (z : Z) : string := NilZero.string_of_int (Z.to_int z).

(** [%+d]. *)
Definition fmt_plus_d (z : Z) : string :=
  if 0 <=? z then "+" +:+ fmt_d z else fmt_d z.

Fixpoint join (sep : string) (l : list string) : string :=
  match l with
  | [] => EmptyString
  | [x] => x
  | x :: r => x +:+ sep +:+ join sep r
  end.

(** [%v] on a [[]int]. *)
Definition fmt_ints (l : list Z) : string :=
  "[" +:+ join " " (map fmt_d l) +:+ "]".

(** *** [make([]int, n)]

    [makeslice] of the run time panics ("makeslice: len out of range") when
    the length is negative or the bytes asked for, 8 for an [int], overflow a
    machine word or exceed [maxAlloc]; that is [1 << 48] where heap addresses
    have 48 bits, as on linux/amd64. *)
Definition maxAlloc : Z := 2 ^ 48.

Definition make_ints (n : Z) : exec (list Z) :=
  if (n <? 0) || (maxAlloc <? 8 * n) then Panic MakeSliceLenOutOfRange
  else Ok (replicate (Z.to_nat n) 0).

(** *** Dynamic values

    What [json.Unmarshal] stores in an [any]: [nil], [bool], [float64] (its
    64 bits), [string], [[]any] and [map[string]any]. A map is the list of its
    entries in the order a [range] over it delivers them, which Go leaves
    unspecified: whatever holds for every list holds for every order. *)
Inductive any : Set :=
| ANil
| ABool (b : bool)
| AFloat64 (bits : Z)
| AString (s : string)
| ASlice (l : list any)
| AMap (m : list (string * any)).

(** [m[key]] on a [map[string]any]: [nil] when the key is absent. *)
Fixpoint map_index (m : list (string * any)) (key : string) : any :=
  match m with
  | [] => ANil
  | (k, v) :: r => if String.eqb k key then v else map_index r key
  end.

End Go.

(** ** The agent framework's types, as far as the programs use them *)

Module Fantasy.

(** [fantasy.ToolResponse] built by [fantasy.NewTextResponse]. *)
Inductive ToolResponse : Set :=
| NewTextResponse (text : string).

(** A Go [error] value; [None] is [nil]. *)
Inductive error : Set :=
| ErrNew (msg : string)
| Errorf_w (prefix : string) (wrapped : error).

(** What a tool handler returns: [(fantasy.ToolResponse, error)]. *)
Definition result : Set := (ToolResponse * option error)%type.

(** [fantasy.Message], opaque to the programs. *)
Inductive Message : Set :=
| Msg (role : string) (content : string).

(** One element of [result.Steps]. *)
Record Step : Set := { Messages : list Message }.

(** [*fantasy.AgentResult]. *)
Record AgentResult : Set := { Steps : list Step }.

End Fantasy.

(** ** Dice evaluation shared by the two programs *)

Module Dice.
Import Go Fantasy.

(** The values of the locals [count], [sides], the modifier, [rolls] and
    [total] at the final [return] of [rollDice], next to what it returns; or
    the early return of the notation form. *)
Inductive outcome : Set :=
| Invalid (ret : result)
| Rolled (count sides modifier : Z) (rolls : list Z) (total : Z) (ret : result).

Section Entropy.

(** [rand_Int i max] is the number the [i]-th call (from 0) of
    [rand.Int(rand.Reader, max)] draws within one evaluation. *)
Variable rand_Int : nat -> Z -> Z.

(** [rand.Int] panics when [max <= 0]; the read of [rand.Reader] is taken to
    succeed. *)
Definition randInt (i : nat) (max : Z) : exec Z :=
  if max <=? 0 then Panic RandIntNonPositive else Ok (rand_Int i max).

(** The loop of [rollDice] (main.go l.359-363, part_000 l.277-281), [n]
    iterations left, [i] the loop index:
<<
    n, _ := rand.Int(rand.Reader, big.NewInt(int64(sides)))
    rolls[i] = int(n.Int64()) + 1
    total += rolls[i]
>> *)
Fixpoint rollLoop (n i : nat) (sides : Z) (rolls : list Z) (total : Z)
  : exec (list Z * Z) :=
  match n with
  | O => mret (rolls, total)
  | S n' =>
      r ← randInt i sides;
      if decide (i < length rolls)%nat then
        let rolls := <[i := int_add r 1]> rolls in
        let total := int_add total (default 0 (rolls !! i)) in
        rollLoop n' (S i) sides rolls total
      else Panic IndexOutOfRange
  end.

(** [rolls := make([]int, count); total := 0; for i < count { ... }]. *)
Definition rollAll (count sides : Z) : exec (list Z * Z) :=
  rolls ← make_ints count;
  rollLoop (Z.to_nat count) 0 sides rolls 0.

End Entropy.
End Dice.

(** ** src/unnamed/part_000 *)

Module Part000.
Import Go Fantasy Dice.

Record diceQuery : Set := { Notation' : string }.

Definition invalidNotation (notation : string) : outcome :=
  Invalid (NewTextResponse ("Invalid dice notation: " +:+ notation), None).

Section Collaborators.
Variable rand_Int : nat -> Z -> Z.
Variable mapToLower : string -> string.

(** [rollDice] of part_000 (l.244-291). *)
Definition rollDice (input : diceQuery) : exec outcome :=
  let notation := TrimSpace (Notation' input) in
  tail ← slice_from notation 1;
  let idx := IndexAny tail "+-" in
  '(modifier, mainPart) ←
    (if 0 <=? idx then
       let idx := idx + 1 in
       c ← byte_at notation idx;
       let modSign := if Ascii.eqb c "-" then -1 else 1 in
       rest ← slice_from notation (idx + 1);
       let modifier := default 0 (Sscanf_d rest) in
       let modifier := int_mul modifier modSign in
       mainPart ← slice_to notation idx;
       mret (modifier, mainPart)
     else mret (0, notation));
  match SplitN2 (ToLower mapToLower mainPart) "d" with
  | [p0; p1] =>
      let count :=
        match Atoi p0 with
        | Some c => if c <=? 0 then 1 else c
        | None => 1
        end in
      match Atoi p1 with
      | Some sides =>
          if sides <=? 0 then mret (invalidNotation notation)
          else
            '(rolls, total) ← rollAll rand_Int count sides;
            let total := int_add total modifier in
            let result := "🎲 Rolling " +:+ notation +:+ ": " +:+ fmt_ints rolls in
            let result :=
              if modifier =? 0 then result
              else result +:+ " " +:+ fmt_plus_d modifier in
            let result := result +:+ " = **" +:+ fmt_d total +:+ "**" in
            mret (Rolled count sides modifier rolls total (NewTextResponse result, None))
      | None => mret (invalidNotation notation)
      end
  | _ => mret (invalidNotation notation)
  end.

End Collaborators.
End Part000.

(** ** src/main.go *)

Module Main.
Import Go Fantasy Dice.

(** *** Tool: roll_dice (l.347-372) *)

Record diceQuery : Set := { Count : Z; Sides : Z; Modifier : Z }.

Section Entropy.
Variable rand_Int : nat -> Z -> Z.

Definition rollDice (input : diceQuery) : exec outcome :=
  let count := Z.max (Count input) 1 in
  let sides := Z.max (Sides input) 1 in
  '(rolls, total) ← rollAll rand_Int count sides;
  let total := int_add total (Modifier input) in
  let notation := fmt_d count +:+ "d" +:+ fmt_d sides in
  let notation :=
    if Modifier input =? 0 then notation
    else notation +:+ fmt_plus_d (Modifier input) in
  mret (Rolled count sides (Modifier input) rolls total
          (NewTextResponse
             ("Rolling " +:+ notation +:+ ": " +:+ fmt_ints rolls +:+ " = " +:+ fmt_d total),
           None)).

End Entropy.

(** *** Tool: ask_player (l.209-238) *)

Record askPlayerInput : Set := { Question : string; Options : list string }.

(** The console: the lines [playerScanner] has yet to deliver (after the last
    one [Scan] reports false, for the end of the input or a read error), and
    what has been printed so far, one entry per [Printf]. *)
Record console : Set := { pending : list string; printed : list string }.

Definition Printf (s : string) (c : console) : console :=
  {| pending := pending c; printed := printed c ++ [s] |}.

(** [for i, opt := range input.Options { fmt.Printf("  %d. %s\n", i+1, opt) }] *)
Fixpoint printOptions (i : Z) (opts : list string) (c : console) : console :=
  match opts with
  | [] => c
  | opt :: r =>
      printOptions (i + 1) r (Printf ("  " +:+ fmt_d (i + 1) +:+ ". " +:+ opt +:+ nl) c)
  end.

(** [input.Options[i]]. *)
Definition option_at (opts : list string) (i : Z) : exec string :=
  if (0 <=? i) && (i <? Z.of_nat (length opts)) then
    match opts !! Z.to_nat i with
    | Some o => Ok o
    | None => Panic IndexOutOfRange
    end
  else Panic IndexOutOfRange.

Definition choosePrompt (n : Z) : string := nl +:+ "Choose [1-" +:+ fmt_d n +:+ "]: ".
Definition pickMessage (n : Z) : string :=
  "Pick a number between 1 and " +:+ fmt_d n +:+ "." +:+ nl.
Definition playerLeft : result :=
  (NewTextResponse "The player has left the game.", None).
Definition playerChose (chosen : string) : result :=
  (NewTextResponse ("The player chose: " +:+ chosen), None).

(** The [for] loop of [askPlayer], by recursion on the lines still to come:
    every iteration consumes one of them or ends the call. *)
Fixpoint askLoop (opts : list string) (lines : list string) (out : list string)
  : exec (result * console) :=
  let n := Z.of_nat (length opts) in
  let out := out ++ [choosePrompt n] in
  match lines with
  | [] => mret (playerLeft, {| pending := []; printed := out |})
  | line :: rest =>
      let text := TrimSpace line in
      match Atoi text with
      | Some choice =>
          if (choice <? 1) || (n <? choice) then
            askLoop opts rest (out ++ [pickMessage n])
          else
            chosen ← option_at opts (choice - 1);
            mret (playerChose chosen,
                  {| pending := rest;
                     printed := out ++ ["-> " +:+ chosen +:+ nl +:+ nl] |})
      | None => askLoop opts rest (out ++ [pickMessage n])
      end
  end.

Definition askPlayer (input : askPlayerInput) (c : console) : exec (result * console) :=
  let c := Printf (nl +:+ nl +:+ "--- YOUR TURN ---" +:+ nl +:+ Question input +:+ nl +:+ nl) c in
  let c := printOptions 0 (Options input) c in
  askLoop (Options input) (pending c) (printed c).

(** *** Tools: lookup_monster, lookup_spell and their helpers (l.244-341, 378-404) *)

Record monsterQuery : Set := { Name : string }.
(** The field is [Name] in the source too. *)
Record spellQuery : Set := { Name' : string }.

(** [*http.Response], as far as it is read. *)
Record Response : Set := { StatusCode : Z; Body : string }.

Section Lookup.

Variable mapToLower : string -> string.
(** [http.Get(url)]: [None] when it returns an error. *)
Variable http_Get : string -> option Response.
(** The map [json.Unmarshal(body, &m)] leaves in [m] (empty when the body
    does not decode). *)
Variable json_Unmarshal : string -> list (string * any).
(** [fmt.Sprintf("%v", x)] and [fmt.Sprintf("%s", x)] for a dynamic [x]. *)
Variable Sprint_v Sprint_s : any -> string.

Definition formatAC (ac : any) : string :=
  match ac with
  | ASlice (AMap m :: _) => Sprint_v (map_index m "value")
  | _ => "?"
  end.

Definition formatSpeed (speed : any) : string :=
  match speed with
  | AMap m => join ", " (map (fun kv => fst kv +:+ " " +:+ Sprint_v (snd kv)) m)
  | _ => "?"
  end.

Definition formatSchool (school : any) : string :=
  match school with
  | AMap m => Sprint_v (map_index m "name")
  | _ => "?"
  end.

(** The two loops of [lookupMonster] over [actions] and [abilities]:
<<
    act := a.(map[string]any)
    summary += fmt.Sprintf("\n- %s: %s", act["name"], act["desc"])
>>
    The type assertion has no [ok] result: it panics on anything but a map. *)
Fixpoint appendEntries (l : list any) (summary : string) : exec string :=
  match l with
  | [] => mret summary
  | a :: r =>
      match a with
      | AMap act =>
          appendEntries r
            (summary +:+ nl +:+ "- " +:+ Sprint_s (map_index act "name") +:+ ": "
               +:+ Sprint_s (map_index act "desc"))
      | _ => Panic InterfaceConversion
      end
  end.

Definition lookupMonster (input : monsterQuery) : exec result :=
  let slug := ToLower mapToLower (ReplaceAll (Name input) " " "-") in
  match http_Get ("https://www.dnd5eapi.co/api/monsters/" +:+ slug) with
  | None => mret (NewTextResponse "Failed to reach D&D API", None)
  | Some resp =>
      if negb (StatusCode resp =? 200) then
        mret (NewTextResponse ("Monster '" +:+ Name input +:+ "' not found"), None)
      else
        let m := json_Unmarshal (Body resp) in
        let summary :=
          Sprint_s (map_index m "name") +:+ " (" +:+ Sprint_s (map_index m "size") +:+ " "
          +:+ Sprint_s (map_index m "type") +:+ ", CR "
          +:+ Sprint_v (map_index m "challenge_rating")
          +:+ ") | AC " +:+ formatAC (map_index m "armor_class")
          +:+ " | HP " +:+ Sprint_v (map_index m "hit_points")
          +:+ " (" +:+ Sprint_v (map_index m "hit_dice") +:+ ")" +:+ nl
          +:+ "STR " +:+ Sprint_v (map_index m "strength")
          +:+ " DEX " +:+ Sprint_v (map_index m "dexterity")
          +:+ " CON " +:+ Sprint_v (map_index m "constitution")
          +:+ " INT " +:+ Sprint_v (map_index m "intelligence")
          +:+ " WIS " +:+ Sprint_v (map_index m "wisdom")
          +:+ " CHA " +:+ Sprint_v (map_index m "charisma")
          +:+ " | Speed: " +:+ formatSpeed (map_index m "speed") in
        summary ←
          match map_index m "actions" with
          | ASlice actions => appendEntries actions (summary +:+ nl +:+ "Actions:")
          | _ => mret summary
          end;
        summary ←
          match map_index m "special_abilities" with
          | ASlice abilities =>
              appendEntries abilities (summary +:+ nl +:+ "Special Abilities:")
          | _ => mret summary
          end;
        mret (NewTextResponse summary, None)
  end.

Definition lookupSpell (input : spellQuery) : exec result :=
  let slug := ToLower mapToLower (ReplaceAll (Name' input) " " "-") in
  match http_Get ("https://www.dnd5eapi.co/api/spells/" +:+ slug) with
  | None => mret (NewTextResponse "Failed to reach D&D API", None)
  | Some resp =>
      if negb (StatusCode resp =? 200) then
        mret (NewTextResponse ("Spell '" +:+ Name' input +:+ "' not found"), None)
      else
        let s := json_Unmarshal (Body resp) in
        let desc :=
          match map_index s "desc" with
          | ASlice (d0 :: _) => Sprint_v d0
          | _ => EmptyString
          end in
        let summary :=
          Sprint_s (map_index s "name") +:+ " (Level " +:+ Sprint_v (map_index s "level")
          +:+ " " +:+ formatSchool (map_index s "school") +:+ ") | "
          +:+ Sprint_s (map_index s "casting_time") +:+ " | Range: "
          +:+ Sprint_s (map_index s "range") +:+ " | Duration: "
          +:+ Sprint_s (map_index s "duration") +:+ nl
          +:+ "Components: " +:+ Sprint_v (map_index s "components") +:+ nl +:+ desc in
        let summary :=
          match map_index s "damage" with
          | AMap dmg =>
              match map_index dmg "damage_at_slot_level" with
              | AMap atSlot =>
                  fold_left
                    (fun summary kv => summary +:+ " L" +:+ fst kv +:+ "=" +:+ Sprint_v (snd kv))
                    atSlot (summary +:+ nl +:+ "Damage by slot:")
              | _ => summary
              end
          | _ => summary
          end in
        mret (NewTextResponse summary, None)
  end.

End Lookup.

(** *** Game loop (l.87-127) *)

(** What [agent.Stream] returns: a result, or an error. *)
Inductive streamed : Set :=
| StreamOk (r : AgentResult)
| StreamErr (e : error).

(** [context.DeadlineExceeded], the error of a Turn whose 30 minutes ran out,
    and [context.Canceled]. *)
Definition DeadlineExceeded : error := ErrNew "context deadline exceeded".
Definition Canceled : error := ErrNew "context canceled".

(** Where the loop stands: still iterating, with the values of [history] and
    [prompt] at the top of the next iteration, or returned from [gameLoop] with
    its [error] ([None] is [nil]). *)
Inductive loop : Set :=
| Running (history : list Message) (prompt : string)
| Returned (err : option error).

Section Loop.

(** [Stream t prompt history] is what the [t]-th call (from 0) of
    [agent.Stream] returns, given the prompt and the messages it is passed. *)
Variable Stream : nat -> string -> list Message -> streamed.
(** [sigCtx_Err t] is [sigCtx.Err()] as read after the [t]-th call failed. *)
Variable sigCtx_Err : nat -> option error.

(** One iteration of the [for] loop, the [t]-th. The console output
    ([fmt.Println]) is left out. *)
Definition turn (t : nat) (history : list Message) (prompt : string) : loop :=
  match Stream t prompt history with
  | StreamErr err =>
      match sigCtx_Err t with
      | Some _ => Returned None
      | None => Returned (Some (Errorf_w "stream: " err))
      end
  | StreamOk result =>
      let history := fold_left (fun h step => h ++ Messages step) (Steps result) history in
      Running history "Continue."
  end.

(** The loop from its [t]-th iteration on, observed for [n] iterations. *)
Fixpoint iterate (n t : nat) (history : list Message) (prompt : string) : loop :=
  match n with
  | O => Running history prompt
  | S n' =>
      match turn t history prompt with
      | Running history prompt => iterate n' (S t) history prompt
      | Returned err => Returned err
      end
  end.

(** [gameLoop] observed for its first [n] iterations: [history] starts
    empty and [prompt] as ["Begin."]. *)
Definition gameLoop (n : nat) : loop := iterate n 0 [] "Begin.".

End Loop.

End Main.

(** ** src/unnamed/part_000: the lookups and their helpers (l.129-236, 293-320) *)

Module Part000Lookup.
Import Go Fantasy.

Record monsterQuery : Set := { Name : string }.
(** The field is [Name] in the source too. *)
Record spellQuery : Set := { Name' : string }.

Section Lookup.

Variable mapToLower : string -> string.
(** [http.Get(url)]: [None] when it returns an error. *)
Variable http_Get : string -> option Main.Response.
(** The map [json.Unmarshal(body, &monster)] leaves behind (empty when the
    body does not decode). *)
Variable json_Unmarshal : string -> list (string * any).
(** [fmt.Sprintf("%v", x)] and [fmt.Sprintf("%s", x)] for a dynamic [x]. *)
Variable Sprint_v Sprint_s : any -> string.

Definition formatAC (ac : any) : string :=
  match ac with
  | ASlice (AMap m :: _) => Sprint_v (map_index m "value")
  | _ => "?"
  end.

Definition formatSpeed (speed : any) : string :=
  match speed with
  | AMap m => join ", " (map (fun kv => fst kv +:+ " " +:+ Sprint_v (snd kv)) m)
  | _ => "?"
  end.

Definition formatSchool (school : any) : string :=
  match school with
  | AMap m => Sprint_v (map_index m "name")
  | _ => "?"
  end.

(** The two loops of [lookupMonster] (l.169-172, 177-180), with the same
    unchecked assertion [a.(map[string]any)] as in main.go. *)
Fixpoint appendEntries (l : list any) (summary : string) : exec string :=
  match l with
  | [] => mret summary
  | a :: r =>
      match a with
      | AMap action =>
          appendEntries r
            (summary +:+ nl +:+ "- " +:+ Sprint_s (map_index action "name") +:+ ": "
               +:+ Sprint_s (map_index action "desc"))
      | _ => Panic InterfaceConversion
      end
  end.

Definition lookupMonster (input : monsterQuery) : exec result :=
  let slug := ToLower mapToLower (ReplaceAll (Name input) " " "-") in
  let url := "https://www.dnd5eapi.co/api/monsters/" +:+ slug in
  match http_Get url with
  | None => mret (NewTextResponse "Failed to reach D&D API", None)
  | Some resp =>
      if negb (Main.StatusCode resp =? 200) then
        mret (NewTextResponse ("Monster '" +:+ Name input +:+ "' not found in the bestiary"),
              None)
      else
        let monster := json_Unmarshal (Main.Body resp) in
        let summary :=
          "**" +:+ Sprint_s (map_index monster "name") +:+ "** ("
          +:+ Sprint_s (map_index monster "size") +:+ " "
          +:+ Sprint_s (map_index monster "type") +:+ ", CR "
          +:+ Sprint_v (map_index monster "challenge_rating") +:+ ")" +:+ nl
          +:+ "AC: " +:+ formatAC (map_index monster "armor_class")
          +:+ " | HP: " +:+ Sprint_v (map_index monster "hit_points")
          +:+ " (" +:+ Sprint_v (map_index monster "hit_dice") +:+ ")" +:+ nl
          +:+ "STR " +:+ Sprint_v (map_index monster "strength")
          +:+ " DEX " +:+ Sprint_v (map_index monster "dexterity")
          +:+ " CON " +:+ Sprint_v (map_index monster "constitution")
          +:+ " INT " +:+ Sprint_v (map_index monster "intelligence")
          +:+ " WIS " +:+ Sprint_v (map_index monster "wisdom")
          +:+ " CHA " +:+ Sprint_v (map_index monster "charisma") +:+ nl
          +:+ "Speed: " +:+ formatSpeed (map_index monster "speed") in
        summary ←
          match map_index monster "actions" with
          | ASlice actions => appendEntries actions (summary +:+ nl +:+ nl +:+ "Actions:")
          | _ => mret summary
          end;
        summary ←
          match map_index monster "special_abilities" with
          | ASlice abilities =>
              appendEntries abilities (summary +:+ nl +:+ nl +:+ "Special Abilities:")
          | _ => mret summary
          end;
        mret (NewTextResponse summary, None)
  end.

Definition lookupSpell (input : spellQuery) : exec result :=
  let slug := ToLower mapToLower (ReplaceAll (Name' input) " " "-") in
  let url := "https://www.dnd5eapi.co/api/spells/" +:+ slug in
  match http_Get url with
  | None => mret (NewTextResponse "Failed to reach D&D API", None)
  | Some resp =>
      if negb (Main.StatusCode resp =? 200) then
        mret (NewTextResponse ("Spell '" +:+ Name' input +:+ "' not found in the spellbook"),
              None)
      else
        let spell := json_Unmarshal (Main.Body resp) in
        let desc :=
          match map_index spell "desc" with
          | ASlice (d0 :: _) => Sprint_v d0
          | _ => EmptyString
          end in
        let summary :=
          "**" +:+ Sprint_s (map_index spell "name") +:+ "** (Level "
          +:+ Sprint_v (map_index spell "level") +:+ " "
          +:+ formatSchool (map_index spell "school") +:+ ")" +:+ nl
          +:+ "Casting Time: " +:+ Sprint_s (map_index spell "casting_time")
          +:+ " | Range: " +:+ Sprint_s (map_index spell "range")
          +:+ " | Duration: " +:+ Sprint_s (map_index spell "duration") +:+ nl
          +:+ "Components: " +:+ Sprint_v (map_index spell "components") +:+ nl +:+ nl
          +:+ desc in
        let summary :=
          match map_index spell "damage" with
          | AMap dmg =>
              match map_index dmg "damage_at_slot_level" with
              | AMap atSlot =>
                  fold_left
                    (fun summary kv =>
                       summary +:+ nl +:+ "  Level " +:+ fst kv +:+ ": " +:+ Sprint_v (snd kv))
                    atSlot (summary +:+ nl +:+ nl +:+ "Damage by slot level:")
              | _ => summary
              end
          | _ => summary
          end in
        mret (NewTextResponse summary, None)
  end.

End Lookup.
End Part000Lookup.

(** ** Vocabulary of the properties *)

Import Go Fantasy Dice.

(** The longest [[]int] the run time makes: [8 * maxLen = maxAlloc]. *)
Definition maxLen : Z := 2 ^ 45.

(** The exact sum of a list of integers. *)
Fixpoint sumZ (l : list Z) : Z :=
  match l with
  | [] => 0
  | x :: r => x + sumZ r
  end.

(** The outcomes [n] draws from index [i] give on a die of [sides] sides. *)
Definition draws (rand_Int : nat -> Z -> Z) (sides : Z) (i n : nat) : list Z :=
  map (fun j => rand_Int j sides + 1) (seq i n).

(** The contract of the entropy source: a draw below [max] lies in [[0, max)]. *)
Definition entropy_ok (rand_Int : nat -> Z -> Z) : Prop :=
  forall i max, 0 < max -> 0 <= rand_Int i max < max.

(** A structured input whose fields are values of [int]. *)
Definition wf_diceQuery (input : Main.diceQuery) : Prop :=
  inInt (Main.Count input) /\ inInt (Main.Sides input) /\ inInt (Main.Modifier input).

(** The property as the specification words it: the total is the exact sum. *)
Definition dice_claim (o : outcome) : Prop :=
  match o with
  | Invalid _ => False
  | Rolled count sides modifier rolls total _ =>
      Z.of_nat (length rolls) = count
      /\ Forall (fun r => 1 <= r <= sides) rolls
      /\ total = sumZ rolls + modifier
  end.

(** The property the code has: the total is the sum in [int] arithmetic, the
    exact sum whenever that is an [int]. *)
Definition dice_law (o : outcome) : Prop :=
  match o with
  | Invalid _ => False
  | Rolled count sides modifier rolls total _ =>
      Z.of_nat (length rolls) = count
      /\ Forall (fun r => 1 <= r <= sides) rolls
      /\ total = wrap64 (sumZ rolls + modifier)
      /\ (inInt (sumZ rolls + modifier) -> total = sumZ rolls + modifier)
  end.

(** An evaluation that ended with the invalid-notation response. *)
Definition is_invalid (o : outcome) : Prop :=
  match o with
  | Invalid _ => True
  | Rolled _ _ _ _ _ _ => False
  end.

(** The notation-string grammar, read off the spec: [<count>d<sides>] followed
    by an optional signed modifier. *)

(** What precedes the first sign found after the first byte. *)
Definition mainPartOf (notation : string) : string :=
  let idx := IndexAny (drop_bytes 1 notation) "+-" in
  if 0 <=? idx then take_bytes (Z.to_nat (idx + 1)) notation else notation.

(** The modifier: the integer scanned after that sign, negated by a ['-']. *)
Definition modifierOf (notation : string) : Z :=
  let idx := IndexAny (drop_bytes 1 notation) "+-" in
  if 0 <=? idx then
    int_mul (default 0 (Sscanf_d (drop_bytes (Z.to_nat (idx + 2)) notation)))
      (match String.get (Z.to_nat (idx + 1)) notation with
       | Some "-"%char => -1
       | _ => 1
       end)
  else 0.

(** The count and sides texts: the lower-cased main part around its first ['d']. *)
Definition partsOf (mapToLower : string -> string) (notation : string)
  : option (string * string) :=
  cut (ToLower mapToLower (mainPartOf notation)) "d".

(** A text that reads as a positive [int]. *)
Definition positive_int (s : string) : option Z :=
  match Atoi s with
  | Some n => if 0 <? n then Some n else None
  | None => None
  end.

(** The responses of the two rollers as the properties spell them, each with
    a [nil] error: the invalid-notation text, the report of part_000 and the
    report of main.go. *)
Definition invalid_reply (notation : string) : result :=
  (NewTextResponse ("Invalid dice notation: " +:+ notation), None).

Definition notation_reply (notation : string) (rolls : list Z) (modifier total : Z) : result :=
  (NewTextResponse
     ("🎲 Rolling " +:+ notation +:+ ": " +:+ fmt_ints rolls
        +:+ (if modifier =? 0 then EmptyString else " " +:+ fmt_plus_d modifier)
        +:+ " = **" +:+ fmt_d total +:+ "**"), None).

(** What the notation form returns once [count], [sides], the modifier and the
    draws are known (part_000 l.282-290). *)
Definition rolled (notation : string) (count sides modifier : Z) (rolls : list Z) (total : Z)
  : outcome :=
  let total := int_add total modifier in
  let result := "🎲 Rolling " +:+ notation +:+ ": " +:+ fmt_ints rolls in
  let result := if modifier =? 0 then result else result +:+ " " +:+ fmt_plus_d modifier in
  let result := result +:+ " = **" +:+ fmt_d total +:+ "**" in
  Rolled count sides modifier rolls total (NewTextResponse result, None).

(** The value of a decimal numeral read from the left, as [parse_digits] does. *)
Fixpoint uint_val (d : Decimal.uint) (acc : Z) : Z :=
  match d with
  | Decimal.Nil => acc
  | Decimal.D0 l => uint_val l (acc * 10 + 0)
  | Decimal.D1 l => uint_val l (acc * 10 + 1)
  | Decimal.D2 l => uint_val l (acc * 10 + 2)
  | Decimal.D3 l => uint_val l (acc * 10 + 3)
  | Decimal.D4 l => uint_val l (acc * 10 + 4)
  | Decimal.D5 l => uint_val l (acc * 10 + 5)
  | Decimal.D6 l => uint_val l (acc * 10 + 6)
  | Decimal.D7 l => uint_val l (acc * 10 + 7)
  | Decimal.D8 l => uint_val l (acc * 10 + 8)
  | Decimal.D9 l => uint_val l (acc * 10 + 9)
  end.

(** A string of decimal digits only. *)
Fixpoint all_digits (s : string) : bool :=
  match s with
  | EmptyString => true
  | String c r => isScanDigit c && all_digits r
  end.

(** A byte that is a decimal digit or the letter ['d']. *)
Definition plain_byte (c : ascii) : bool := isScanDigit c || Ascii.eqb c "d".

(** A string of decimal digits and ['d']s only. *)
Fixpoint all_plain (s : string) : bool :=
  match s with
  | EmptyString => true
  | String c r => plain_byte c && all_plain r
  end.

(** [s] is the decimal numeral of [z]: digits only, at least one. *)
Definition numeral (s : string) (z : Z) : Prop :=
  s <> EmptyString /\ all_digits s = true /\ parse_digits s 0 = Some z.

(** The notation made of a count text, the letter ['d'], a sides text and
    the signed modifier unless it is 0. *)
Definition notation_text (count_text sides_text : string) (modifier : Z) : string :=
  count_text +:+ "d" +:+ sides_text
    +:+ (if modifier =? 0 then EmptyString else fmt_plus_d modifier).

(** The notation the specification gives for a dice expression:
    [<count>d<sides>[+|-<modifier>]] with the numbers in decimal. *)
Definition canonical (count sides modifier : Z) : string :=
  notation_text (fmt_d count) (fmt_d sides) modifier.

Definition structured_reply (count sides modifier : Z) (rolls : list Z) (total : Z) : result :=
  (NewTextResponse
     ("Rolling " +:+ fmt_d count +:+ "d" +:+ fmt_d sides
        +:+ (if modifier =? 0 then EmptyString else fmt_plus_d modifier)
        +:+ ": " +:+ fmt_ints rolls +:+ " = " +:+ fmt_d total), None).

(** A stand-in for the Unicode case tables, which no ASCII input consults. *)
Definition ascii_only : string -> string := fun s => s.

(** Two entropy sources: every draw 0, and draws 3 then 4. *)
Definition zero_entropy : nat -> Z -> Z := fun _ _ => 0.

Definition draws_4_5 : nat -> Z -> Z := fun i _ => match i with O => 3 | _ => 4 end.

(** The banner [askPlayer] prints first. *)
Definition turnBanner (question : string) : string :=
  nl +:+ nl +:+ "--- YOUR TURN ---" +:+ nl +:+ question +:+ nl +:+ nl.

(** What is on the console when [askPlayer] enters its loop. *)
Definition announced (input : Main.askPlayerInput) (c : Main.console) : list string :=
  Main.printed
    (Main.printOptions 0 (Main.Options input) (Main.Printf (turnBanner (Main.Question input)) c)).

(** The number of options on offer, [len(input.Options)]. *)
Definition offered (opts : list string) : Z := Z.of_nat (length opts).

(** A line the gate turns down, [n] options on offer: it does not read as an
    integer, or reads as one outside [[1, n]]. *)
Definition rejected (n : Z) (line : string) : Prop :=
  match Atoi (TrimSpace line) with
  | Some choice => choice < 1 \/ n < choice
  | None => True
  end.

(** What accepting [chosen] prints. *)
Definition echo (chosen : string) : string := "-> " +:+ chosen +:+ nl +:+ nl.

(** [sub] occurs in [s]. *)
Definition contains (s sub : string) : Prop :=
  exists pre post, s = pre +:+ sub +:+ post.

(** The address [lookupMonster] and [lookupSpell] fetch for a name. *)
Definition slug (mapToLower : string -> string) (name : string) : string :=
  ToLower mapToLower (ReplaceAll name " " "-").
Definition monsterURL (mapToLower : string -> string) (name : string) : string :=
  "https://www.dnd5eapi.co/api/monsters/" +:+ slug mapToLower name.
Definition spellURL (mapToLower : string -> string) (name : string) : string :=
  "https://www.dnd5eapi.co/api/spells/" +:+ slug mapToLower name.

(** Stand-ins for the lookups' collaborators: a service that cannot be
    reached, one that answers every request with the same status and body, a
    decoder that finds no field, and a formatter that prints nothing. *)
Definition unreachable : string -> option Main.Response := fun _ => None.
Definition answers (status : Z) (body : string) : string -> option Main.Response :=
  fun _ => Some {| Main.StatusCode := status; Main.Body := body |}.
Definition no_record : string -> list (string * any) := fun _ => [].
Definition blank_Sprint : any -> string := fun _ => EmptyString.

(** A monster record whose [actions] list holds a string, as the decoder
    delivers the body [{"name":"Owlbear","actions":["Multiattack"]}]. *)
Definition owlbear_record : list (string * any) :=
  [("name"%string, AString "Owlbear"); ("actions"%string, ASlice [AString "Multiattack"])].

(** A list of dynamic values that holds maps only. *)
Definition all_maps (l : list any) : Prop :=
  Forall (fun a => match a with AMap _ => True | _ => False end) l.

(** The lists [lookupMonster] walks hold maps only, where they are lists. *)
Definition entries_are_maps (m : list (string * any)) : Prop :=
  (forall l, map_index m "actions" = ASlice l -> all_maps l)
  /\ (forall l, map_index m "special_abilities" = ASlice l -> all_maps l).

(** An armor class of the expected shape: a list whose head is a map. *)
Definition ac_shaped (ac : any) : Prop :=
  match ac with
  | ASlice (AMap _ :: _) => True
  | _ => False
  end.

(** Agent and signal for the loop: every Turn succeeds with the same two
    Steps until the Turn [fail_at], which fails with [err]; the operator has
    interrupted by then or not, as [interrupted] says. *)
Definition two_steps : AgentResult :=
  {| Steps := [ {| Messages := [Msg "assistant" "a"; Msg "tool" "b"] |};
                {| Messages := [Msg "assistant" "c"] |} ] |}.
Definition scripted_Stream (fail_at : nat) (err : error)
  : nat -> string -> list Message -> Main.streamed :=
  fun t _ _ => if Nat.eqb t fail_at then Main.StreamErr err else Main.StreamOk two_steps.
Definition scripted_signal (interrupted : bool) : nat -> option error :=
  fun _ => if interrupted then Some Main.Canceled else None.

(** A question with five options. *)
Definition five_options : Main.askPlayerInput :=
  {| Main.Question := "What do you do?";
     Main.Options := ["Enter"; "Listen"; "Cast Shield"; "Search"; "Leave"] |}.

(** *** Vocabulary of the further properties *)

(** The line [askPlayer] prints for the option at index [i] (from 0). *)
Definition optionLine (i : nat) (opt : string) : string :=
  "  " +:+ fmt_d (Z.of_nat i + 1) +:+ ". " +:+ opt +:+ nl.

(** What the gate prints for lines it turns down, [n] options on offer: the
    prompt and the hint, once per line. *)
Definition reprompts (n : Z) (lines : list string) : list string :=
  concat (map (fun _ => [nl +:+ "Choose [1-" +:+ fmt_d n +:+ "]: ";
                         "Pick a number between 1 and " +:+ fmt_d n +:+ "." +:+ nl])
              lines).

(** A dynamic value that is not a [map[string]any]. *)
Definition not_a_map (a : any) : Prop :=
  match a with
  | AMap _ => False
  | _ => True
  end.

(** Every byte of [s] passes the test [p]. *)
Fixpoint all_bytes (p : ascii -> bool) (s : string) : bool :=
  match s with
  | EmptyString => true
  | String c r => p c && all_bytes p r
  end.

(** An ASCII capital letter. *)
Definition upper_byte (c : ascii) : bool := (65 <=? byte_val c) && (byte_val c <=? 90).

(** A byte of a normalised slug: ASCII, neither a space nor a capital. *)
Definition slug_byte (c : ascii) : bool :=
  (byte_val c <? 128) && negb (Ascii.eqb c " ") && negb (upper_byte c).

(** A byte that is not a sign. *)
Definition unsigned_byte (c : ascii) : bool := negb (byte_in c "+-").

(** A text that does not start with a decimal digit. *)
Definition no_digit_first (s : string) : Prop :=
  match s with
  | EmptyString => True
  | String c _ => isScanDigit c = false
  end.

(** The value a signed numeral stands for. *)
Definition signed (sg : ascii) (z : Z) : Z := if Ascii.eqb sg "-" then - z else z.

(** A string that starts with a blank. *)
Definition lead_blank (s : string) : bool :=
  match s with
  | EmptyString => false
  | String c0 r0 =>
      asciiSpace c0
      || match r0 with
         | EmptyString => false
         | String c1 r1 =>
             space2 c0 c1
             || match r1 with
                | EmptyString => false
                | String c2 _ => space3 c0 c1 c2
                end
         end
  end.

(** A string that ends with a blank, read last byte first. *)
Definition lead_blank_rev (s : string) : bool :=
  match s with
  | EmptyString => false
  | String c0 r0 =>
      asciiSpace c0
      || match r0 with
         | EmptyString => false
         | String c1 r1 =>
             space2 c1 c0
             || match r1 with
                | EmptyString => false
                | String c2 _ => space3 c2 c1 c0
                end
         end
  end.

(** The messages of a list of agent results: result after result, Step
    after Step. *)
Definition gathered (rs : list AgentResult) : list Message :=
  concat (map (fun r => concat (map Messages (Steps r))) rs).

(** The prompt of the [t]-th call of [agent.Stream]. *)
Definition promptAt (t : nat) : string :=
  match t with
  | O => "Begin."
  | S _ => "Continue."
  end.

(** An agent whose every Turn answers with [two_steps]. *)
Definition steady_Stream : nat -> string -> list Message -> Main.streamed :=
  fun _ _ _ => Main.StreamOk two_steps.

(** ** Facts about the run-time model *)

Section GoFacts.

Lemma wrap64_inInt z : inInt (wrap64 z).
Proof.
  unfold inInt, wrap64, minInt, maxInt.
  pose proof (Z.mod_pos_bound (z + 2 ^ 63) (2 ^ 64) ltac:(lia)). lia.
Qed.

Lemma wrap64_id z : inInt z -> wrap64 z = z.
Proof.
  unfold inInt, wrap64, minInt, maxInt. intros H.
  rewrite Z.mod_small by lia. lia.
Qed.

Lemma wrap64_add_l a b : wrap64 (wrap64 a + b) = wrap64 (a + b).
Proof.
  unfold wrap64. f_equal.
  replace (a + b + 2 ^ 63) with ((a + 2 ^ 63) + b) by lia.
  replace ((a + 2 ^ 63) mod 2 ^ 64 - 2 ^ 63 + b + 2 ^ 63)
    with ((a + 2 ^ 63) mod 2 ^ 64 + b) by lia.
  apply Zplus_mod_idemp_l.
Qed.

Lemma make_ints_ok n : 0 <= n <= maxLen -> make_ints n = Ok (replicate (Z.to_nat n) 0).
Proof.
  unfold make_ints, maxLen, maxAlloc. intros Hn.
  destruct (Z.ltb_spec n 0); [lia|]. destruct (Z.ltb_spec (2 ^ 48) (8 * n)); [lia|done].
Qed.

Lemma make_ints_too_long n : maxLen < n -> make_ints n = Panic MakeSliceLenOutOfRange.
Proof.
  unfold make_ints, maxLen, maxAlloc. intros Hn.
  destruct (Z.ltb_spec n 0); [done|]. destruct (Z.ltb_spec (2 ^ 48) (8 * n)); [done|lia].
Qed.

End GoFacts.

Section StringFacts.

Lemma len_String c r : len (String c r) = 1 + len r.
Proof. unfold len. simpl. lia. Qed.

Lemma len_nonneg s : 0 <= len s.
Proof. unfold len. lia. Qed.

Lemma indexAny_from_range chars s : forall i,
  indexAny_from s chars i = -1 \/ i <= indexAny_from s chars i < i + len s.
Proof.
  induction s as [|c r IH]; intros i; simpl; [by left|].
  rewrite len_String. destruct (byte_in c chars).
  - right. pose proof (len_nonneg r). lia.
  - destruct (IH (i + 1)) as [->|?]; [by left|right; lia].
Qed.

Lemma IndexAny_range s chars :
  IndexAny s chars = -1 \/ 0 <= IndexAny s chars < len s.
Proof. apply indexAny_from_range. Qed.

Lemma get_lt s : forall n, (n < String.length s)%nat -> exists c, String.get n s = Some c.
Proof.
  induction s as [|c r IH]; intros n Hn; simpl in *; [lia|].
  destruct n; [eauto|]. apply IH. lia.
Qed.

Lemma byte_at_ok s i :
  0 <= i < len s -> exists c, String.get (Z.to_nat i) s = Some c /\ byte_at s i = Ok c.
Proof.
  intros Hi. unfold byte_at.
  destruct (get_lt s (Z.to_nat i)) as [c Hc]; [unfold len in Hi; lia|].
  exists c. split; [done|]. rewrite Hc.
  destruct (Z.leb_spec 0 i); [|lia]. destruct (Z.ltb_spec i (len s)); [done|lia].
Qed.

Lemma slice_from_ok s i : 0 <= i <= len s -> slice_from s i = Ok (drop_bytes (Z.to_nat i) s).
Proof.
  intros Hi. unfold slice_from.
  destruct (Z.leb_spec 0 i); [|lia]. destruct (Z.leb_spec i (len s)); [done|lia].
Qed.

Lemma slice_to_ok s j : 0 <= j <= len s -> slice_to s j = Ok (take_bytes (Z.to_nat j) s).
Proof.
  intros Hj. unfold slice_to.
  destruct (Z.leb_spec 0 j); [|lia]. destruct (Z.leb_spec j (len s)); [done|lia].
Qed.

Lemma digit_val_range c d : digit_val c = Some d -> 0 <= d <= 9.
Proof.
  unfold digit_val. cbv zeta. destruct (andb _ _) eqn:E; [|done]. intros [= <-].
  apply andb_true_iff in E as [?%Z.leb_le ?%Z.leb_le]. lia.
Qed.

Lemma parse_digits_nonneg s : forall acc v, parse_digits s acc = Some v -> 0 <= acc -> 0 <= v.
Proof.
  induction s as [|c r IH]; simpl; intros acc v H Hacc; [by injection H as <-|].
  destruct (digit_val c) as [d|] eqn:Hd; [|done].
  apply digit_val_range in Hd. eapply IH; [done|lia].
Qed.

Lemma Atoi_inInt s n : Atoi s = Some n -> inInt n.
Proof.
  unfold Atoi. destruct s as [|c r]; [done|].
  cbv zeta. destruct (if orb _ _ then r else _) as [|c' r']; [done|].
  destruct (parse_digits _ 0) as [un|] eqn:Hp; [|done].
  apply parse_digits_nonneg in Hp; [|lia].
  unfold inInt, minInt, maxInt.
  destruct (Ascii.eqb c "-").
  - destruct (Z.leb_spec un (2 ^ 63)); [|done]. intros [= <-]. lia.
  - destruct (Z.ltb_spec un (2 ^ 63)); [|done]. intros [= <-]. lia.
Qed.

End StringFacts.

(** ** The dice loop *)

Section DiceFacts.
Variable rand_Int : nat -> Z -> Z.
Hypothesis rand_Int_range : entropy_ok rand_Int.

Lemma draws_length sides i n : length (draws rand_Int sides i n) = n.
Proof. unfold draws. by rewrite length_map, length_seq. Qed.

Lemma draws_range sides i n :
  0 < sides -> Forall (fun r => 1 <= r <= sides) (draws rand_Int sides i n).
Proof.
  intros Hs. unfold draws. apply Forall_map, Forall_forall. intros j _. simpl.
  specialize (rand_Int_range j sides Hs). lia.
Qed.

Lemma rollLoop_spec sides n : forall i done total,
  0 < sides <= maxInt -> length done = i -> inInt total ->
  rollLoop rand_Int n i sides (done ++ replicate n 0) total
  = Ok (done ++ draws rand_Int sides i n, wrap64 (total + sumZ (draws rand_Int sides i n))).
Proof.
  induction n as [|n IH]; intros i done total Hs Hlen Ht.
  - simpl. unfold draws. simpl. rewrite Z.add_0_r, wrap64_id by done. done.
  - cbn [rollLoop replicate]. unfold randInt.
    destruct (Z.leb_spec sides 0) as [?|_]; [lia|]. cbn [mbind exec_bind].
    case_decide as Hi; [|rewrite length_app in Hi; simpl in Hi; lia].
    pose proof (rand_Int_range i sides ltac:(lia)) as Hr.
    assert (Hr1 : int_add (rand_Int i sides) 1 = rand_Int i sides + 1).
    { apply wrap64_id. unfold inInt, minInt, maxInt in *. lia. }
    rewrite Hr1.
    assert (Hins : <[i:=rand_Int i sides + 1]> (done ++ 0 :: replicate n 0)
                   = (done ++ [rand_Int i sides + 1]) ++ replicate n 0).
    { rewrite <- Hlen, <- (Nat.add_0_r (length done)), insert_app_r. simpl.
      by rewrite <- app_assoc. }
    rewrite Hins.
    assert (Hlk : ((done ++ [rand_Int i sides + 1]) ++ replicate n 0) !! i
                  = Some (rand_Int i sides + 1)).
    { rewrite <- app_assoc. rewrite <- Hlen. apply list_lookup_middle. done. }
    rewrite Hlk. cbn [default].
    rewrite IH; [|done| rewrite length_app; simpl; lia | apply wrap64_inInt].
    unfold int_add. rewrite wrap64_add_l.
    unfold draws. cbn [seq map sumZ]. rewrite <- app_assoc. simpl.
    do 3 f_equal. lia.
Qed.

Lemma rollAll_spec count sides :
  1 <= count <= maxLen -> 0 < sides <= maxInt ->
  rollAll rand_Int count sides
  = Ok (draws rand_Int sides 0 (Z.to_nat count),
        wrap64 (sumZ (draws rand_Int sides 0 (Z.to_nat count)))).
Proof.
  intros Hc Hs. unfold rollAll. rewrite make_ints_ok by lia. cbn [mbind exec_bind].
  change (replicate (Z.to_nat count) 0) with ([] ++ replicate (Z.to_nat count) 0).
  by rewrite (rollLoop_spec sides (Z.to_nat count) 0%nat [] 0).
Qed.

(** A count the run time refuses: [make] panics before any die is rolled. *)
Lemma rollAll_too_long count sides :
  maxLen < count -> rollAll rand_Int count sides = Panic MakeSliceLenOutOfRange.
Proof. intros Hc. unfold rollAll. by rewrite make_ints_too_long. Qed.

Lemma dice_law_draws count sides modifier ret :
  1 <= count -> 0 < sides ->
  dice_law (Rolled count sides modifier (draws rand_Int sides 0 (Z.to_nat count))
              (int_add (wrap64 (sumZ (draws rand_Int sides 0 (Z.to_nat count)))) modifier) ret).
Proof.
  intros Hc Hs. unfold dice_law.
  assert (Ht : int_add (wrap64 (sumZ (draws rand_Int sides 0 (Z.to_nat count)))) modifier
               = wrap64 (sumZ (draws rand_Int sides 0 (Z.to_nat count)) + modifier))
    by apply wrap64_add_l.
  rewrite Ht. repeat split.
  - rewrite draws_length. lia.
  - by apply draws_range.
  - intros Hin. by apply wrap64_id.
Qed.

End DiceFacts.

Lemma rollLoop_ext (f g : nat -> Z -> Z) sides n : forall i rolls total,
  (forall j, (i <= j < i + n)%nat -> f j sides = g j sides) ->
  rollLoop f n i sides rolls total = rollLoop g n i sides rolls total.
Proof.
  induction n as [|n IH]; intros i rolls total Hfg; [done|].
  cbn [rollLoop]. unfold randInt. rewrite (Hfg i) by lia.
  destruct (sides <=? 0); [done|]. cbn [mbind exec_bind].
  case_decide; [|done]. apply IH. intros j Hj. apply Hfg. lia.
Qed.

Lemma rollAll_ext (f g : nat -> Z -> Z) count sides :
  (forall j, (j < Z.to_nat count)%nat -> f j sides = g j sides) ->
  rollAll f count sides = rollAll g count sides.
Proof.
  intros Hfg. unfold rollAll. destruct (make_ints count) as [rolls|p]; [|done].
  cbn [mbind exec_bind]. apply rollLoop_ext. intros j Hj. apply Hfg. lia.
Qed.

(** ** The notation form against the grammar *)

(** The end of [rollDice], from [strings.SplitN] on, against the grammar:
    the cases of the two texts around the ['d']. *)
Ltac read_parts :=
  unfold SplitN2, positive_int;
  destruct (cut _ _) as [[c s]|]; [|done];
  destruct (Atoi s) as [sides|]; [|done];
  destruct (Z.leb_spec sides 0), (Z.ltb_spec 0 sides); try lia; [done|];
  (destruct (Atoi c) as [n|];
   [destruct (Z.leb_spec n 0), (Z.ltb_spec 0 n); try lia|]);
  cbn [default from_option id];
  destruct (rollAll _ _ _) as [[rolls total]|]; done.

Section NotationFacts.
Variable rand_Int : nat -> Z -> Z.
Variable mapToLower : string -> string.

Lemma rollDice_blank input :
  TrimSpace (Part000.Notation' input) = EmptyString ->
  Part000.rollDice rand_Int mapToLower input = Panic SliceBoundsOutOfRange.
Proof. intros H. unfold Part000.rollDice. by rewrite H. Qed.

Lemma rollDice_parse input :
  let notation := TrimSpace (Part000.Notation' input) in
  notation <> EmptyString ->
  Part000.rollDice rand_Int mapToLower input =
  match partsOf mapToLower notation with
  | None => Ok (Part000.invalidNotation notation)
  | Some (c, s) =>
      match positive_int s with
      | None => Ok (Part000.invalidNotation notation)
      | Some sides =>
          let count := default 1 (positive_int c) in
          '(rolls, total) ← rollAll rand_Int count sides;
          mret (rolled notation count sides (modifierOf notation) rolls total)
      end
  end.
Proof.
  intros notation Hne. unfold Part000.rollDice. fold notation.
  destruct notation as [|c0 r0] eqn:Hn; [done|]. rewrite <- Hn.
  assert (Hlen : len notation = 1 + len r0) by (rewrite Hn; apply len_String).
  pose proof (len_nonneg r0) as Hr0.
  rewrite slice_from_ok by lia. cbn [mbind exec_bind].
  assert (Hd : drop_bytes (Z.to_nat 1) notation = r0) by by rewrite Hn.
  rewrite Hd.
  unfold partsOf, mainPartOf, modifierOf.
  replace (drop_bytes 1 notation) with r0 by by rewrite Hn.
  destruct (IndexAny_range r0 "+-") as [Hidx|Hidx].
  - rewrite Hidx. cbn [Z.leb Z.compare mbind exec_bind mret exec_ret].
    read_parts.
  - set (idx := IndexAny r0 "+-") in *.
    destruct (Z.leb_spec 0 idx); [|lia].
    destruct (byte_at_ok notation (idx + 1)) as [sg [Hget ->]]; [lia|].
    rewrite slice_from_ok by lia. rewrite slice_to_ok by lia.
    cbn [mbind exec_bind mret exec_ret].
    replace (idx + 1 + 1) with (idx + 2) by lia. rewrite Hget.
    replace (if Ascii.eqb sg "-" then -1 else 1)
      with (match sg with "-"%char => -1 | _ => 1 end).
    2:{ destruct (Ascii.eqb_spec sg "-") as [->|Hsg]; [done|].
        destruct sg as [[] [] [] [] [] [] [] []]; try done. }
    read_parts.
Qed.

Lemma positive_int_range s n : positive_int s = Some n -> 0 < n <= maxInt.
Proof.
  unfold positive_int. destruct (Atoi s) as [m|] eqn:Hm; [|done].
  apply Atoi_inInt in Hm. destruct (Z.ltb_spec 0 m); [|done].
  intros [= <-]. unfold inInt in Hm. lia.
Qed.

Lemma partsOf_nonempty notation c s :
  partsOf mapToLower notation = Some (c, s) -> notation <> EmptyString.
Proof. by intros H ->. Qed.

End NotationFacts.

Lemma zero_entropy_ok : entropy_ok zero_entropy.
Proof. intros i max H. unfold zero_entropy. lia. Defined.

(** ** Printing and reading back a dice expression *)

Section NumeralFacts.

Lemma parse_string_of_uint d : forall acc,
  parse_digits (NilEmpty.string_of_uint d) acc = Some (uint_val d acc).
Proof. induction d; intros acc; simpl; try done; apply IHd. Qed.

Lemma uint_val_acc d : forall p, uint_val d (Z.pos p) = Z.pos (Pos.of_uint_acc d p).
Proof.
  induction d; intros p; simpl; try done;
    match goal with
    | |- uint_val _ ?a = Z.pos (Pos.of_uint_acc _ ?q) =>
        replace a with (Z.pos q) by lia; apply IHd
    end.
Qed.

Lemma uint_val_0 d : uint_val d 0 = Z.of_N (Pos.of_uint d).
Proof.
  induction d; simpl; try done; rewrite <- uint_val_acc; f_equal.
Qed.

Lemma all_digits_string_of_uint d : all_digits (NilEmpty.string_of_uint d) = true.
Proof. induction d; simpl; done. Qed.

Lemma string_of_uint_nonempty d : d <> Decimal.Nil -> NilEmpty.string_of_uint d <> EmptyString.
Proof. by destruct d. Qed.

Lemma NilZero_string_of_uint d :
  d <> Decimal.Nil -> NilZero.string_of_uint d = NilEmpty.string_of_uint d.
Proof. by destruct d. Qed.

Lemma numeral_pos p : numeral (NilEmpty.string_of_uint (Pos.to_uint p)) (Z.pos p).
Proof.
  split; [apply string_of_uint_nonempty, DecimalPos.Unsigned.to_uint_nonnil|].
  split; [apply all_digits_string_of_uint|].
  rewrite parse_string_of_uint, uint_val_0, DecimalPos.Unsigned.of_to. done.
Qed.

Lemma fmt_d_pos p : fmt_d (Z.pos p) = NilEmpty.string_of_uint (Pos.to_uint p).
Proof.
  unfold fmt_d. simpl. apply NilZero_string_of_uint, DecimalPos.Unsigned.to_uint_nonnil.
Qed.

Lemma fmt_d_neg p : fmt_d (Z.neg p) = String "-" (NilEmpty.string_of_uint (Pos.to_uint p)).
Proof.
  unfold fmt_d. simpl. f_equal.
  apply NilZero_string_of_uint, DecimalPos.Unsigned.to_uint_nonnil.
Qed.

Lemma fmt_d_numeral z : 0 <= z -> numeral (fmt_d z) z.
Proof.
  destruct z as [|p|p]; intros Hz; [done | | lia].
  rewrite fmt_d_pos. apply numeral_pos.
Qed.

End NumeralFacts.

Section ByteFacts.

Lemma isScanDigit_range c : isScanDigit c = true -> 48 <= byte_val c <= 57.
Proof.
  unfold isScanDigit, digit_val. cbv zeta.
  destruct (andb _ _) eqn:E; [|done]. intros _.
  apply andb_true_iff in E as [?%Z.leb_le ?%Z.leb_le]. lia.
Qed.

Lemma byte_val_neq c (k : ascii) : byte_val c <> byte_val k -> Ascii.eqb c k = false.
Proof. intros H. destruct (Ascii.eqb_spec c k) as [->|]; done. Qed.

Lemma plain_byte_range c :
  plain_byte c = true -> 48 <= byte_val c <= 57 \/ byte_val c = 100.
Proof.
  unfold plain_byte. intros [H|H]%orb_true_iff.
  - left. by apply isScanDigit_range.
  - right. by apply Ascii.eqb_eq in H as ->.
Qed.

Lemma plain_not_space c : plain_byte c = true -> asciiSpace c = false.
Proof. intros H%plain_byte_range. unfold asciiSpace. cbv zeta. lia. Qed.

Lemma plain_not_lead2 c c' : plain_byte c = true -> space2 c c' = false.
Proof. intros H%plain_byte_range. unfold space2. lia. Qed.

Lemma plain_not_lead3 c c' c'' : plain_byte c = true -> space3 c c' c'' = false.
Proof. intros H%plain_byte_range. unfold space3. cbv zeta. lia. Qed.

Lemma plain_not_tail2 c c' : plain_byte c = true -> space2 c' c = false.
Proof. intros H%plain_byte_range. unfold space2. lia. Qed.

Lemma plain_not_tail3 c c' c'' : plain_byte c = true -> space3 c'' c' c = false.
Proof. intros H%plain_byte_range. unfold space3. cbv zeta. lia. Qed.

Lemma plain_not_sign c : plain_byte c = true -> byte_in c "+-" = false.
Proof.
  intros H%plain_byte_range. unfold byte_in. simpl.
  rewrite !byte_val_neq; [done| |]; vm_compute byte_val at 2; lia.
Qed.

Lemma plain_lower c : plain_byte c = true -> lower_byte c = c.
Proof.
  intros H%plain_byte_range. unfold lower_byte. cbv zeta.
  destruct (andb _ _) eqn:E; [|done]. lia.
Qed.

Lemma plain_ascii c : plain_byte c = true -> (byte_val c <? 128) = true.
Proof. intros H%plain_byte_range. lia. Qed.

Lemma digit_not_d c : isScanDigit c = true -> Ascii.eqb c "d" = false.
Proof.
  intros H%isScanDigit_range. apply byte_val_neq. vm_compute byte_val at 2. lia.
Qed.

Lemma digit_not_nl c : isScanDigit c = true -> Ascii.eqb c "010" = false.
Proof.
  intros H%isScanDigit_range. apply byte_val_neq. vm_compute byte_val at 2. lia.
Qed.

Lemma digit_not_sign c :
  isScanDigit c = true -> Ascii.eqb c "-" = false /\ Ascii.eqb c "+" = false.
Proof.
  intros H%isScanDigit_range.
  split; apply byte_val_neq; vm_compute byte_val at 2; lia.
Qed.

Lemma digit_plain c : isScanDigit c = true -> plain_byte c = true.
Proof. unfold plain_byte. by intros ->. Qed.

End ByteFacts.
Section PlainStrings.

Lemma append_String c r b : String c r +:+ b = String c (r +:+ b).
Proof. reflexivity. Qed.

Lemma append_Empty b : EmptyString +:+ b = b.
Proof. reflexivity. Qed.

Lemma all_digits_plain s : all_digits s = true -> all_plain s = true.
Proof.
  induction s as [|c r IH]; simpl; [done|].
  intros [Hc Hr]%andb_true_iff. by rewrite digit_plain, IH.
Qed.

Lemma all_plain_app a b : all_plain (a +:+ b) = all_plain a && all_plain b.
Proof.
  induction a as [|c r IH]; [done|]. rewrite append_String. cbn [all_plain].
  by rewrite IH, andb_assoc.
Qed.

Lemma length_app a b :
  String.length (a +:+ b) = (String.length a + String.length b)%nat.
Proof. induction a as [|c r IH]; [done|]. rewrite append_String. simpl. by rewrite IH. Qed.

Lemma drop_bytes_app a b : drop_bytes (String.length a) (a +:+ b) = b.
Proof. induction a as [|c r IH]; [done|]. rewrite append_String. apply IH. Qed.

Lemma take_bytes_app a b : take_bytes (String.length a) (a +:+ b) = a.
Proof.
  induction a as [|c r IH]; [by destruct b|].
  rewrite append_String. simpl. by rewrite IH.
Qed.

Lemma get_app a c r : String.get (String.length a) (a +:+ String c r) = Some c.
Proof. induction a as [|c' r' IH]; [done|]. rewrite append_String. apply IH. Qed.

Lemma indexAny_plain a : forall b i,
  all_plain a = true ->
  indexAny_from (a +:+ b) "+-" i = indexAny_from b "+-" (i + len a).
Proof.
  induction a as [|c r IH]; intros b i Ha.
  - rewrite append_Empty. f_equal. unfold len. simpl. lia.
  - simpl in Ha. apply andb_true_iff in Ha as [Hc Hr].
    rewrite append_String. cbn [indexAny_from].
    rewrite plain_not_sign by done. rewrite IH by done.
    f_equal. rewrite len_String. lia.
Qed.

Lemma indexAny_plain_none a i : all_plain a = true -> indexAny_from a "+-" i = -1.
Proof.
  revert i. induction a as [|c r IH]; intros i Ha; simpl; [done|].
  simpl in Ha. apply andb_true_iff in Ha as [Hc Hr].
  rewrite plain_not_sign by done. by apply IH.
Qed.

Lemma cut_digits a b : all_digits a = true -> cut (a +:+ String "d" b) "d" = Some (a, b).
Proof.
  induction a as [|c r IH]; [done|]. simpl all_digits.
  intros [Hc Hr]%andb_true_iff. rewrite append_String. cbn [cut].
  rewrite digit_not_d by done. by rewrite IH.
Qed.

Lemma isASCII_plain s : all_plain s = true -> isASCII s = true.
Proof.
  induction s as [|c r IH]; simpl; [done|].
  intros [Hc Hr]%andb_true_iff. by rewrite plain_ascii, IH.
Qed.

Lemma lower_bytes_plain s : all_plain s = true -> lower_bytes s = s.
Proof.
  induction s as [|c r IH]; simpl; [done|].
  intros [Hc Hr]%andb_true_iff. by rewrite plain_lower, IH.
Qed.

Lemma ToLower_plain mapToLower s : all_plain s = true -> ToLower mapToLower s = s.
Proof. intros H. unfold ToLower. by rewrite isASCII_plain, lower_bytes_plain. Qed.

Lemma trimLeft_plain c r : plain_byte c = true -> trimLeft (String c r) = String c r.
Proof.
  intros Hc. cbn [trimLeft]. rewrite plain_not_space by done.
  destruct r as [|c1 [|c2 r2]]; [done| |].
  - by rewrite plain_not_lead2.
  - by rewrite plain_not_lead2, plain_not_lead3.
Qed.

Lemma trimLeft_rev_plain c r : plain_byte c = true -> trimLeft_rev (String c r) = String c r.
Proof.
  intros Hc. cbn [trimLeft_rev]. rewrite plain_not_space by done.
  destruct r as [|c1 [|c2 r2]]; [done| |].
  - by rewrite plain_not_tail2.
  - by rewrite plain_not_tail2, plain_not_tail3.
Qed.

Lemma rev_onto_app s : forall acc, rev_onto s acc = rev_bytes s +:+ acc.
Proof.
  unfold rev_bytes. induction s as [|c r IH]; intros acc; [done|].
  cbn [rev_onto]. rewrite IH, (IH (String c EmptyString)).
  clear IH. induction (rev_onto r EmptyString) as [|c' r' IH']; [done|].
  by rewrite !append_String, IH'.
Qed.

Lemma app_empty_r s : s +:+ EmptyString = s.
Proof. induction s as [|c r IH]; [done|]. by rewrite append_String, IH. Qed.

Lemma string_app_assoc a b c : (a +:+ b) +:+ c = a +:+ (b +:+ c).
Proof. induction a as [|x r IH]; [done|]. by rewrite !append_String, IH. Qed.

Lemma rev_bytes_String c r : rev_bytes (String c r) = rev_bytes r +:+ String c EmptyString.
Proof. unfold rev_bytes at 1. cbn [rev_onto]. apply rev_onto_app. Qed.

Lemma rev_bytes_app a b : rev_bytes (a +:+ b) = rev_bytes b +:+ rev_bytes a.
Proof.
  induction a as [|c r IH].
  - by rewrite append_Empty, app_empty_r.
  - by rewrite append_String, !rev_bytes_String, IH, string_app_assoc.
Qed.

Lemma rev_bytes_involutive s : rev_bytes (rev_bytes s) = s.
Proof.
  induction s as [|c r IH]; [done|].
  by rewrite rev_bytes_String, rev_bytes_app, IH.
Qed.

(** A string that ends with a plain byte. *)
Lemma rev_bytes_ends a c :
  exists r, rev_bytes (a +:+ String c EmptyString) = String c r.
Proof. exists (rev_bytes a). by rewrite rev_bytes_app. Qed.

Lemma all_digits_last s :
  s <> EmptyString -> all_digits s = true ->
  exists a c, s = a +:+ String c EmptyString /\ isScanDigit c = true.
Proof.
  induction s as [|c r IH]; [done|]. intros _ [Hc Hr]%andb_true_iff.
  destruct r as [|c' r'].
  - by exists EmptyString, c.
  - destruct IH as (a & l & Ha & Hl); [done|done|].
    exists (String c a), l. split; [|done]. by rewrite append_String, <- Ha.
Qed.

Lemma all_plain_last s :
  s <> EmptyString -> all_plain s = true ->
  exists a c, s = a +:+ String c EmptyString /\ plain_byte c = true.
Proof.
  induction s as [|c r IH]; [done|]. intros _ [Hc Hr]%andb_true_iff.
  destruct r as [|c' r'].
  - by exists EmptyString, c.
  - destruct IH as (a & l & Ha & Hl); [done|done|].
    exists (String c a), l. split; [|done]. by rewrite append_String, <- Ha.
Qed.

Lemma TrimSpace_plain c r a l :
  plain_byte c = true -> plain_byte l = true ->
  String c r = a +:+ String l EmptyString ->
  TrimSpace (String c r) = String c r.
Proof.
  intros Hc Hl Heq. unfold TrimSpace. rewrite trimLeft_plain by done.
  unfold trimRight. rewrite Heq. destruct (rev_bytes_ends a l) as [r' Hr].
  rewrite Hr, trimLeft_rev_plain by done. by rewrite <- Hr, rev_bytes_involutive.
Qed.

Lemma takeScanDigits_all s : all_digits s = true -> takeScanDigits s = s.
Proof.
  induction s as [|c r IH]; simpl; [done|].
  intros [Hc Hr]%andb_true_iff. by rewrite Hc, IH.
Qed.

Lemma Atoi_numeral s z : numeral s z -> z <= maxInt -> Atoi s = Some z.
Proof.
  intros (Hne & Hd & Hp) Hz. destruct s as [|c r]; [done|].
  simpl in Hd. apply andb_true_iff in Hd as [Hc Hr].
  unfold Atoi. cbv zeta. destruct (digit_not_sign c Hc) as [-> ->]. cbn [orb].
  rewrite Hp. unfold maxInt in Hz. destruct (Z.ltb_spec z (2 ^ 63)); [done|lia].
Qed.

Lemma Sscanf_d_numeral s z : numeral s z -> z <= maxInt -> Sscanf_d s = Some z.
Proof.
  intros Hn Hz. pose proof (Atoi_numeral s z Hn Hz) as Ha.
  destruct Hn as (Hne & Hd & Hp). destruct s as [|c r]; [done|].
  pose proof Hd as Hd'. simpl in Hd. apply andb_true_iff in Hd as [Hc Hr].
  assert (Hs : skipSpace (String c r) = Some (String c r)).
  { cbn [skipSpace]. rewrite digit_not_nl, plain_not_space by auto using digit_plain.
    destruct r as [|c1 [|c2 r2]]; [done| |].
    - by rewrite plain_not_lead2 by auto using digit_plain.
    - by rewrite plain_not_lead2, plain_not_lead3 by auto using digit_plain. }
  unfold Sscanf_d. rewrite Hs. destruct (digit_not_sign c Hc) as [-> ->]. cbn [orb].
  rewrite takeScanDigits_all by done. done.
Qed.

Lemma positive_int_numeral s z : numeral s z -> 1 <= z <= maxInt -> positive_int s = Some z.
Proof.
  intros Hn Hz. unfold positive_int. rewrite (Atoi_numeral s z) by (done || lia).
  destruct (Z.ltb_spec 0 z); [done|lia].
Qed.

End PlainStrings.
Section CanonicalNotation.
Variable mapToLower : string -> string.

Lemma modifier_text m :
  m <> 0 -> - maxInt <= m <= maxInt ->
  exists sg D,
    fmt_plus_d m = String sg D /\ numeral D (Z.abs m)
    /\ ((sg = "+"%char /\ 0 < m) \/ (sg = "-"%char /\ m < 0)).
Proof.
  intros Hm Hr. unfold fmt_plus_d. destruct m as [|p|p]; [done| |].
  - exists "+"%char, (fmt_d (Z.pos p)). split; [done|].
    split; [apply fmt_d_numeral; lia | left; split; [done|lia]].
  - exists "-"%char, (NilEmpty.string_of_uint (Pos.to_uint p)).
    split; [by rewrite fmt_d_neg|]. split; [apply numeral_pos | right; split; [done|lia]].
Qed.

Lemma main_text ct st :
  all_digits ct = true -> all_digits st = true ->
  exists c0 r0,
    ct +:+ String "d" st = String c0 r0
    /\ plain_byte c0 = true /\ all_plain r0 = true.
Proof.
  intros Hd Hd'.
  assert (Hp : all_plain (ct +:+ String "d" st) = true).
  { rewrite all_plain_app. cbn [all_plain]. rewrite !all_digits_plain by done. done. }
  destruct ct as [|c0 r].
  - rewrite append_Empty in *. exists "d"%char, st. by rewrite all_digits_plain.
  - rewrite append_String in *. exists c0, (r +:+ String "d" st).
    cbn [all_plain] in Hp. apply andb_true_iff in Hp as [? ?]. done.
Qed.

Lemma notation_text_reads ct st modifier :
  all_digits ct = true -> all_digits st = true -> - maxInt <= modifier <= maxInt ->
  let notation := notation_text ct st modifier in
  TrimSpace notation = notation
  /\ partsOf mapToLower notation = Some (ct, st)
  /\ modifierOf notation = modifier.
Proof.
  intros Hct Hst Hm notation.
  destruct (main_text ct st Hct Hst) as (c0 & r0 & Hmain & Hc0 & Hr0).
  assert (Hplain : all_plain (String c0 r0) = true) by (cbn [all_plain]; by rewrite Hc0, Hr0).
  assert (Hcut : cut (String c0 r0) "d" = Some (ct, st)).
  { rewrite <- Hmain. by apply cut_digits. }
  assert (Hnot : notation
                 = String c0 r0 +:+ (if modifier =? 0 then EmptyString else fmt_plus_d modifier)).
  { unfold notation, notation_text. rewrite <- Hmain.
    by rewrite string_app_assoc, append_String, append_Empty. }
  split; [|split].
  all: rewrite Hnot; clear Hnot notation.
  all: destruct (Z.eqb_spec modifier 0) as [->|Hm0].
  - (* no modifier: the notation ends with a digit of the sides or with the [d] *)
    rewrite app_empty_r.
    destruct (all_plain_last (String c0 r0)) as (a & l & Ha & Hl); [done|done|].
    by eapply (TrimSpace_plain c0 r0 a l).
  - destruct (modifier_text modifier Hm0 Hm) as (sg & D & -> & (Hne & Hd & _) & _).
    destruct (all_digits_last _ Hne Hd) as (a & l & Ha & Hl).
    rewrite append_String.
    eapply (TrimSpace_plain c0 _ (String c0 r0 +:+ String sg a) l);
      [done | by apply digit_plain |].
    by rewrite Ha, string_app_assoc, !append_String.
  - rewrite app_empty_r. unfold partsOf, mainPartOf. cbn [drop_bytes].
    unfold IndexAny. rewrite indexAny_plain_none by done. cbn [Z.leb Z.compare].
    by rewrite ToLower_plain.
  - destruct (modifier_text modifier Hm0 Hm) as (sg & D & -> & _ & Hsg).
    unfold partsOf, mainPartOf. rewrite append_String. cbn [drop_bytes].
    unfold IndexAny. rewrite indexAny_plain by done. cbn [indexAny_from].
    replace (byte_in sg "+-") with true by (by destruct Hsg as [[-> _]|[-> _]]).
    pose proof (len_nonneg r0). destruct (Z.leb_spec 0 (0 + len r0)); [|lia].
    replace (Z.to_nat (0 + len r0 + 1)) with (String.length (String c0 r0))
      by (unfold len; simpl; lia).
    rewrite <- append_String, take_bytes_app. by rewrite ToLower_plain.
  - rewrite app_empty_r. unfold modifierOf. cbn [drop_bytes].
    unfold IndexAny. by rewrite indexAny_plain_none.
  - destruct (modifier_text modifier Hm0 Hm) as (sg & D & -> & Hn & Hsg).
    unfold modifierOf. rewrite append_String. cbn [drop_bytes].
    unfold IndexAny. rewrite indexAny_plain by done. cbn [indexAny_from].
    replace (byte_in sg "+-") with true by (by destruct Hsg as [[-> _]|[-> _]]).
    pose proof (len_nonneg r0). destruct (Z.leb_spec 0 (0 + len r0)); [|lia].
    replace (Z.to_nat (0 + len r0 + 1)) with (String.length (String c0 r0))
      by (unfold len; simpl; lia).
    replace (Z.to_nat (0 + len r0 + 2))
      with (String.length (String c0 r0 +:+ String sg EmptyString)).
    2:{ rewrite length_app. unfold len. simpl. lia. }
    rewrite <- append_String, get_app.
    replace (String c0 r0 +:+ String sg D)
      with ((String c0 r0 +:+ String sg EmptyString) +:+ D)
      by (by rewrite string_app_assoc).
    rewrite drop_bytes_app.
    rewrite (Sscanf_d_numeral D (Z.abs modifier)) by (done || lia). cbn [default].
    unfold int_mul.
    destruct Hsg as [[-> Hpos]|[-> Hneg]]; cbv iota; rewrite wrap64_id;
      unfold inInt, minInt, maxInt, id in *; lia.
Qed.

Lemma canonical_reads count sides modifier :
  1 <= count <= maxInt -> 1 <= sides <= maxInt -> - maxInt <= modifier <= maxInt ->
  let notation := canonical count sides modifier in
  TrimSpace notation = notation
  /\ partsOf mapToLower notation = Some (fmt_d count, fmt_d sides)
  /\ positive_int (fmt_d count) = Some count
  /\ positive_int (fmt_d sides) = Some sides
  /\ modifierOf notation = modifier.
Proof.
  intros Hc Hs Hm notation.
  pose proof (fmt_d_numeral count ltac:(lia)) as Hnc.
  pose proof (fmt_d_numeral sides ltac:(lia)) as Hns.
  destruct (notation_text_reads (fmt_d count) (fmt_d sides) modifier) as (Ht & Hp & Hmod);
    [by destruct Hnc as (_ & ? & _) | by destruct Hns as (_ & ? & _) | done |].
  repeat split; try done; by apply positive_int_numeral.
Qed.

End CanonicalNotation.

(** ** The player gate *)

Section GateFacts.
Variable opts : list string.

Lemma printOptions_pending os : forall i c,
  Main.pending (Main.printOptions i os c) = Main.pending c.
Proof. induction os as [|o os IH]; intros i c; simpl; [done|]. by rewrite IH. Qed.

Lemma option_at_ok choice :
  1 <= choice <= offered opts ->
  exists chosen,
    opts !! Z.to_nat (choice - 1) = Some chosen /\ Main.option_at opts (choice - 1) = Ok chosen.
Proof.
  intros Hc. unfold Main.option_at. fold (offered opts).
  destruct (lookup_lt_is_Some_2 opts (Z.to_nat (choice - 1))) as [chosen Hl];
    [unfold offered in *; lia|].
  exists chosen. split; [done|]. rewrite Hl.
  destruct (Z.leb_spec 0 (choice - 1)); [|lia].
  destruct (Z.ltb_spec (choice - 1) (offered opts)); [done|lia].
Qed.

Lemma askLoop_closed out :
  Main.askLoop opts [] out
  = Ok (Main.playerLeft,
        {| Main.pending := []; Main.printed := out ++ [Main.choosePrompt (offered opts)] |}).
Proof. done. Qed.

Lemma askLoop_accept line rest out choice :
  Atoi (TrimSpace line) = Some choice -> 1 <= choice <= offered opts ->
  exists chosen,
    opts !! Z.to_nat (choice - 1) = Some chosen
    /\ Main.askLoop opts (line :: rest) out
       = Ok (Main.playerChose chosen,
             {| Main.pending := rest;
                Main.printed := out ++ [Main.choosePrompt (offered opts); echo chosen] |}).
Proof.
  intros Ha Hc. destruct (option_at_ok choice Hc) as (chosen & Hl & Hat).
  exists chosen. split; [done|]. cbn [Main.askLoop]. fold (offered opts). rewrite Ha.
  destruct (Z.ltb_spec choice 1); [lia|]. destruct (Z.ltb_spec (offered opts) choice); [lia|].
  cbn [orb]. rewrite Hat. cbn [mbind exec_bind mret exec_ret].
  unfold echo. by rewrite <- app_assoc.
Qed.

Lemma askLoop_reject line rest out :
  rejected (offered opts) line ->
  Main.askLoop opts (line :: rest) out
  = Main.askLoop opts rest
      (out ++ [Main.choosePrompt (offered opts); Main.pickMessage (offered opts)]).
Proof.
  unfold rejected. intros Hr. cbn [Main.askLoop]. fold (offered opts).
  rewrite <- (app_assoc out [Main.choosePrompt (offered opts)] [Main.pickMessage (offered opts)]).
  destruct (Atoi (TrimSpace line)) as [choice|]; [|done].
  destruct (Z.ltb_spec choice 1); [done|]. destruct (Z.ltb_spec (offered opts) choice); [done|lia].
Qed.

Lemma askLoop_all_rejected lines : forall out,
  Forall (rejected (offered opts)) lines ->
  Main.askLoop opts lines out
  = Ok (Main.playerLeft,
        {| Main.pending := [];
           Main.printed :=
             out
             ++ concat (map (fun _ => [Main.choosePrompt (offered opts);
                                       Main.pickMessage (offered opts)]) lines)
             ++ [Main.choosePrompt (offered opts)] |}).
Proof.
  induction lines as [|line rest IH]; intros out Hall; [done|].
  inversion Hall as [|? ? Hline Hrest]; subst.
  rewrite askLoop_reject by done. rewrite IH by done.
  cbn [map concat]. by rewrite <- !app_assoc.
Qed.

(** The loop always answers, and what it prints starts with the prompt. *)
Lemma askLoop_prompts lines : forall out,
  exists r c,
    Main.askLoop opts lines out = Ok (r, c)
    /\ (out ++ [Main.choosePrompt (offered opts)]) `prefix_of` Main.printed c.
Proof.
  induction lines as [|line rest IH]; intros out.
  - eexists _, _. split; [apply askLoop_closed | done].
  - destruct (Atoi (TrimSpace line)) as [choice|] eqn:Ha.
    + destruct (decide (1 <= choice <= offered opts)) as [Hc|Hc].
      * destruct (askLoop_accept line rest out choice Ha Hc) as (chosen & _ & ->).
        eexists _, _. split; [done|]. cbn [Main.printed].
        exists [echo chosen]. by rewrite <- app_assoc.
      * rewrite askLoop_reject by (unfold rejected; rewrite Ha; lia).
        destruct (IH (out ++ [Main.choosePrompt (offered opts);
                              Main.pickMessage (offered opts)])) as (r & c & -> & Hp).
        eexists _, _. split; [done|]. etrans; [|exact Hp].
        exists [Main.pickMessage (offered opts); Main.choosePrompt (offered opts)].
        by rewrite <- !app_assoc.
    + rewrite askLoop_reject by (unfold rejected; by rewrite Ha).
      destruct (IH (out ++ [Main.choosePrompt (offered opts);
                            Main.pickMessage (offered opts)])) as (r & c & -> & Hp).
      eexists _, _. split; [done|]. etrans; [|exact Hp].
      exists [Main.pickMessage (offered opts); Main.choosePrompt (offered opts)].
      by rewrite <- !app_assoc.
Qed.

End GateFacts.

Lemma askPlayer_askLoop input c :
  Main.askPlayer input c = Main.askLoop (Main.Options input) (Main.pending c) (announced input c).
Proof.
  unfold Main.askPlayer, announced, turnBanner. by rewrite printOptions_pending.
Qed.

Lemma rejected_without_options line : rejected 0 line.
Proof. unfold rejected. destruct (Atoi _); [lia|done]. Qed.

(** ** The lookups *)

Section LookupFacts.
Variable mapToLower : string -> string.
Variable http_Get : string -> option Main.Response.
Variable json_Unmarshal : string -> list (string * any).
Variable Sprint_v Sprint_s : any -> string.

Lemma formatAC_placeholder ac : ~ ac_shaped ac -> Main.formatAC Sprint_v ac = "?"%string.
Proof.
  unfold ac_shaped, Main.formatAC. intros H.
  destruct ac as [| | | |[|[] ?]|]; done.
Qed.

Lemma formatAC_absent m :
  map_index m "armor_class" = ANil ->
  Main.formatAC Sprint_v (map_index m "armor_class") = "?"%string.
Proof. by intros ->. Qed.

Lemma appendEntries_maps l : forall summary,
  all_maps l -> exists s, Main.appendEntries Sprint_s l summary = Ok s.
Proof.
  induction l as [|a l IH]; intros summary Hall; [by eexists|].
  inversion Hall as [|? ? Ha Hl]; subst. destruct a; try done.
  cbn [Main.appendEntries]. by apply IH.
Qed.

Lemma appendEntries_not_map l1 a l2 : forall summary,
  all_maps l1 -> match a with AMap _ => False | _ => True end ->
  Main.appendEntries Sprint_s (l1 ++ a :: l2) summary = Panic InterfaceConversion.
Proof.
  induction l1 as [|b l1 IH]; intros summary Hall Ha.
  - by destruct a.
  - inversion Hall as [|? ? Hb Hl]; subst. destruct b; try done.
    cbn [app Main.appendEntries]. by apply IH.
Qed.

Lemma lookupMonster_unreachable name :
  http_Get (monsterURL mapToLower name) = None ->
  Main.lookupMonster mapToLower http_Get json_Unmarshal Sprint_v Sprint_s {| Main.Name := name |}
  = Ok (NewTextResponse "Failed to reach D&D API", None).
Proof.
  unfold monsterURL, slug. intros H. unfold Main.lookupMonster. cbn [Main.Name]. by rewrite H.
Qed.

Lemma lookupMonster_not_found name resp :
  http_Get (monsterURL mapToLower name) = Some resp -> Main.StatusCode resp <> 200 ->
  Main.lookupMonster mapToLower http_Get json_Unmarshal Sprint_v Sprint_s {| Main.Name := name |}
  = Ok (NewTextResponse ("Monster '" +:+ name +:+ "' not found"), None).
Proof.
  unfold monsterURL, slug. intros H Hs. unfold Main.lookupMonster. cbn [Main.Name]. rewrite H.
  by destruct (Z.eqb_spec (Main.StatusCode resp) 200).
Qed.

Lemma lookupSpell_unreachable name :
  http_Get (spellURL mapToLower name) = None ->
  Main.lookupSpell mapToLower http_Get json_Unmarshal Sprint_v Sprint_s {| Main.Name' := name |}
  = Ok (NewTextResponse "Failed to reach D&D API", None).
Proof.
  unfold spellURL, slug. intros H. unfold Main.lookupSpell. cbn [Main.Name']. by rewrite H.
Qed.

Lemma lookupSpell_not_found name resp :
  http_Get (spellURL mapToLower name) = Some resp -> Main.StatusCode resp <> 200 ->
  Main.lookupSpell mapToLower http_Get json_Unmarshal Sprint_v Sprint_s {| Main.Name' := name |}
  = Ok (NewTextResponse ("Spell '" +:+ name +:+ "' not found"), None).
Proof.
  unfold spellURL, slug. intros H Hs. unfold Main.lookupSpell. cbn [Main.Name']. rewrite H.
  by destruct (Z.eqb_spec (Main.StatusCode resp) 200).
Qed.

(** [lookupMonster] panics as soon as its [actions] list holds something that
    is not a map. *)
Lemma lookupMonster_panics input resp l1 a l2 :
  http_Get (monsterURL mapToLower (Main.Name input)) = Some resp ->
  Main.StatusCode resp = 200 ->
  map_index (json_Unmarshal (Main.Body resp)) "actions" = ASlice (l1 ++ a :: l2) ->
  all_maps l1 -> match a with AMap _ => False | _ => True end ->
  Main.lookupMonster mapToLower http_Get json_Unmarshal Sprint_v Sprint_s input
  = Panic InterfaceConversion.
Proof.
  unfold monsterURL, slug. intros H Hs Hm Hall Ha. unfold Main.lookupMonster.
  rewrite H, Hs, Hm. cbn [Z.eqb Pos.eqb negb]. by rewrite appendEntries_not_map.
Qed.

(** [lookupSpell] has no unchecked assertion: it answers whatever it is given. *)
Lemma lookupSpell_total input :
  exists text, Main.lookupSpell mapToLower http_Get json_Unmarshal Sprint_v Sprint_s input
               = Ok (NewTextResponse text, None).
Proof.
  unfold Main.lookupSpell. destruct (http_Get _) as [resp|]; [|by eexists].
  destruct (negb _); by eexists.
Qed.

(** [lookupMonster] answers when the two lists it walks hold maps only. *)
Lemma lookupMonster_total input resp :
  http_Get (monsterURL mapToLower (Main.Name input)) = Some resp ->
  entries_are_maps (json_Unmarshal (Main.Body resp)) ->
  exists text, Main.lookupMonster mapToLower http_Get json_Unmarshal Sprint_v Sprint_s input
               = Ok (NewTextResponse text, None).
Proof.
  unfold monsterURL, slug. intros H [Hact Hab]. unfold Main.lookupMonster. rewrite H.
  destruct (negb _); [by eexists|].
  destruct (map_index (json_Unmarshal (Main.Body resp)) "actions") as [| | | |actions|] eqn:Ea;
    cbn [mbind exec_bind mret exec_ret];
    try (match goal with
         | |- context [Main.appendEntries ?f actions ?s] =>
             destruct (appendEntries_maps actions s) as [s1 ->]; [by apply Hact|]
         end; cbn [mbind exec_bind]);
    (destruct (map_index (json_Unmarshal (Main.Body resp)) "special_abilities")
       as [| | | |abilities|] eqn:Eb;
     try (match goal with
          | |- context [Main.appendEntries ?f abilities ?s] =>
              destruct (appendEntries_maps abilities s) as [s2 ->]; [by apply Hab|]
          end);
     by eexists).
Qed.

End LookupFacts.

Lemma contains_middle pre sub post : contains (pre +:+ sub +:+ post) sub.
Proof. by exists pre, post. Qed.

(** ** The game loop *)

Section LoopFacts.
Variable Stream : nat -> string -> list Message -> Main.streamed.
Variable sigCtx_Err : nat -> option error.

Lemma append_steps steps : forall history,
  fold_left (fun h step => h ++ Messages step) steps history
  = history ++ concat (map Messages steps).
Proof.
  induction steps as [|s steps IH]; intros history; simpl.
  - by rewrite app_nil_r.
  - by rewrite IH, <- app_assoc.
Qed.

Lemma iterate_add a : forall b t history prompt,
  Main.iterate Stream sigCtx_Err (a + b) t history prompt
  = match Main.iterate Stream sigCtx_Err a t history prompt with
    | Main.Running h p => Main.iterate Stream sigCtx_Err b (t + a) h p
    | Main.Returned err => Main.Returned err
    end.
Proof.
  induction a as [|a IH]; intros b t history prompt.
  - simpl. by rewrite Nat.add_0_r.
  - cbn [Nat.add Main.iterate]. destruct (Main.turn _ _ _ _ _) as [h p|err]; [|done].
    rewrite IH. by replace (S t + a)%nat with (t + S a)%nat by lia.
Qed.

Lemma gameLoop_from t n history prompt :
  Main.gameLoop Stream sigCtx_Err t = Main.Running history prompt -> (t <= n)%nat ->
  Main.gameLoop Stream sigCtx_Err n = Main.iterate Stream sigCtx_Err (n - t) t history prompt.
Proof.
  intros Ht Hn. unfold Main.gameLoop in *.
  replace n with (t + (n - t))%nat at 1 by lia. by rewrite iterate_add, Ht.
Qed.

Lemma iterate_prefix n : forall t history prompt h p,
  Main.iterate Stream sigCtx_Err n t history prompt = Main.Running h p ->
  history `prefix_of` h.
Proof.
  induction n as [|n IH]; intros t history prompt h p H.
  - injection H as <- <-. done.
  - cbn [Main.iterate] in H. unfold Main.turn in H.
    destruct (Stream t prompt history) as [result|err].
    + apply IH in H. rewrite append_steps in H.
      etrans; [|exact H]. by apply prefix_app_r.
    + by destruct (sigCtx_Err t).
Qed.

Lemma iterate_prompt n : forall t history h p,
  Main.iterate Stream sigCtx_Err n t history "Continue." = Main.Running h p ->
  p = "Continue."%string.
Proof.
  induction n as [|n IH]; intros t history h p H.
  - by injection H as _ <-.
  - cbn [Main.iterate] in H. unfold Main.turn in H.
    destruct (Stream t _ history); [by eapply IH | by destruct (sigCtx_Err t)].
Qed.

End LoopFacts.

(** ** Further facts: the loop, the rollers, blanks, the gate, the lookups, the grammar *)

Section LoopSteps.
Variable Stream : nat -> string -> list Message -> Main.streamed.
Variable sigCtx_Err : nat -> option error.

(** One more iteration observed is one more [turn], unless the loop has
    returned. *)
Lemma gameLoop_S n :
  Main.gameLoop Stream sigCtx_Err (S n)
  = match Main.gameLoop Stream sigCtx_Err n with
    | Main.Running h p => Main.turn Stream sigCtx_Err n h p
    | Main.Returned err => Main.Returned err
    end.
Proof.
  unfold Main.gameLoop. replace (S n) with (n + 1)%nat by lia.
  rewrite iterate_add. destruct (Main.iterate _ _ n 0 [] "Begin.") as [h p|err]; [|done].
  cbn [Main.iterate Nat.add]. by destruct (Main.turn _ _ _ _ _).
Qed.

Lemma gathered_snoc rs r :
  gathered (rs ++ [r]) = gathered rs ++ concat (map Messages (Steps r)).
Proof. unfold gathered. rewrite map_app, concat_app. simpl. by rewrite app_nil_r. Qed.

End LoopSteps.

Section TrimFacts.

Lemma string_strong_ind (P : string -> Prop) :
  (forall s, (forall t, (String.length t < String.length s)%nat -> P t) -> P s) ->
  forall s, P s.
Proof.
  intros H s. remember (String.length s) as n eqn:Hn.
  revert s Hn. induction (lt_wf n) as [n _ IH]. intros s ->.
  apply H. intros t Ht. by apply (IH (String.length t)).
Qed.

Lemma trimLeft_clean s : lead_blank s = false -> trimLeft s = s.
Proof.
  destruct s as [|c0 [|c1 [|c2 r2]]]; [done| | |]; cbn [lead_blank trimLeft].
  - rewrite orb_false_r. by intros ->.
  - rewrite orb_false_r. by intros [-> ->]%orb_false_iff.
  - by intros [-> [-> ->]%orb_false_iff]%orb_false_iff.
Qed.

Lemma trimLeft_lead s : lead_blank (trimLeft s) = false.
Proof.
  induction s as [s IH] using string_strong_ind.
  destruct s as [|c0 r0]; [done|]. cbn [trimLeft].
  destruct (asciiSpace c0) eqn:E0; [apply IH; simpl; lia|].
  destruct r0 as [|c1 r1]; [cbn; by rewrite E0|].
  destruct (space2 c0 c1) eqn:E1; [apply IH; simpl; lia|].
  destruct r1 as [|c2 r2]; [cbn; by rewrite E0, E1|].
  destruct (space3 c0 c1 c2) eqn:E2; [apply IH; simpl; lia|].
  cbn. by rewrite E0, E1, E2.
Qed.

Lemma trimLeft_rev_clean s : lead_blank_rev s = false -> trimLeft_rev s = s.
Proof.
  destruct s as [|c0 [|c1 [|c2 r2]]]; [done| | |]; cbn [lead_blank_rev trimLeft_rev].
  - rewrite orb_false_r. by intros ->.
  - rewrite orb_false_r. by intros [-> ->]%orb_false_iff.
  - by intros [-> [-> ->]%orb_false_iff]%orb_false_iff.
Qed.

Lemma trimLeft_rev_lead s : lead_blank_rev (trimLeft_rev s) = false.
Proof.
  induction s as [s IH] using string_strong_ind.
  destruct s as [|c0 r0]; [done|]. cbn [trimLeft_rev].
  destruct (asciiSpace c0) eqn:E0; [apply IH; simpl; lia|].
  destruct r0 as [|c1 r1]; [cbn; by rewrite E0|].
  destruct (space2 c1 c0) eqn:E1; [apply IH; simpl; lia|].
  destruct r1 as [|c2 r2]; [cbn; by rewrite E0, E1|].
  destruct (space3 c2 c1 c0) eqn:E2; [apply IH; simpl; lia|].
  cbn. by rewrite E0, E1, E2.
Qed.

(** What is left of a reversed string is its end. *)
Lemma trimLeft_rev_suffix s : exists pre, s = pre +:+ trimLeft_rev s.
Proof.
  induction s as [s IH] using string_strong_ind.
  destruct s as [|c0 r0]; [by exists EmptyString|]. cbn [trimLeft_rev].
  destruct (asciiSpace c0).
  { destruct (IH r0) as [pre Hpre]; [simpl; lia|].
    exists (String c0 pre). by rewrite append_String, <- Hpre. }
  destruct r0 as [|c1 r1]; [by exists EmptyString|].
  destruct (space2 c1 c0).
  { destruct (IH r1) as [pre Hpre]; [simpl; lia|].
    exists (String c0 (String c1 pre)). by rewrite !append_String, <- Hpre. }
  destruct r1 as [|c2 r2]; [by exists EmptyString|].
  destruct (space3 c2 c1 c0); [|by exists EmptyString].
  destruct (IH r2) as [pre Hpre]; [simpl; lia|].
  exists (String c0 (String c1 (String c2 pre))). by rewrite !append_String, <- Hpre.
Qed.

(** Trimming the back leaves a beginning of the string. *)
Lemma trimRight_prefix s : exists post, s = trimRight s +:+ post.
Proof.
  unfold trimRight. destruct (trimLeft_rev_suffix (rev_bytes s)) as [pre Hpre].
  exists (rev_bytes pre).
  rewrite <- rev_bytes_app, <- Hpre. by rewrite rev_bytes_involutive.
Qed.

(** A beginning of a string that starts with no blank starts with none. *)
Lemma lead_blank_prefix p q : lead_blank (p +:+ q) = false -> lead_blank p = false.
Proof.
  destruct p as [|c0 [|c1 [|c2 r2]]]; [done| | |];
    rewrite ?append_String, ?append_Empty; cbn [lead_blank].
  - intros [-> _]%orb_false_iff. done.
  - intros [-> H]%orb_false_iff. destruct q; apply orb_false_iff in H as [-> _]; done.
  - done.
Qed.

Lemma trimRight_idem s : trimRight (trimRight s) = trimRight s.
Proof.
  unfold trimRight. rewrite rev_bytes_involutive.
  by rewrite (trimLeft_rev_clean _ (trimLeft_rev_lead _)).
Qed.

Lemma TrimSpace_idem s : TrimSpace (TrimSpace s) = TrimSpace s.
Proof.
  unfold TrimSpace.
  destruct (trimRight_prefix (trimLeft s)) as [post Hpost].
  pose proof (trimLeft_lead s) as Hl. rewrite Hpost in Hl.
  apply lead_blank_prefix, trimLeft_clean in Hl. rewrite Hl. apply trimRight_idem.
Qed.

End TrimFacts.

Section GateSteps.
Variable opts : list string.

(** The loop over the options prints one line per option, in order, each
    under the number of its place. *)
Lemma printOptions_printed os : forall k c,
  Main.printed (Main.printOptions (Z.of_nat k) os c)
  = Main.printed c ++ imap (fun j o => optionLine (k + j) o) os.
Proof.
  induction os as [|o os IH]; intros k c; cbn [Main.printOptions imap].
  - by rewrite app_nil_r.
  - replace (Z.of_nat k + 1) with (Z.of_nat (S k)) at 1 by lia. rewrite IH.
    cbn [Main.Printf Main.printed]. rewrite <- app_assoc. cbn [app].
    unfold optionLine at 2. rewrite Nat.add_0_r. do 2 f_equal.
    apply imap_ext. intros j x _. simpl. by replace (k + S j)%nat with (S (k + j)) by lia.
Qed.

(** A run of decimal digits has no blank at either end. *)
Lemma TrimSpace_digits s : s <> EmptyString -> all_digits s = true -> TrimSpace s = s.
Proof.
  intros Hne Hd. destruct (all_digits_last s Hne Hd) as (a & l & Ha & Hl).
  destruct s as [|c r]; [done|]. simpl in Hd. apply andb_true_iff in Hd as [Hc _].
  by apply (TrimSpace_plain c r a l); auto using digit_plain.
Qed.

(** A number within the range of [int], printed with [%d], is read back. *)
Lemma reads_fmt_d k : 0 <= k <= maxInt -> Atoi (TrimSpace (fmt_d k)) = Some k.
Proof.
  intros Hk. pose proof (fmt_d_numeral k ltac:(lia)) as Hn.
  destruct Hn as (Hne & Hd & Hp).
  rewrite TrimSpace_digits by done. apply Atoi_numeral; [done|lia].
Qed.

Lemma askLoop_skip bad : forall lines out,
  Forall (rejected (offered opts)) bad ->
  Main.askLoop opts (bad ++ lines) out
  = Main.askLoop opts lines (out ++ reprompts (offered opts) bad).
Proof.
  induction bad as [|b bad IH]; intros lines out Hall.
  - unfold reprompts. simpl. by rewrite app_nil_r.
  - inversion Hall as [|? ? Hb Hbad]; subst. cbn [app].
    rewrite askLoop_reject by done. rewrite IH by done.
    unfold reprompts. cbn [map concat]. by rewrite <- !app_assoc.
Qed.

(** What the loop keeps whatever the lines hold. *)
Lemma askLoop_invariants lines : forall out,
  exists r c,
    Main.askLoop opts lines out = Ok (r, c)
    /\ Main.pending c `suffix_of` lines
    /\ out `prefix_of` Main.printed c
    /\ ((r = Main.playerLeft /\ Main.pending c = [])
        \/ exists chosen, chosen ∈ opts /\ r = Main.playerChose chosen).
Proof.
  induction lines as [|line rest IH]; intros out.
  - rewrite askLoop_closed. eexists _, _. split; [done|]. cbn [Main.pending Main.printed].
    split; [done|]. split; [by apply prefix_app_r|]. by left.
  - assert (Hrej : rejected (offered opts) line ->
      exists r c,
        Main.askLoop opts (line :: rest) out = Ok (r, c)
        /\ Main.pending c `suffix_of` line :: rest
        /\ out `prefix_of` Main.printed c
        /\ ((r = Main.playerLeft /\ Main.pending c = [])
            \/ exists chosen, chosen ∈ opts /\ r = Main.playerChose chosen)).
    { intros Hr. rewrite askLoop_reject by done.
      destruct (IH (out ++ [Main.choosePrompt (offered opts); Main.pickMessage (offered opts)]))
        as (r & c & -> & Hsuf & Hpre & Hres).
      exists r, c. split; [done|]. split; [by apply suffix_cons_r|].
      split; [|done]. etrans; [|exact Hpre]. by apply prefix_app_r. }
    destruct (Atoi (TrimSpace line)) as [choice|] eqn:Ha.
    + destruct (decide (1 <= choice <= offered opts)) as [Hc|Hc].
      * destruct (askLoop_accept opts line rest out choice Ha Hc) as (chosen & Hl & ->).
        eexists _, _. split; [done|]. cbn [Main.pending Main.printed].
        split; [by apply suffix_cons_r|]. split; [by apply prefix_app_r|].
        right. exists chosen. split; [|done]. by eapply list_elem_of_lookup_2.
      * apply Hrej. unfold rejected. rewrite Ha. lia.
    + apply Hrej. unfold rejected. by rewrite Ha.
Qed.

End GateSteps.

(** What is on the console when the loop of [askPlayer] starts: what was
    there, the banner, and one line per option. *)
Lemma announced_printed input c :
  announced input c
  = Main.printed c ++ [turnBanner (Main.Question input)] ++ imap optionLine (Main.Options input).
Proof.
  unfold announced. rewrite (printOptions_printed (Main.Options input) 0).
  cbn [Main.Printf Main.printed]. by rewrite <- app_assoc.
Qed.

Section SlugFacts.

Lemma slug_byte_made c :
  (byte_val c <? 128) = true ->
  slug_byte (lower_byte (if Ascii.eqb c " " then "-"%char else c)) = true.
Proof. by destruct c as [[] [] [] [] [] [] [] []]. Qed.

Lemma slug_byte_kept c :
  slug_byte c = true ->
  Ascii.eqb c " " = false /\ (byte_val c <? 128) = true /\ lower_byte c = c.
Proof. by destruct c as [[] [] [] [] [] [] [] []]. Qed.

Lemma isASCII_ReplaceAll s : isASCII s = true -> isASCII (ReplaceAll s " " "-") = true.
Proof.
  induction s as [|c r IH]; [done|]. cbn [isASCII ReplaceAll].
  intros [Hc Hr]%andb_true_iff. rewrite IH by done.
  destruct (Ascii.eqb c " "); [done|]. by rewrite Hc.
Qed.

Lemma slug_ascii mapToLower name :
  isASCII name = true ->
  slug mapToLower name = lower_bytes (ReplaceAll name " " "-").
Proof. intros H. unfold slug, ToLower. by rewrite isASCII_ReplaceAll. Qed.

Lemma slug_bytes name :
  isASCII name = true ->
  all_bytes slug_byte (lower_bytes (ReplaceAll name " " "-")) = true
  /\ String.length (lower_bytes (ReplaceAll name " " "-")) = String.length name.
Proof.
  induction name as [|c r IH]; [done|]. cbn [isASCII ReplaceAll lower_bytes all_bytes].
  intros [Hc Hr]%andb_true_iff. destruct (IH Hr) as [-> Hlen].
  rewrite slug_byte_made by done. simpl. by rewrite Hlen.
Qed.

Lemma slug_fixed s :
  all_bytes slug_byte s = true ->
  isASCII s = true /\ ReplaceAll s " " "-" = s /\ lower_bytes s = s.
Proof.
  induction s as [|c r IH]; [done|]. cbn [all_bytes isASCII ReplaceAll lower_bytes].
  intros [Hc Hr]%andb_true_iff. destruct (IH Hr) as (-> & -> & ->).
  destruct (slug_byte_kept c Hc) as (-> & -> & ->). done.
Qed.

End SlugFacts.

Section EntryFacts.
Variable Sprint_s : any -> string.

(** A list of dynamic values holds maps only, or has a first element that is
    not a map. *)
Lemma all_maps_or_not l :
  all_maps l
  \/ exists l1 a l2, l = l1 ++ a :: l2 /\ all_maps l1 /\ not_a_map a.
Proof.
  induction l as [|a l IH]; [left; constructor|].
  assert (Hbad : not_a_map a ->
                 exists l1 b l2, a :: l = l1 ++ b :: l2 /\ all_maps l1 /\ not_a_map b).
  { intros Ha. exists [], a, l. split; [done|]. split; [constructor|done]. }
  destruct a as [| | | | |m]; try (right; by apply Hbad).
  destruct IH as [Hall|(l1 & b & l2 & -> & Hl1 & Hb)].
  - left. by constructor.
  - right. exists (AMap m :: l1), b, l2. split; [done|]. split; [by constructor|done].
Qed.

Lemma not_all_maps l1 a l2 : not_a_map a -> ~ all_maps (l1 ++ a :: l2).
Proof.
  intros Ha Hall. apply Forall_app in Hall as [_ Hall].
  inversion Hall as [|? ? Hbad _]; subst. by destruct a.
Qed.

Lemma Part000_appendEntries_maps l : forall summary,
  all_maps l -> exists s, Part000Lookup.appendEntries Sprint_s l summary = Ok s.
Proof.
  induction l as [|a l IH]; intros summary Hall; [by eexists|].
  inversion Hall as [|? ? Ha Hl]; subst. destruct a; try done.
  cbn [Part000Lookup.appendEntries]. by apply IH.
Qed.

Lemma Part000_appendEntries_not_map l1 a l2 : forall summary,
  all_maps l1 -> not_a_map a ->
  Part000Lookup.appendEntries Sprint_s (l1 ++ a :: l2) summary = Panic InterfaceConversion.
Proof.
  induction l1 as [|b l1 IH]; intros summary Hall Ha.
  - by destruct a.
  - inversion Hall as [|? ? Hb Hl]; subst. destruct b; try done.
    cbn [app Part000Lookup.appendEntries]. by apply IH.
Qed.

(** One of the two optional sections of a monster summary: whether the list
    it walks holds maps only decides between an answer and the panic. *)
Lemma section_cases (append : list any -> string -> exec string) (v : any) (s h : string) :
  (forall l summary, all_maps l -> exists s', append l summary = Ok s') ->
  (forall l1 a l2 summary, all_maps l1 -> not_a_map a ->
     append (l1 ++ a :: l2) summary = Panic InterfaceConversion) ->
  ((forall l, v = ASlice l -> all_maps l)
   /\ exists s', match v with ASlice l => append l (s +:+ h) | _ => mret s end = Ok s')
  \/ (~ (forall l, v = ASlice l -> all_maps l)
      /\ match v with ASlice l => append l (s +:+ h) | _ => mret s end
         = Panic InterfaceConversion).
Proof.
  intros Hok Hbad.
  destruct v as [| | | |l|]; try (left; split; [done | by eexists]).
  destruct (all_maps_or_not l) as [Hall|(l1 & a & l2 & -> & Hl1 & Ha)].
  - left. split; [by intros ? [= <-] | by apply Hok].
  - right. split; [|by apply Hbad].
    intros H. by apply (not_all_maps l1 a l2 Ha), H.
Qed.

End EntryFacts.

Section ReadFacts.



Lemma plain_unsigned s : all_plain s = true -> all_bytes unsigned_byte s = true.
Proof.
  induction s as [|c r IH]; [done|]. cbn [all_plain all_bytes].
  intros [Hc Hr]%andb_true_iff. rewrite IH by done.
  unfold unsigned_byte. by rewrite plain_not_sign.
Qed.

Lemma indexAny_unsigned a : forall b i,
  all_bytes unsigned_byte a = true ->
  indexAny_from (a +:+ b) "+-" i = indexAny_from b "+-" (i + len a).
Proof.
  induction a as [|c r IH]; intros b i Ha.
  - rewrite append_Empty. f_equal. unfold len. simpl. lia.
  - cbn [all_bytes] in Ha. apply andb_true_iff in Ha as [Hc Hr].
    rewrite append_String. cbn [indexAny_from].
    unfold unsigned_byte in Hc. apply negb_true_iff in Hc. rewrite Hc.
    rewrite IH by done. f_equal. rewrite len_String. lia.
Qed.


(** A notation whose first sign after the first byte is [sg]: the main part
    is what precedes it, the modifier what [Sscanf] reads after it. *)
Lemma reads_modifier c0 r0 sg tail :
  all_bytes unsigned_byte r0 = true -> byte_in sg "+-" = true ->
  mainPartOf (String c0 r0 +:+ String sg tail) = String c0 r0
  /\ modifierOf (String c0 r0 +:+ String sg tail)
     = int_mul (default 0 (Sscanf_d tail)) (if Ascii.eqb sg "-" then -1 else 1).
Proof.
  intros Hr Hsg. unfold mainPartOf, modifierOf. rewrite append_String. cbn [drop_bytes].
  unfold IndexAny. rewrite indexAny_unsigned by done. cbn [indexAny_from]. rewrite Hsg.
  pose proof (len_nonneg r0). destruct (Z.leb_spec 0 (0 + len r0)); [|lia].
  replace (Z.to_nat (0 + len r0 + 1)) with (String.length (String c0 r0))
    by (unfold len; simpl; lia).
  replace (Z.to_nat (0 + len r0 + 2))
    with (String.length (String c0 r0 +:+ String sg EmptyString)).
  2:{ rewrite length_app. unfold len. simpl. lia. }
  rewrite <- append_String, take_bytes_app, get_app. split; [done|].
  replace (String c0 r0 +:+ String sg tail)
    with ((String c0 r0 +:+ String sg EmptyString) +:+ tail)
    by (by rewrite string_app_assoc).
  rewrite drop_bytes_app. f_equal.
  destruct (Ascii.eqb_spec sg "-") as [->|Hne]; [done|].
  destruct sg as [[] [] [] [] [] [] [] []]; done.
Qed.

Lemma takeScanDigits_junk D junk :
  all_digits D = true -> no_digit_first junk -> takeScanDigits (D +:+ junk) = D.
Proof.
  intros HD Hj. induction D as [|c r IH].
  - rewrite append_Empty. destruct junk as [|j r]; [done|]. simpl in *. by rewrite Hj.
  - cbn [all_digits] in HD. apply andb_true_iff in HD as [Hc Hr].
    rewrite append_String. cbn [takeScanDigits]. by rewrite Hc, IH.
Qed.

(** [Sscanf] reads a numeral and leaves what follows it. *)
Lemma Sscanf_d_junk D z junk :
  numeral D z -> z <= maxInt -> no_digit_first junk -> Sscanf_d (D +:+ junk) = Some z.
Proof.
  intros Hn Hz Hj. pose proof (Atoi_numeral D z Hn Hz) as Ha.
  destruct Hn as (Hne & Hd & Hp). destruct D as [|c r]; [done|].
  pose proof Hd as Hd'. cbn [all_digits] in Hd. apply andb_true_iff in Hd as [Hc Hr].
  rewrite append_String.
  assert (Hs : forall x, skipSpace (String c x) = Some (String c x)).
  { intros x. cbn [skipSpace]. rewrite digit_not_nl, plain_not_space by auto using digit_plain.
    destruct x as [|c1 [|c2 r2]]; [done| |].
    - by rewrite plain_not_lead2 by auto using digit_plain.
    - by rewrite plain_not_lead2, plain_not_lead3 by auto using digit_plain. }
  unfold Sscanf_d. rewrite Hs. destruct (digit_not_sign c Hc) as [-> ->]. cbn [orb].
  rewrite <- append_String, takeScanDigits_junk by done. done.
Qed.




Lemma signed_in_range sg z :
  0 <= z <= maxInt ->
  int_mul z (if Ascii.eqb sg "-" then -1 else 1) = signed sg z.
Proof.
  intros Hz. unfold int_mul, signed.
  destruct (Ascii.eqb sg "-"); rewrite wrap64_id; unfold inInt, minInt, maxInt in *; lia.
Qed.

(** A notation [<digits>d<digits>], a sign and a tail: the two texts are
    read around the ['d'], the modifier from the tail. *)
Lemma reads_signed_tail mapToLower ct st sg tail :
  all_digits ct = true -> all_digits st = true -> byte_in sg "+-" = true ->
  let notation := ct +:+ "d" +:+ st +:+ String sg tail in
  partsOf mapToLower notation = Some (ct, st)
  /\ modifierOf notation
     = int_mul (default 0 (Sscanf_d tail)) (if Ascii.eqb sg "-" then -1 else 1).
Proof.
  intros Hct Hst Hsg notation.
  destruct (main_text ct st Hct Hst) as (c0 & r0 & Hmain & Hc0 & Hr0).
  assert (Hnot : notation = String c0 r0 +:+ String sg tail).
  { unfold notation. rewrite <- Hmain.
    by rewrite string_app_assoc, append_String, append_Empty. }
  destruct (reads_modifier c0 r0 sg tail (plain_unsigned r0 Hr0) Hsg) as [Hmp Hmod].
  rewrite Hnot. split; [|done].
  unfold partsOf. rewrite Hmp, ToLower_plain by (cbn [all_plain]; by rewrite Hc0, Hr0).
  rewrite <- Hmain. by apply cut_digits.
Qed.


End ReadFacts.

Section BigNumerals.

(** A numeral above the largest [int] is read neither by [strconv.Atoi] nor
    by [Sscanf]. *)
Lemma Atoi_beyond s z : numeral s z -> maxInt < z -> Atoi s = None.
Proof.
  intros (Hne & Hd & Hp) Hz. destruct s as [|c r]; [done|].
  simpl in Hd. apply andb_true_iff in Hd as [Hc Hr].
  unfold Atoi. cbv zeta. destruct (digit_not_sign c Hc) as [-> ->]. cbn [orb].
  rewrite Hp. unfold maxInt in Hz. destruct (Z.ltb_spec z (2 ^ 63)); [lia|done].
Qed.

Lemma positive_int_beyond s z : numeral s z -> maxInt < z -> positive_int s = None.
Proof. intros Hn Hz. unfold positive_int. by rewrite (Atoi_beyond s z). Qed.

Lemma Sscanf_d_beyond D z junk :
  numeral D z -> maxInt < z -> no_digit_first junk -> Sscanf_d (D +:+ junk) = None.
Proof.
  intros Hn Hz Hj. pose proof (Atoi_beyond D z Hn Hz) as Ha.
  destruct Hn as (Hne & Hd & Hp). destruct D as [|c r]; [done|].
  pose proof Hd as Hd'. cbn [all_digits] in Hd. apply andb_true_iff in Hd as [Hc Hr].
  rewrite append_String.
  assert (Hs : forall x, skipSpace (String c x) = Some (String c x)).
  { intros x. cbn [skipSpace]. rewrite digit_not_nl, plain_not_space by auto using digit_plain.
    destruct x as [|c1 [|c2 r2]]; [done| |].
    - by rewrite plain_not_lead2 by auto using digit_plain.
    - by rewrite plain_not_lead2, plain_not_lead3 by auto using digit_plain. }
  unfold Sscanf_d. rewrite Hs. destruct (digit_not_sign c Hc) as [-> ->]. cbn [orb].
  rewrite <- append_String, takeScanDigits_junk by done. done.
Qed.

(** After [<digits>d<digits>] and a sign, a numeral beyond the range of
    [int] leaves the modifier at 0. *)
Lemma reads_modifier_beyond mapToLower ct st sg D z junk :
  all_digits ct = true -> all_digits st = true -> byte_in sg "+-" = true ->
  numeral D z -> maxInt < z -> no_digit_first junk ->
  let notation := ct +:+ "d" +:+ st +:+ String sg (D +:+ junk) in
  partsOf mapToLower notation = Some (ct, st) /\ modifierOf notation = 0.
Proof.
  intros Hct Hst Hsg Hn Hz Hj notation.
  destruct (reads_signed_tail mapToLower ct st sg (D +:+ junk) Hct Hst Hsg) as [Hp Hm].
  split; [done|]. fold notation in Hm. rewrite Hm, (Sscanf_d_beyond D z junk) by done.
  cbn [default from_option id]. unfold int_mul. by destruct (Ascii.eqb sg "-").
Qed.

(** And a numeral within the range is the modifier, whatever follows it. *)
Lemma reads_modifier_junk mapToLower ct st sg D z junk :
  all_digits ct = true -> all_digits st = true -> byte_in sg "+-" = true ->
  numeral D z -> z <= maxInt -> no_digit_first junk ->
  let notation := ct +:+ "d" +:+ st +:+ String sg (D +:+ junk) in
  partsOf mapToLower notation = Some (ct, st) /\ modifierOf notation = signed sg z.
Proof.
  intros Hct Hst Hsg Hn Hz Hj notation.
  destruct (reads_signed_tail mapToLower ct st sg (D +:+ junk) Hct Hst Hsg) as [Hp Hm].
  split; [done|]. fold notation in Hm. rewrite Hm, (Sscanf_d_junk D z junk) by done.
  cbn [default from_option id]. unfold id. apply signed_in_range.
  destruct Hn as (_ & _ & Hp'). apply parse_digits_nonneg in Hp'; lia.
Qed.

End BigNumerals.

Section RollFacts.
Variable rand_Int : nat -> Z -> Z.

(** The loop never panics on a die with sides, whatever the entropy source
    draws: the slice it fills is long enough. *)
Lemma rollLoop_total sides n : forall i rolls total,
  0 < sides -> (i + n <= length rolls)%nat ->
  exists rolls' total', rollLoop rand_Int n i sides rolls total = Ok (rolls', total').
Proof.
  induction n as [|n IH]; intros i rolls total Hs Hlen; [by eexists _, _|].
  cbn [rollLoop]. unfold randInt. destruct (Z.leb_spec sides 0); [lia|].
  cbn [mbind exec_bind]. case_decide; [|lia].
  apply IH; [done|]. rewrite length_insert. lia.
Qed.

Lemma rollAll_total count sides :
  0 <= count <= maxLen -> 0 < sides ->
  exists rolls total, rollAll rand_Int count sides = Ok (rolls, total).
Proof.
  intros Hc Hs. unfold rollAll. rewrite make_ints_ok by done. cbn [mbind exec_bind].
  apply rollLoop_total; [done|]. rewrite length_replicate. lia.
Qed.

Lemma sumZ_bounds lo hi l :
  Forall (fun r => lo <= r <= hi) l ->
  Z.of_nat (length l) * lo <= sumZ l <= Z.of_nat (length l) * hi.
Proof. induction 1 as [|x l Hx Hl IH]; cbn [sumZ length]; lia. Qed.

(** A total that cannot leave the range of [int] is between the bounds of the
    dice. *)
Lemma dice_law_within count sides modifier rolls total ret :
  dice_law (Rolled count sides modifier rolls total ret) ->
  inInt (count + modifier) -> inInt (count * sides + modifier) ->
  count + modifier <= total <= count * sides + modifier.
Proof.
  intros (Hlen & Hall & _ & Hexact) Hlo Hhi.
  apply sumZ_bounds in Hall. rewrite Hlen in Hall.
  rewrite Hexact; [lia|]. unfold inInt in *. lia.
Qed.

(** The notation main.go prints is the one the grammar calls canonical. *)
Lemma structured_notation count sides modifier :
  (if modifier =? 0 then fmt_d count +:+ "d" +:+ fmt_d sides
   else (fmt_d count +:+ "d" +:+ fmt_d sides) +:+ fmt_plus_d modifier)
  = canonical count sides modifier.
Proof.
  unfold canonical, notation_text. destruct (modifier =? 0).
  - by rewrite app_empty_r.
  - by rewrite !string_app_assoc.
Qed.

(** main.go's [rollDice] is the loop followed by the report. *)
Lemma Main_rollDice_unfold input :
  let count := Z.max (Main.Count input) 1 in
  let sides := Z.max (Main.Sides input) 1 in
  let modifier := Main.Modifier input in
  Main.rollDice rand_Int input
  = '(rolls, total) ← rollAll rand_Int count sides;
    mret (Rolled count sides modifier rolls (int_add total modifier)
            (structured_reply count sides modifier rolls (int_add total modifier))).
Proof.
  intros count sides modifier. unfold Main.rollDice, structured_reply.
  fold count sides modifier.
  destruct (rollAll rand_Int count sides) as [[rolls total]|p]; [|done].
  cbn [mbind exec_bind mret exec_ret]. do 3 f_equal.
  destruct (modifier =? 0); by rewrite !string_app_assoc.
Qed.

(** The report of main.go names the expression by its canonical notation. *)
Lemma structured_reply_canonical count sides modifier rolls total :
  structured_reply count sides modifier rolls total
  = (NewTextResponse
       ("Rolling " +:+ canonical count sides modifier +:+ ": " +:+ fmt_ints rolls
          +:+ " = " +:+ fmt_d total), None).
Proof.
  unfold structured_reply, canonical, notation_text. by rewrite !string_app_assoc.
Qed.

(** The report of part_000, with the modifier in the middle. *)
Lemma rolled_reply notation count sides modifier rolls total :
  rolled notation count sides modifier rolls total
  = Rolled count sides modifier rolls (int_add total modifier)
      (notation_reply notation rolls modifier (int_add total modifier)).
Proof.
  unfold rolled, notation_reply. do 3 f_equal. destruct (modifier =? 0).
  - by rewrite !string_app_assoc.
  - by rewrite !string_app_assoc.
Qed.

(** A count the run time refuses. *)
Lemma Main_rollDice_too_long input :
  maxLen < Z.max (Main.Count input) 1 ->
  Main.rollDice rand_Int input = Panic MakeSliceLenOutOfRange.
Proof. intros Hc. rewrite Main_rollDice_unfold. cbv zeta. by rewrite rollAll_too_long. Qed.

Variable mapToLower : string -> string.

Lemma Part000_rollDice_too_long input c s sides :
  partsOf mapToLower (TrimSpace (Part000.Notation' input)) = Some (c, s) ->
  positive_int s = Some sides ->
  maxLen < default 1 (positive_int c) ->
  Part000.rollDice rand_Int mapToLower input = Panic MakeSliceLenOutOfRange.
Proof.
  intros Hp Hs Hc. rewrite rollDice_parse by (eapply partsOf_nonempty; exact Hp).
  cbv zeta. rewrite Hp, Hs. by rewrite rollAll_too_long.
Qed.

(** The two early returns of part_000's [rollDice]. *)
Lemma Part000_rollDice_invalid input :
  TrimSpace (Part000.Notation' input) <> EmptyString ->
  match partsOf mapToLower (TrimSpace (Part000.Notation' input)) with
  | None => True
  | Some (c, s) => positive_int s = None
  end ->
  Part000.rollDice rand_Int mapToLower input
  = Ok (Invalid (invalid_reply (TrimSpace (Part000.Notation' input)))).
Proof.
  intros Hne Hbad. rewrite rollDice_parse by done. cbv zeta.
  destruct (partsOf _ _) as [[c s]|]; [|done]. by rewrite Hbad.
Qed.

Hypothesis rand_Int_range : entropy_ok rand_Int.

Lemma Main_rollDice_spec input :
  wf_diceQuery input -> Z.max (Main.Count input) 1 <= maxLen ->
  let count := Z.max (Main.Count input) 1 in
  let sides := Z.max (Main.Sides input) 1 in
  let modifier := Main.Modifier input in
  let rolls := draws rand_Int sides 0 (Z.to_nat count) in
  let total := int_add (wrap64 (sumZ rolls)) modifier in
  Main.rollDice rand_Int input
  = Ok (Rolled count sides modifier rolls total
          (structured_reply count sides modifier rolls total))
  /\ dice_law (Rolled count sides modifier rolls total
                 (structured_reply count sides modifier rolls total)).
Proof.
  intros (_ & Hs & _) Hc count sides modifier rolls total.
  rewrite Main_rollDice_unfold. cbv zeta. fold count sides modifier.
  rewrite rollAll_spec; [| done | lia | unfold inInt, minInt, maxInt in *; lia].
  cbn [mbind exec_bind mret exec_ret]. split; [done|].
  apply dice_law_draws; (done || lia).
Qed.

Lemma Part000_rollDice_spec input c s sides :
  let notation := TrimSpace (Part000.Notation' input) in
  partsOf mapToLower notation = Some (c, s) -> positive_int s = Some sides ->
  default 1 (positive_int c) <= maxLen ->
  let count := default 1 (positive_int c) in
  let modifier := modifierOf notation in
  let rolls := draws rand_Int sides 0 (Z.to_nat count) in
  let total := int_add (wrap64 (sumZ rolls)) modifier in
  Part000.rollDice rand_Int mapToLower input
  = Ok (Rolled count sides modifier rolls total (notation_reply notation rolls modifier total))
  /\ 1 <= count /\ 1 <= sides
  /\ dice_law (Rolled count sides modifier rolls total
                 (notation_reply notation rolls modifier total)).
Proof.
  intros notation Hp Hs Hlen count modifier rolls total.
  pose proof (positive_int_range _ _ Hs) as Hsr.
  assert (Hc : 1 <= count).
  { unfold count. destruct (positive_int c) as [n|] eqn:Hn; simpl; [|lia].
    apply positive_int_range in Hn. lia. }
  rewrite rollDice_parse by (eapply partsOf_nonempty; exact Hp).
  fold notation. cbv zeta. rewrite Hp, Hs. fold count.
  rewrite rollAll_spec by (done || lia).
  cbn [mbind exec_bind mret exec_ret]. rewrite rolled_reply.
  split; [done|]. split; [done|]. split; [lia|].
  apply dice_law_draws; (done || lia).
Qed.

(** What [rollDice] returns once its trimmed notation is known to read as
    the texts [ct] and [st] around the ['d'] with the modifier [m]. *)
Lemma rollDice_reads input ct st m :
  let notation := TrimSpace (Part000.Notation' input) in
  partsOf mapToLower notation = Some (ct, st) -> modifierOf notation = m ->
  match positive_int st with
  | None => Part000.rollDice rand_Int mapToLower input = Ok (Invalid (invalid_reply notation))
  | Some sides =>
      let count := default 1 (positive_int ct) in
      (count <= maxLen ->
       let rolls := draws rand_Int sides 0 (Z.to_nat count) in
       let total := int_add (wrap64 (sumZ rolls)) m in
       Part000.rollDice rand_Int mapToLower input
       = Ok (Rolled count sides m rolls total (notation_reply notation rolls m total))
       /\ dice_law (Rolled count sides m rolls total (notation_reply notation rolls m total)))
      /\ (maxLen < count ->
          Part000.rollDice rand_Int mapToLower input = Panic MakeSliceLenOutOfRange)
  end.
Proof.
  intros notation Hp Hm. destruct (positive_int st) as [sides|] eqn:Hs.
  - split.
    + intros Hc. destruct (Part000_rollDice_spec input ct st sides Hp Hs Hc)
        as (Heq & _ & _ & Hlaw).
      fold notation in Heq, Hlaw. rewrite Hm in Heq, Hlaw. done.
    + intros Hc. by eapply Part000_rollDice_too_long.
  - apply Part000_rollDice_invalid; [eapply partsOf_nonempty; exact Hp|].
    fold notation. by rewrite Hp.
Qed.

End RollFacts.

(** From [rollDice_reads] to a statement that names the rolls and the total
    without saying which draws they are. *)
Ltac from_reads H :=
  match type of H with
  | context [positive_int ?st] =>
      destruct (positive_int st) as [?sides|]; [|exact H];
      let Hok := fresh "Hok" in
      let Hpanic := fresh "Hpanic" in
      let Hc := fresh "Hc" in
      let Heq := fresh "Heq" in
      let Hlaw := fresh "Hlaw" in
      destruct H as [Hok Hpanic]; split; [|exact Hpanic];
      intros Hc; destruct (Hok Hc) as [Heq Hlaw];
      eexists _, _; split; [exact Heq | exact Hlaw]
  end.

(** The cases of part_000's [rollDice], whatever the entropy source draws. *)
Lemma rollDice_cases (rand_Int : nat -> Z -> Z) (mapToLower : string -> string)
  (input : Part000.diceQuery) :
  let notation := TrimSpace (Part000.Notation' input) in
  let answer := Part000.rollDice rand_Int mapToLower input in
  (notation = EmptyString /\ answer = Panic SliceBoundsOutOfRange)
  \/ (notation <> EmptyString
      /\ (exists c s sides,
            partsOf mapToLower notation = Some (c, s) /\ positive_int s = Some sides
            /\ maxLen < default 1 (positive_int c))
      /\ answer = Panic MakeSliceLenOutOfRange)
  \/ (notation <> EmptyString
      /\ ~ (exists c s sides,
              partsOf mapToLower notation = Some (c, s) /\ positive_int s = Some sides
              /\ maxLen < default 1 (positive_int c))
      /\ exists o, answer = Ok o).
Proof.
  intros notation answer.
  destruct (String.string_dec notation EmptyString) as [He|Hne].
  { left. split; [done|]. by apply rollDice_blank. }
  right. subst answer. rewrite rollDice_parse by done. fold notation. cbv zeta.
  destruct (partsOf mapToLower notation) as [[c s]|] eqn:Hp.
  2:{ right. split; [done|]. split; [by intros (? & ? & ? & ? & _)|by eexists]. }
  destruct (positive_int s) as [sides|] eqn:Hs.
  2:{ right. split; [done|]. split; [|by eexists].
      intros (c' & s' & sides' & [= <- <-] & Hs' & _). by rewrite Hs in Hs'. }
  pose proof (positive_int_range _ _ Hs) as Hsr.
  assert (Hc : 1 <= default 1 (positive_int c)).
  { destruct (positive_int c) as [n|] eqn:Hn; simpl; [|lia].
    apply positive_int_range in Hn. lia. }
  destruct (Z.le_gt_cases (default 1 (positive_int c)) maxLen) as [Hle|Hgt].
  - right. split; [done|]. split.
    + intros (c' & s' & sides' & [= <- <-] & _ & Hlt). lia.
    + destruct (rollAll_total rand_Int (default 1 (positive_int c)) sides) as (rolls & total & ->);
        [lia | lia | by eexists].
  - left. split; [done|]. split; [by exists c, s, sides|]. by rewrite rollAll_too_long.
Qed.

(** ** The properties of the specification *)

(** C1 (as amended). With an entropy source that keeps its contract, an
    evaluation with [1 <= count <= 2^45] (the longest slice the run time
    makes) and [sides >= 1] returns without a panic, with a [nil] error and
    with the text "Rolling <count>d<sides>[<+-modifier>]: <rolls> = <total>"
    (main.go) or "🎲 Rolling <notation>: <rolls>[ <+-modifier>] = **<total>**"
    (part_000), where the rolls are exactly [count] outcomes, each within
    [[1, sides]], and the total is the sum of the outcomes plus the modifier
    in [int] arithmetic (modulo 2^64), which is the exact sum whenever that
    sum is an [int]. In the structured form the spec is the input itself. In
    the notation form it is what the notation
    [<count>d<sides>[+|-<modifier>]] prints, for a modifier of magnitude at
    most [2^63 - 1], and, on any string, what the grammar reads: [sides] the
    positive integer after the first ['d'], [count] the positive integer
    before it, or 1. Beyond these bounds: a count above [2^45] makes either
    form panic in [make], and a modifier numeral above [2^63 - 1] in a
    notation is read as the modifier 0. *)
Theorem C1_dice_counted_bounded_summed
  (rand_Int : nat -> Z -> Z) (mapToLower : string -> string) :
  entropy_ok rand_Int ->
  let law := fun (count sides modifier : Z) (rolls : list Z) (total : Z) =>
    Z.of_nat (length rolls) = count
    /\ Forall (fun r => 1 <= r <= sides) rolls
    /\ total = wrap64 (sumZ rolls + modifier)
    /\ (inInt (sumZ rolls + modifier) -> total = sumZ rolls + modifier) in
  let structured := fun (count sides modifier : Z) (rolls : list Z) (total : Z) =>
    (NewTextResponse
       ("Rolling " +:+ fmt_d count +:+ "d" +:+ fmt_d sides
          +:+ (if modifier =? 0 then EmptyString else fmt_plus_d modifier)
          +:+ ": " +:+ fmt_ints rolls +:+ " = " +:+ fmt_d total), None : option error) in
  let report := fun (notation : string) (modifier : Z) (rolls : list Z) (total : Z) =>
    (NewTextResponse
       ("🎲 Rolling " +:+ notation +:+ ": " +:+ fmt_ints rolls
          +:+ (if modifier =? 0 then EmptyString else " " +:+ fmt_plus_d modifier)
          +:+ " = **" +:+ fmt_d total +:+ "**"), None : option error) in
  (forall input, wf_diceQuery input ->
     1 <= Main.Count input <= maxLen -> 1 <= Main.Sides input ->
     exists rolls total,
       Main.rollDice rand_Int input
       = Ok (Rolled (Main.Count input) (Main.Sides input) (Main.Modifier input) rolls total
               (structured (Main.Count input) (Main.Sides input) (Main.Modifier input)
                  rolls total))
       /\ law (Main.Count input) (Main.Sides input) (Main.Modifier input) rolls total)
  /\ (forall input, maxLen < Main.Count input ->
        Main.rollDice rand_Int input = Panic MakeSliceLenOutOfRange)
  /\ (forall count sides modifier,
        1 <= count <= maxLen -> 1 <= sides <= maxInt -> - maxInt <= modifier <= maxInt ->
        exists rolls total,
          Part000.rollDice rand_Int mapToLower
            {| Part000.Notation' := canonical count sides modifier |}
          = Ok (Rolled count sides modifier rolls total
                  (report (canonical count sides modifier) modifier rolls total))
          /\ law count sides modifier rolls total)
  /\ (forall input c s sides,
        partsOf mapToLower (TrimSpace (Part000.Notation' input)) = Some (c, s) ->
        positive_int s = Some sides ->
        default 1 (positive_int c) <= maxLen ->
        exists rolls total,
          Part000.rollDice rand_Int mapToLower input
          = Ok (Rolled (default 1 (positive_int c)) sides
                  (modifierOf (TrimSpace (Part000.Notation' input))) rolls total
                  (report (TrimSpace (Part000.Notation' input))
                     (modifierOf (TrimSpace (Part000.Notation' input))) rolls total))
          /\ 1 <= default 1 (positive_int c) /\ 1 <= sides
          /\ law (default 1 (positive_int c)) sides
               (modifierOf (TrimSpace (Part000.Notation' input))) rolls total)
  /\ (forall input c s sides,
        partsOf mapToLower (TrimSpace (Part000.Notation' input)) = Some (c, s) ->
        positive_int s = Some sides ->
        maxLen < default 1 (positive_int c) ->
        Part000.rollDice rand_Int mapToLower input = Panic MakeSliceLenOutOfRange)
  /\ (forall input count sides sg D z,
        1 <= count <= maxLen -> 1 <= sides <= maxInt ->
        byte_in sg "+-" = true -> numeral D z -> maxInt < z ->
        TrimSpace (Part000.Notation' input)
        = fmt_d count +:+ "d" +:+ fmt_d sides +:+ String sg D ->
        exists rolls total,
          Part000.rollDice rand_Int mapToLower input
          = Ok (Rolled count sides 0 rolls total
                  (report (fmt_d count +:+ "d" +:+ fmt_d sides +:+ String sg D) 0 rolls total))
          /\ law count sides 0 rolls total).
Proof.
  intros He law structured report.
  split; [|split; [|split; [|split; [|split]]]].
  - intros input Hwf Hc Hs.
    destruct (Main_rollDice_spec rand_Int He input Hwf) as [Heq Hlaw];
      [rewrite Z.max_l by lia; lia|].
    rewrite !Z.max_l in Heq, Hlaw by lia. eexists _, _. split; [exact Heq | exact Hlaw].
  - intros input Hc. apply Main_rollDice_too_long. lia.
  - intros count sides modifier Hc Hs Hm.
    destruct (canonical_reads mapToLower count sides modifier ltac:(unfold maxLen, maxInt in *; lia)
                Hs Hm) as (Ht & Hp & Hpc & Hps & Hmod).
    destruct (Part000_rollDice_spec rand_Int mapToLower He
                {| Part000.Notation' := canonical count sides modifier |}
                (fmt_d count) (fmt_d sides) sides) as (Heq & _ & _ & Hlaw);
      cbn [Part000.Notation']; rewrite ?Ht, ?Hpc; cbn [default from_option id]; try done; [lia|].
    cbn [Part000.Notation'] in Heq, Hlaw.
    rewrite Ht, Hpc, Hmod in Heq, Hlaw. cbn [default from_option id] in Heq, Hlaw.
    eexists _, _. split; [exact Heq | exact Hlaw].
  - intros input c s sides Hp Hs Hc.
    destruct (Part000_rollDice_spec rand_Int mapToLower He input c s sides Hp Hs Hc)
      as (Heq & H1 & H2 & Hlaw).
    eexists _, _. split; [exact Heq|]. split; [done|]. split; [done | exact Hlaw].
  - intros input c s sides Hp Hs Hc. by eapply Part000_rollDice_too_long.
  - intros input count sides sg D z Hc Hs Hsg Hn Hz Ht.
    pose proof (fmt_d_numeral count ltac:(lia)) as Hnc.
    pose proof (fmt_d_numeral sides ltac:(lia)) as Hns.
    destruct (reads_modifier_beyond mapToLower (fmt_d count) (fmt_d sides) sg D z EmptyString)
      as [Hp Hmod]; try done;
      [by destruct Hnc as (_ & ? & _) | by destruct Hns as (_ & ? & _) |].
    rewrite app_empty_r, <- Ht in Hp, Hmod.
    assert (Hpc : positive_int (fmt_d count) = Some count)
      by (apply positive_int_numeral; [done | unfold maxLen, maxInt in *; lia]).
    assert (Hps : positive_int (fmt_d sides) = Some sides)
      by (by apply positive_int_numeral).
    destruct (Part000_rollDice_spec rand_Int mapToLower He input
                (fmt_d count) (fmt_d sides) sides Hp Hps) as (Heq & _ & _ & Hlaw);
      [rewrite Hpc; cbn [default from_option id]; lia|].
    rewrite Hpc, Hmod, Ht in Heq, Hlaw. cbn [default from_option id] in Heq, Hlaw.
    eexists _, _. split; [exact Heq | exact Hlaw].
Qed.

(** C1, witness: 2d6+3 in the two forms, the notation form on 3d8-1 and on
    the unusual " D20 ", every draw 0; a count of [2^63 - 1] in the two forms;
    and the notation 2d6-9223372036854775808. *)
Lemma C1_dice_witness :
  (exists rolls total,
     Main.rollDice zero_entropy {| Main.Count := 2; Main.Sides := 6; Main.Modifier := 3 |}
     = Ok (Rolled 2 6 3 rolls total
             (NewTextResponse
                ("Rolling 2d6+3: " +:+ fmt_ints rolls +:+ " = " +:+ fmt_d total), None))
     /\ Z.of_nat (length rolls) = 2
     /\ Forall (fun r => 1 <= r <= 6) rolls
     /\ total = wrap64 (sumZ rolls + 3)
     /\ (inInt (sumZ rolls + 3) -> total = sumZ rolls + 3))
  /\ Main.rollDice zero_entropy
       {| Main.Count := 9223372036854775807; Main.Sides := 6; Main.Modifier := 0 |}
     = Panic MakeSliceLenOutOfRange
  /\ (exists rolls total,
        Part000.rollDice zero_entropy ascii_only {| Part000.Notation' := "3d8-1" |}
        = Ok (Rolled 3 8 (-1) rolls total
                (NewTextResponse
                   ("🎲 Rolling 3d8-1: " +:+ fmt_ints rolls +:+ " -1 = **" +:+ fmt_d total
                      +:+ "**"), None))
        /\ Z.of_nat (length rolls) = 3
        /\ Forall (fun r => 1 <= r <= 8) rolls
        /\ total = wrap64 (sumZ rolls + -1)
        /\ (inInt (sumZ rolls + -1) -> total = sumZ rolls + -1))
  /\ (exists rolls total,
        Part000.rollDice zero_entropy ascii_only {| Part000.Notation' := " D20 " |}
        = Ok (Rolled 1 20 0 rolls total
                (NewTextResponse
                   ("🎲 Rolling D20: " +:+ fmt_ints rolls +:+ " = **" +:+ fmt_d total +:+ "**"),
                 None))
        /\ 1 <= 1 /\ 1 <= 20
        /\ Z.of_nat (length rolls) = 1
        /\ Forall (fun r => 1 <= r <= 20) rolls
        /\ total = wrap64 (sumZ rolls + 0)
        /\ (inInt (sumZ rolls + 0) -> total = sumZ rolls + 0))
  /\ Part000.rollDice zero_entropy ascii_only
       {| Part000.Notation' := "9223372036854775807d6" |}
     = Panic MakeSliceLenOutOfRange
  /\ (exists rolls total,
        Part000.rollDice zero_entropy ascii_only
          {| Part000.Notation' := "2d6-9223372036854775808" |}
        = Ok (Rolled 2 6 0 rolls total
                (NewTextResponse
                   ("🎲 Rolling 2d6-9223372036854775808: " +:+ fmt_ints rolls +:+ " = **"
                      +:+ fmt_d total +:+ "**"), None))
        /\ Z.of_nat (length rolls) = 2
        /\ Forall (fun r => 1 <= r <= 6) rolls
        /\ total = wrap64 (sumZ rolls + 0)
        /\ (inInt (sumZ rolls + 0) -> total = sumZ rolls + 0)).
Proof.
  destruct (C1_dice_counted_bounded_summed zero_entropy ascii_only zero_entropy_ok)
    as (Hm & Hmp & Hc & Hn & Hnp & Hz).
  split; [|split; [|split; [|split; [|split]]]].
  - apply (Hm {| Main.Count := 2; Main.Sides := 6; Main.Modifier := 3 |});
      [repeat split; vm_compute; congruence | vm_compute; split; congruence
       | vm_compute; congruence].
  - apply (Hmp {| Main.Count := 9223372036854775807; Main.Sides := 6; Main.Modifier := 0 |}).
    vm_compute. reflexivity.
  - apply (Hc 3 8 (-1)); vm_compute; split; congruence.
  - exact (Hn {| Part000.Notation' := " D20 " |} ""%string "20"%string 20 eq_refl eq_refl
             ltac:(vm_compute; congruence)).
  - exact (Hnp {| Part000.Notation' := "9223372036854775807d6" |}
             "9223372036854775807"%string "6"%string 6 eq_refl eq_refl eq_refl).
  - apply (Hz {| Part000.Notation' := "2d6-9223372036854775808" |} 2 6 "-"%char
             "9223372036854775808"%string 9223372036854775808);
      [vm_compute; split; congruence | vm_compute; split; congruence | reflexivity
       | by repeat split | vm_compute; reflexivity | reflexivity].
Defined.

(** C1, counterexample to the exact sum: one die of one side with the
    largest modifier reports a negative total. *)
Lemma C1_total_wraps_counterexample :
  Main.rollDice zero_entropy
    {| Main.Count := 1; Main.Sides := 1; Main.Modifier := 9223372036854775807 |}
  = Ok (Rolled 1 1 9223372036854775807 [1] (-9223372036854775808)
          (NewTextResponse "Rolling 1d1+9223372036854775807: [1] = -9223372036854775808", None))
  /\ ~ dice_claim (Rolled 1 1 9223372036854775807 [1] (-9223372036854775808)
          (NewTextResponse "Rolling 1d1+9223372036854775807: [1] = -9223372036854775808", None)).
Proof.
  split; [vm_compute; reflexivity|].
  intros (_ & _ & H). simpl in H. lia.
Qed.

(** C2 (as amended). The structured form has no invalid-notation response:
    it raises a count or a sides value below 1 to 1 and rolls. The notation
    form, on a notation that is not blank, rolls with the count read before
    the first ['d'], or 1 when that text is not a positive integer, provided
    the text after the ['d'] is a positive integer; when it is not, or when
    there is no ['d'], it returns the text "Invalid dice notation: <notation>"
    with a [nil] error. So it does on the notations
    [<digits>d<digits>[+|-<modifier>]], where either run of digits may be
    empty or spell 0. Where dice are rolled the count is at most [2^45], the
    longest slice the run time makes; above it the call panics in [make]. *)
Theorem C2_count_defaults_sides_checked
  (rand_Int : nat -> Z -> Z) (mapToLower : string -> string) :
  entropy_ok rand_Int ->
  let invalid := fun notation : string =>
    Invalid (NewTextResponse ("Invalid dice notation: " +:+ notation), None) in
  let structured := fun (count sides modifier : Z) (rolls : list Z) (total : Z) =>
    (NewTextResponse
       ("Rolling " +:+ fmt_d count +:+ "d" +:+ fmt_d sides
          +:+ (if modifier =? 0 then EmptyString else fmt_plus_d modifier)
          +:+ ": " +:+ fmt_ints rolls +:+ " = " +:+ fmt_d total), None : option error) in
  let report := fun (notation : string) (modifier : Z) (rolls : list Z) (total : Z) =>
    (NewTextResponse
       ("🎲 Rolling " +:+ notation +:+ ": " +:+ fmt_ints rolls
          +:+ (if modifier =? 0 then EmptyString else " " +:+ fmt_plus_d modifier)
          +:+ " = **" +:+ fmt_d total +:+ "**"), None : option error) in
  (forall input, wf_diceQuery input ->
     let count := Z.max (Main.Count input) 1 in
     let sides := Z.max (Main.Sides input) 1 in
     (count <= maxLen ->
      exists rolls total,
        Main.rollDice rand_Int input
        = Ok (Rolled count sides (Main.Modifier input) rolls total
                (structured count sides (Main.Modifier input) rolls total))
        /\ Z.of_nat (length rolls) = count)
     /\ (maxLen < count -> Main.rollDice rand_Int input = Panic MakeSliceLenOutOfRange))
  /\ (forall input,
        let notation := TrimSpace (Part000.Notation' input) in
        notation <> EmptyString ->
        match partsOf mapToLower notation with
        | None => Part000.rollDice rand_Int mapToLower input = Ok (invalid notation)
        | Some (c, s) =>
            match positive_int s with
            | None => Part000.rollDice rand_Int mapToLower input = Ok (invalid notation)
            | Some sides =>
                let count := default 1 (positive_int c) in
                (count <= maxLen ->
                 exists rolls total,
                   Part000.rollDice rand_Int mapToLower input
                   = Ok (Rolled count sides (modifierOf notation) rolls total
                           (report notation (modifierOf notation) rolls total))
                   /\ Z.of_nat (length rolls) = count)
                /\ (maxLen < count ->
                    Part000.rollDice rand_Int mapToLower input
                    = Panic MakeSliceLenOutOfRange)
            end
        end)
  /\ (forall count_text sides_text modifier,
        all_digits count_text = true -> all_digits sides_text = true ->
        - maxInt <= modifier <= maxInt ->
        let notation := notation_text count_text sides_text modifier in
        match positive_int sides_text with
        | None =>
            Part000.rollDice rand_Int mapToLower {| Part000.Notation' := notation |}
            = Ok (invalid notation)
        | Some sides =>
            let count := default 1 (positive_int count_text) in
            (count <= maxLen ->
             exists rolls total,
               Part000.rollDice rand_Int mapToLower {| Part000.Notation' := notation |}
               = Ok (Rolled count sides modifier rolls total
                       (report notation modifier rolls total))
               /\ Z.of_nat (length rolls) = count)
            /\ (maxLen < count ->
                Part000.rollDice rand_Int mapToLower {| Part000.Notation' := notation |}
                = Panic MakeSliceLenOutOfRange)
        end).
Proof.
  intros He invalid structured report. split; [|split].
  - intros input Hwf count sides. split.
    + intros Hc. destruct (Main_rollDice_spec rand_Int He input Hwf Hc) as [Heq (Hlen & _)].
      eexists _, _. split; [exact Heq | exact Hlen].
    + apply Main_rollDice_too_long.
  - intros input notation Hne.
    destruct (partsOf mapToLower notation) as [[c s]|] eqn:Hp.
    + pose proof (rollDice_reads rand_Int mapToLower He input c s (modifierOf notation)
                    Hp eq_refl) as H.
      destruct (positive_int s) as [sides|]; [|exact H].
      destruct H as [Hok Hpanic]. split; [|exact Hpanic].
      intros Hc. destruct (Hok Hc) as [Heq (Hlen & _)].
      eexists _, _. split; [exact Heq | exact Hlen].
    + apply Part000_rollDice_invalid; [done|]. fold notation. by rewrite Hp.
  - intros ct st modifier Hct Hst Hm notation.
    destruct (notation_text_reads mapToLower ct st modifier Hct Hst Hm) as (Ht & Hp & Hmod).
    pose proof (rollDice_reads rand_Int mapToLower He {| Part000.Notation' := notation |}
                  ct st modifier) as H.
    cbn [Part000.Notation'] in H. fold notation in Ht, Hp, Hmod. rewrite Ht in H.
    specialize (H Hp Hmod).
    destruct (positive_int st) as [sides|]; [|exact H].
    destruct H as [Hok Hpanic]. split; [|exact Hpanic].
    intros Hc. destruct (Hok Hc) as [Heq (Hlen & _)].
    eexists _, _. split; [exact Heq | exact Hlen].
Qed.

(** C2, witness: defaults in the structured form; d6, 2d, 2d0, 26, 0d4+2 and
    7d-1 in the notation form. *)
Lemma C2_defaults_witness :
  (exists rolls total,
     Main.rollDice zero_entropy {| Main.Count := 0; Main.Sides := -4; Main.Modifier := 0 |}
     = Ok (Rolled 1 1 0 rolls total
             (NewTextResponse ("Rolling 1d1: " +:+ fmt_ints rolls +:+ " = " +:+ fmt_d total),
              None))
     /\ Z.of_nat (length rolls) = 1)
  /\ (exists rolls total,
        Part000.rollDice zero_entropy ascii_only {| Part000.Notation' := "d6" |}
        = Ok (Rolled 1 6 0 rolls total
                (NewTextResponse
                   ("🎲 Rolling d6: " +:+ fmt_ints rolls +:+ " = **" +:+ fmt_d total +:+ "**"),
                 None))
        /\ Z.of_nat (length rolls) = 1)
  /\ Part000.rollDice zero_entropy ascii_only {| Part000.Notation' := "2d" |}
     = Ok (Invalid (NewTextResponse "Invalid dice notation: 2d", None))
  /\ Part000.rollDice zero_entropy ascii_only {| Part000.Notation' := "2d0" |}
     = Ok (Invalid (NewTextResponse "Invalid dice notation: 2d0", None))
  /\ Part000.rollDice zero_entropy ascii_only {| Part000.Notation' := "26" |}
     = Ok (Invalid (NewTextResponse "Invalid dice notation: 26", None))
  /\ (exists rolls total,
        Part000.rollDice zero_entropy ascii_only {| Part000.Notation' := "0d4+2" |}
        = Ok (Rolled 1 4 2 rolls total
                (NewTextResponse
                   ("🎲 Rolling 0d4+2: " +:+ fmt_ints rolls +:+ " +2 = **" +:+ fmt_d total
                      +:+ "**"), None))
        /\ Z.of_nat (length rolls) = 1)
  /\ Part000.rollDice zero_entropy ascii_only {| Part000.Notation' := "7d-1" |}
     = Ok (Invalid (NewTextResponse "Invalid dice notation: 7d-1", None)).
Proof.
  destruct (C2_count_defaults_sides_checked zero_entropy ascii_only zero_entropy_ok)
    as (Hm & Hn & Ht).
  split; [|split; [|split; [|split; [|split; [|split]]]]].
  - apply (Hm {| Main.Count := 0; Main.Sides := -4; Main.Modifier := 0 |});
      [repeat split; vm_compute; congruence | vm_compute; congruence].
  - apply (Hn {| Part000.Notation' := "d6" |}); vm_compute; congruence.
  - apply (Hn {| Part000.Notation' := "2d" |}). vm_compute. congruence.
  - apply (Hn {| Part000.Notation' := "2d0" |}). vm_compute. congruence.
  - apply (Hn {| Part000.Notation' := "26" |}). vm_compute. congruence.
  - apply (Ht "0"%string "4"%string 2); [done | done | unfold maxInt; lia
                                         | vm_compute; congruence].
  - apply (Ht "7"%string ""%string (-1)); [done | done | unfold maxInt; lia].
Defined.

(** C2, counterexample: the structured form with [sides = 0] rolls 2d1. *)
Lemma C2_structured_sides_default_counterexample :
  Main.rollDice zero_entropy {| Main.Count := 2; Main.Sides := 0; Main.Modifier := 0 |}
  = Ok (Rolled 2 1 0 [1; 1] 2 (NewTextResponse "Rolling 2d1: [1 1] = 2", None))
  /\ ~ is_invalid (Rolled 2 1 0 [1; 1] 2 (NewTextResponse "Rolling 2d1: [1 1] = 2", None)).
Proof. split; [vm_compute; reflexivity | intros []]. Qed.

(** C3. On a notation that is empty once trimmed, [rollDice] of part_000
    panics: it slices [notation[1:]] before it looks at the notation. *)
Theorem C3_blank_notation_panics
  (rand_Int : nat -> Z -> Z) (mapToLower : string -> string) (input : Part000.diceQuery) :
  TrimSpace (Part000.Notation' input) = EmptyString ->
  Part000.rollDice rand_Int mapToLower input = Panic SliceBoundsOutOfRange.
Proof. apply rollDice_blank. Qed.

(** C3, witness: the empty notation, and two spaces. *)
Lemma C3_blank_notation_witness :
  Part000.rollDice zero_entropy ascii_only {| Part000.Notation' := "" |}
  = Panic SliceBoundsOutOfRange
  /\ Part000.rollDice zero_entropy ascii_only {| Part000.Notation' := "  " |}
     = Panic SliceBoundsOutOfRange.
Proof.
  split.
  - exact (C3_blank_notation_panics zero_entropy ascii_only {| Part000.Notation' := "" |}
             eq_refl).
  - exact (C3_blank_notation_panics zero_entropy ascii_only {| Part000.Notation' := "  " |}
             eq_refl).
Defined.

(** C4. With options on offer, [askPlayer] prints the banner and one line
    per option and runs its loop on the pending lines. Every round of the loop
    prints the prompt "\nChoose [1-<n>]: ". A line that reads (blanks trimmed)
    as an integer [c] within [[1, len(options)]] ends the call: it echoes
    "-> <options[c-1]>\n\n" and returns the text
    "The player chose: <options[c-1]>" with a [nil] error, so the line ["3"]
    picks the third of five options and the line ["1"] the first of any. A
    line that does not read as an integer or is out of that range prints
    "Pick a number between 1 and <n>.\n" and goes round the loop on the lines
    that follow, returning nothing. On the end of the input the call returns
    the text "The player has left the game." with a [nil] error. *)
Theorem C4_askPlayer_gate (input : Main.askPlayerInput) :
  Main.Options input <> [] ->
  let opts := Main.Options input in
  let n := offered opts in
  let prompt := nl +:+ "Choose [1-" +:+ fmt_d n +:+ "]: " in
  let hint := "Pick a number between 1 and " +:+ fmt_d n +:+ "." +:+ nl in
  let chose := fun chosen : string =>
    (NewTextResponse ("The player chose: " +:+ chosen), None : option error) in
  let left := (NewTextResponse "The player has left the game.", None : option error) in
  let echoed := fun chosen : string => "-> " +:+ chosen +:+ nl +:+ nl in
  let shown := fun c : Main.console =>
    Main.printed c
    ++ [nl +:+ nl +:+ "--- YOUR TURN ---" +:+ nl +:+ Main.Question input +:+ nl +:+ nl]
    ++ imap (fun i opt => "  " +:+ fmt_d (Z.of_nat i + 1) +:+ ". " +:+ opt +:+ nl) opts in
  (forall c, Main.askPlayer input c = Main.askLoop opts (Main.pending c) (shown c))
  /\ (forall line rest out choice,
        Atoi (TrimSpace line) = Some choice -> 1 <= choice <= n ->
        exists chosen,
          opts !! Z.to_nat (choice - 1) = Some chosen
          /\ Main.askLoop opts (line :: rest) out
             = Ok (chose chosen,
                   {| Main.pending := rest;
                      Main.printed := out ++ [prompt; echoed chosen] |}))
  /\ (forall o1 o2 o3 o4 o5 rest out,
        opts = [o1; o2; o3; o4; o5] ->
        Main.askLoop opts ("3"%string :: rest) out
        = Ok (chose o3,
              {| Main.pending := rest; Main.printed := out ++ [prompt; echoed o3] |}))
  /\ (exists first, forall rest out,
        Main.askLoop opts ("1"%string :: rest) out
        = Ok (chose first,
              {| Main.pending := rest; Main.printed := out ++ [prompt; echoed first] |}))
  /\ (forall line rest out,
        rejected n line ->
        Main.askLoop opts (line :: rest) out
        = Main.askLoop opts rest (out ++ [prompt; hint]))
  /\ (forall lines out,
        exists r c,
          Main.askLoop opts lines out = Ok (r, c)
          /\ (out ++ [prompt]) `prefix_of` Main.printed c)
  /\ (forall out,
        Main.askLoop opts [] out
        = Ok (left, {| Main.pending := []; Main.printed := out ++ [prompt] |})).
Proof.
  intros Hne opts n prompt hint chose left echoed shown. repeat split.
  - intros c. rewrite askPlayer_askLoop. f_equal. apply announced_printed.
  - intros line rest out choice Ha Hc. by apply askLoop_accept.
  - intros o1 o2 o3 o4 o5 rest out Ho.
    destruct (askLoop_accept opts "3" rest out 3) as (chosen & Hl & Heq);
      [done | rewrite Ho; unfold offered; simpl; lia |].
    rewrite Ho in Hl. injection Hl as <-. rewrite Heq. done.
  - destruct opts as [|first os] eqn:Ho; [done|]. exists first. intros rest out.
    destruct (askLoop_accept (first :: os) "1" rest out 1) as (chosen & Hl & Heq);
      [done | unfold offered; simpl; lia |].
    injection Hl as <-. subst n. by rewrite Heq.
  - intros line rest out Hr. by apply askLoop_reject.
  - intros lines out. apply askLoop_prompts.
Qed.

(** C4, witness: "abc" and "9" are turned down, "3" picks the third option;
    "0" is turned down and the input ends. *)
Lemma C4_askPlayer_witness :
  let banner := nl +:+ nl +:+ "--- YOUR TURN ---" +:+ nl +:+ "What do you do?" +:+ nl +:+ nl in
  let options := ["  1. Enter" +:+ nl; "  2. Listen" +:+ nl; "  3. Cast Shield" +:+ nl;
                  "  4. Search" +:+ nl; "  5. Leave" +:+ nl] in
  let prompt := nl +:+ "Choose [1-5]: " in
  let hint := "Pick a number between 1 and 5." +:+ nl in
  Main.askPlayer five_options {| Main.pending := ["abc"; "9"; "3"; "1"]; Main.printed := [] |}
  = Ok ((NewTextResponse "The player chose: Cast Shield", None),
        {| Main.pending := ["1"];
           Main.printed :=
             [banner] ++ options
             ++ [prompt; hint; prompt; hint; prompt; "-> Cast Shield" +:+ nl +:+ nl] |})
  /\ Main.askPlayer five_options {| Main.pending := ["0"]; Main.printed := [] |}
     = Ok ((NewTextResponse "The player has left the game.", None),
           {| Main.pending := [];
              Main.printed := [banner] ++ options ++ [prompt; hint; prompt] |}).
Proof.
  intros banner options prompt hint.
  destruct (C4_askPlayer_gate five_options ltac:(discriminate))
    as (Hloop & _ & Hthird & _ & Hrej & _ & Hclosed).
  split.
  - rewrite Hloop. cbn [Main.pending].
    rewrite (Hrej "abc"%string) by exact I.
    rewrite (Hrej "9"%string) by (right; reflexivity).
    rewrite (Hthird "Enter" "Listen" "Cast Shield" "Search" "Leave")%string by reflexivity.
    reflexivity.
  - rewrite Hloop. cbn [Main.pending].
    rewrite (Hrej "0"%string) by (left; reflexivity).
    rewrite Hclosed. reflexivity.
Defined.

(** C5. Whatever the name, when [http.Get] fails [lookupMonster] and
    [lookupSpell] return the text "Failed to reach D&D API", and on a 404
    status they return "Monster '<name>' not found" and "Spell '<name>' not
    found", which contain the name as it was given, not its slug; in both
    cases the text comes with a [nil] error. *)
Theorem C5_lookup_failures_are_text
  (mapToLower : string -> string)
  (http_Get : string -> option Main.Response)
  (json_Unmarshal : string -> list (string * any))
  (Sprint_v Sprint_s : any -> string) (name : string) :
  (http_Get (monsterURL mapToLower name) = None ->
   Main.lookupMonster mapToLower http_Get json_Unmarshal Sprint_v Sprint_s {| Main.Name := name |}
   = Ok (NewTextResponse "Failed to reach D&D API", None))
  /\ (forall body,
        http_Get (monsterURL mapToLower name)
        = Some {| Main.StatusCode := 404; Main.Body := body |} ->
        Main.lookupMonster mapToLower http_Get json_Unmarshal Sprint_v Sprint_s
          {| Main.Name := name |}
        = Ok (NewTextResponse ("Monster '" +:+ name +:+ "' not found"), None)
        /\ contains ("Monster '" +:+ name +:+ "' not found") name)
  /\ (http_Get (spellURL mapToLower name) = None ->
      Main.lookupSpell mapToLower http_Get json_Unmarshal Sprint_v Sprint_s {| Main.Name' := name |}
      = Ok (NewTextResponse "Failed to reach D&D API", None))
  /\ (forall body,
        http_Get (spellURL mapToLower name)
        = Some {| Main.StatusCode := 404; Main.Body := body |} ->
        Main.lookupSpell mapToLower http_Get json_Unmarshal Sprint_v Sprint_s
          {| Main.Name' := name |}
        = Ok (NewTextResponse ("Spell '" +:+ name +:+ "' not found"), None)
        /\ contains ("Spell '" +:+ name +:+ "' not found") name).
Proof.
  split; [|split; [|split]].
  - apply lookupMonster_unreachable.
  - intros body H. split; [|apply contains_middle].
    by apply (lookupMonster_not_found _ _ _ _ _ _ _ H).
  - apply lookupSpell_unreachable.
  - intros body H. split; [|apply contains_middle].
    by apply (lookupSpell_not_found _ _ _ _ _ _ _ H).
Qed.

(** C5, witness. *)
Lemma C5_lookup_failures_witness :
  Main.lookupMonster ascii_only unreachable no_record blank_Sprint blank_Sprint
    {| Main.Name := "Giant Owl" |}
  = Ok (NewTextResponse "Failed to reach D&D API", None)
  /\ Main.lookupMonster ascii_only (answers 404 "") no_record blank_Sprint blank_Sprint
       {| Main.Name := "Giant Owl" |}
     = Ok (NewTextResponse "Monster 'Giant Owl' not found", None)
  /\ Main.lookupSpell ascii_only unreachable no_record blank_Sprint blank_Sprint
       {| Main.Name' := "Misty Step" |}
     = Ok (NewTextResponse "Failed to reach D&D API", None)
  /\ Main.lookupSpell ascii_only (answers 404 "") no_record blank_Sprint blank_Sprint
       {| Main.Name' := "Misty Step" |}
     = Ok (NewTextResponse "Spell 'Misty Step' not found", None).
Proof.
  pose proof (C5_lookup_failures_are_text ascii_only unreachable no_record
                blank_Sprint blank_Sprint) as Hdown.
  pose proof (C5_lookup_failures_are_text ascii_only (answers 404 "") no_record
                blank_Sprint blank_Sprint) as Hmiss.
  split; [|split; [|split]].
  - exact (proj1 (Hdown "Giant Owl"%string) eq_refl).
  - exact (proj1 (proj1 (proj2 (Hmiss "Giant Owl"%string)) ""%string eq_refl)).
  - exact (proj1 (proj2 (proj2 (Hdown "Misty Step"%string))) eq_refl).
  - exact (proj1 (proj2 (proj2 (proj2 (Hmiss "Misty Step"%string))) ""%string eq_refl)).
Defined.

(** C6. [lookupMonster] panics on a fetched record whose [actions] list holds
    an element that is not an object: with status 200, as soon as the list has
    such an element after objects only, the type assertion in the loop over
    [actions] fails, whatever the name and the formatting of the fields. *)
Theorem C6_non_object_action_panics
  (mapToLower : string -> string)
  (http_Get : string -> option Main.Response)
  (json_Unmarshal : string -> list (string * any))
  (Sprint_v Sprint_s : any -> string)
  (input : Main.monsterQuery) (resp : Main.Response) (l1 : list any) (a : any) (l2 : list any) :
  http_Get (monsterURL mapToLower (Main.Name input)) = Some resp ->
  Main.StatusCode resp = 200 ->
  map_index (json_Unmarshal (Main.Body resp)) "actions" = ASlice (l1 ++ a :: l2) ->
  all_maps l1 ->
  match a with AMap _ => False | _ => True end ->
  Main.lookupMonster mapToLower http_Get json_Unmarshal Sprint_v Sprint_s input
  = Panic InterfaceConversion.
Proof. apply lookupMonster_panics. Qed.

(** C6, witness: the record [owlbear_record], whose only action is a string. *)
Lemma C6_non_object_action_witness :
  Main.lookupMonster ascii_only (answers 200 "") (fun _ => owlbear_record)
    blank_Sprint blank_Sprint {| Main.Name := "Owlbear" |}
  = Panic InterfaceConversion.
Proof.
  apply (C6_non_object_action_panics ascii_only (answers 200 "") (fun _ => owlbear_record)
           blank_Sprint blank_Sprint {| Main.Name := "Owlbear" |}
           {| Main.StatusCode := 200; Main.Body := "" |} [] (AString "Multiattack") []);
    [reflexivity | reflexivity | reflexivity | constructor | exact I].
Defined.

(** C7. At any iteration the loop has reached, if [agent.Stream] fails and
    [sigCtx.Err()] is not [nil], [gameLoop] returns [nil]; if it fails and
    [sigCtx.Err()] is [nil], [gameLoop] returns the error wrapped as "stream: ...",
    and so it does when the error is the deadline's. *)
Theorem C7_failure_ends_loop
  (Stream : nat -> string -> list Message -> Main.streamed)
  (sigCtx_Err : nat -> option error)
  (t : nat) (history : list Message) (prompt : string) (err : error) :
  Main.gameLoop Stream sigCtx_Err t = Main.Running history prompt ->
  Stream t prompt history = Main.StreamErr err ->
  (forall cause, sigCtx_Err t = Some cause ->
     forall n, (t < n)%nat -> Main.gameLoop Stream sigCtx_Err n = Main.Returned None)
  /\ (sigCtx_Err t = None ->
      forall n, (t < n)%nat ->
        Main.gameLoop Stream sigCtx_Err n = Main.Returned (Some (Errorf_w "stream: " err)))
  /\ (sigCtx_Err t = None -> err = Main.DeadlineExceeded ->
      forall n, (t < n)%nat ->
        Main.gameLoop Stream sigCtx_Err n
        = Main.Returned (Some (Errorf_w "stream: " Main.DeadlineExceeded))).
Proof.
  intros Ht Hs.
  assert (Hn : forall n, (t < n)%nat ->
    Main.gameLoop Stream sigCtx_Err n = Main.turn Stream sigCtx_Err t history prompt).
  { intros n Hlt. rewrite (gameLoop_from _ _ t n history prompt Ht) by lia.
    replace (n - t)%nat with (S (n - t - 1)) by lia.
    cbn [Main.iterate]. unfold Main.turn. rewrite Hs. by destruct (sigCtx_Err t). }
  split; [|split].
  - intros cause Hc n Hlt. rewrite Hn by done. unfold Main.turn. by rewrite Hs, Hc.
  - intros Hc n Hlt. rewrite Hn by done. unfold Main.turn. by rewrite Hs, Hc.
  - intros Hc -> n Hlt. rewrite Hn by done. unfold Main.turn. by rewrite Hs, Hc.
Qed.

(** C7, witness: the third Turn fails, after an interrupt and on a deadline. *)
Lemma C7_failure_witness :
  Main.gameLoop (scripted_Stream 2 (ErrNew "model crashed")) (scripted_signal true) 5
  = Main.Returned None
  /\ Main.gameLoop (scripted_Stream 2 Main.DeadlineExceeded) (scripted_signal false) 5
     = Main.Returned (Some (Errorf_w "stream: " Main.DeadlineExceeded)).
Proof.
  split.
  - refine (proj1 (C7_failure_ends_loop (scripted_Stream 2 (ErrNew "model crashed"))
                     (scripted_signal true) 2 _ "Continue." (ErrNew "model crashed")
                     eq_refl eq_refl) Main.Canceled eq_refl 5%nat _). lia.
  - refine (proj1 (proj2 (C7_failure_ends_loop (scripted_Stream 2 Main.DeadlineExceeded)
                     (scripted_signal false) 2 _ "Continue." Main.DeadlineExceeded
                     eq_refl eq_refl)) eq_refl 5%nat _). lia.
Defined.

(** C8. At any iteration the loop has reached, when [agent.Stream] succeeds
    the loop goes on with the history it had followed by the Messages of every
    Step, Step after Step and in each Step's order, and with the prompt
    "Continue."; and the history it had stays a prefix of the history at every
    later iteration. *)
Theorem C8_history_appended_in_order
  (Stream : nat -> string -> list Message -> Main.streamed)
  (sigCtx_Err : nat -> option error)
  (t : nat) (history : list Message) (prompt : string) (result : AgentResult) :
  Main.gameLoop Stream sigCtx_Err t = Main.Running history prompt ->
  Stream t prompt history = Main.StreamOk result ->
  Main.gameLoop Stream sigCtx_Err (S t)
  = Main.Running (history ++ concat (map Messages (Steps result))) "Continue."
  /\ (forall n h p, (t <= n)%nat ->
        Main.gameLoop Stream sigCtx_Err n = Main.Running h p -> history `prefix_of` h)
  /\ (forall n h p, (t < n)%nat ->
        Main.gameLoop Stream sigCtx_Err n = Main.Running h p ->
        (history ++ concat (map Messages (Steps result))) `prefix_of` h /\ p = "Continue."%string).
Proof.
  intros Ht Hs.
  assert (Hnext : Main.gameLoop Stream sigCtx_Err (S t)
    = Main.Running (history ++ concat (map Messages (Steps result))) "Continue.").
  { rewrite (gameLoop_from _ _ t (S t) history prompt Ht) by lia.
    replace (S t - t)%nat with 1%nat by lia.
    cbn [Main.iterate]. unfold Main.turn. by rewrite Hs, append_steps. }
  split; [done|split].
  - intros n h p Hn Hr. rewrite (gameLoop_from _ _ t n history prompt Ht) in Hr by lia.
    by eapply iterate_prefix.
  - intros n h p Hn Hr. rewrite (gameLoop_from _ _ (S t) n _ _ Hnext) in Hr by lia.
    split; [by eapply iterate_prefix | by eapply iterate_prompt].
Qed.

(** C8, witness: two Turns of two Steps each. *)
Lemma C8_history_witness :
  Main.gameLoop (scripted_Stream 9 Main.Canceled) (scripted_signal false) 2
  = Main.Running
      [Msg "assistant" "a"; Msg "tool" "b"; Msg "assistant" "c";
       Msg "assistant" "a"; Msg "tool" "b"; Msg "assistant" "c"] "Continue.".
Proof.
  exact (proj1 (C8_history_appended_in_order (scripted_Stream 9 Main.Canceled)
                  (scripted_signal false) 1
                  [Msg "assistant" "a"; Msg "tool" "b"; Msg "assistant" "c"] "Continue."
                  two_steps eq_refl eq_refl)).
Defined.

(** C9. On the notation 2d6+3, when the two draws on 6 are 3 and 4 (outcomes
    4 and 5), [rollDice] reads count 2, sides 6 and modifier 3, and reports
    the total 12. *)
Theorem C9_2d6_plus_3_totals_12 (rand_Int : nat -> Z -> Z) (mapToLower : string -> string) :
  rand_Int 0%nat 6 = 3 -> rand_Int 1%nat 6 = 4 ->
  Part000.rollDice rand_Int mapToLower {| Part000.Notation' := "2d6+3" |}
  = Ok (Rolled 2 6 3 [4; 5] 12
          (NewTextResponse "🎲 Rolling 2d6+3: [4 5] +3 = **12**", None)).
Proof.
  intros H0 H1.
  rewrite rollDice_parse by (vm_compute; congruence). cbv zeta.
  assert (Hp : partsOf mapToLower (TrimSpace (Part000.Notation' {| Part000.Notation' := "2d6+3" |}))
               = Some ("2"%string, "6"%string)) by (vm_compute; reflexivity).
  rewrite Hp.
  assert (Hs : positive_int "6" = Some 6) by reflexivity. rewrite Hs.
  assert (Hc : default 1 (positive_int "2") = 2) by reflexivity. rewrite Hc.
  rewrite (rollAll_ext rand_Int draws_4_5).
  - vm_compute. reflexivity.
  - intros [|[|j]] Hj; [exact H0 | exact H1 | simpl in Hj; lia].
Qed.

(** C9, witness. *)
Lemma C9_2d6_plus_3_witness :
  Part000.rollDice draws_4_5 ascii_only {| Part000.Notation' := "2d6+3" |}
  = Ok (Rolled 2 6 3 [4; 5] 12
          (NewTextResponse "🎲 Rolling 2d6+3: [4 5] +3 = **12**", None)).
Proof.
  exact (C9_2d6_plus_3_totals_12 draws_4_5 ascii_only eq_refl eq_refl).
Defined.

(** C10. Without options every line is turned down, whatever it holds: the
    call prints the banner, then the prompt "\nChoose [1-0]: " and the hint
    "Pick a number between 1 and 0.\n" once per pending line, consumes them
    all and, when the input ends, prints the prompt once more and returns the
    text "The player has left the game." with a [nil] error. *)
Theorem C10_no_options_only_leaves (question : string) (c : Main.console) :
  (forall line, rejected 0 line)
  /\ Main.askPlayer {| Main.Question := question; Main.Options := [] |} c
     = Ok ((NewTextResponse "The player has left the game.", None),
           {| Main.pending := [];
              Main.printed :=
                Main.printed c
                ++ [nl +:+ nl +:+ "--- YOUR TURN ---" +:+ nl +:+ question +:+ nl +:+ nl]
                ++ concat (map (fun _ => [nl +:+ "Choose [1-0]: ";
                                          "Pick a number between 1 and 0." +:+ nl])
                             (Main.pending c))
                ++ [nl +:+ "Choose [1-0]: "] |}).
Proof.
  split; [apply rejected_without_options|].
  rewrite askPlayer_askLoop. cbn [Main.Options].
  rewrite (askLoop_all_rejected []);
    [|apply Forall_forall; intros line _; apply rejected_without_options].
  rewrite announced_printed. cbn [Main.Options Main.Question imap].
  by rewrite app_nil_r, <- app_assoc.
Qed.

(** ** Further properties of the code *)

(** X1. [gameLoop] returns only after a failed call. When [gameLoop] has
    returned, some call of [agent.Stream] failed at an iteration the loop had
    reached; the value returned is [nil] if [sigCtx.Err()] was not [nil] then,
    and otherwise that call's error wrapped as "stream: ...". So the loop
    never ends while the agent succeeds, never returns [nil] without an
    interrupt and never returns an error of its own. *)
Theorem gameLoop_returns_only_after_failure
  (Stream : nat -> string -> list Message -> Main.streamed)
  (sigCtx_Err : nat -> option error) (n : nat) (e : option error) :
  Main.gameLoop Stream sigCtx_Err n = Main.Returned e ->
  exists t h p err,
    (t < n)%nat
    /\ Main.gameLoop Stream sigCtx_Err t = Main.Running h p
    /\ Stream t p h = Main.StreamErr err
    /\ match sigCtx_Err t with
       | Some _ => e = None
       | None => e = Some (Errorf_w "stream: " err)
       end.
Proof.
  induction n as [|n IH]; [done|].
  rewrite gameLoop_S. destruct (Main.gameLoop Stream sigCtx_Err n) as [h p|e'] eqn:Hn.
  - unfold Main.turn. destruct (Stream n p h) as [r|err] eqn:Hs; [done|].
    intros H. exists n, h, p, err. split; [lia|]. split; [done|]. split; [done|].
    destruct (sigCtx_Err n); by injection H as <-.
  - intros [= <-]. destruct (IH eq_refl) as (t & h & p & err & Ht & H).
    exists t, h, p, err. split; [lia|done].
Qed.

(** X1, witness: the third Turn of a scripted agent fails without an interrupt. *)
Lemma gameLoop_returns_only_after_failure_witness :
  exists t h p err,
    (t < 5)%nat
    /\ Main.gameLoop (scripted_Stream 2 (ErrNew "model crashed")) (scripted_signal false) t
       = Main.Running h p
    /\ scripted_Stream 2 (ErrNew "model crashed") t p h = Main.StreamErr err
    /\ match scripted_signal false t with
       | Some _ => Some (Errorf_w "stream: " (ErrNew "model crashed")) = None
       | None => Some (Errorf_w "stream: " (ErrNew "model crashed"))
                 = Some (Errorf_w "stream: " err)
       end.
Proof.
  exact (gameLoop_returns_only_after_failure (scripted_Stream 2 (ErrNew "model crashed"))
           (scripted_signal false) 5 (Some (Errorf_w "stream: " (ErrNew "model crashed")))
           eq_refl).
Defined.

(** X2. The history is what the agent returned, whole and in order. While the
    loop runs, after [n] iterations the history is the concatenation of the
    Messages of the [n] results [agent.Stream] returned, call after call; the
    prompt of the first call was "Begin." and of every later one
    "Continue.", and each call was handed the Messages of the results before
    it: nothing is dropped, repeated or reordered. *)
Theorem gameLoop_history_is_all_results
  (Stream : nat -> string -> list Message -> Main.streamed)
  (sigCtx_Err : nat -> option error) (n : nat) (h : list Message) (p : string) :
  Main.gameLoop Stream sigCtx_Err n = Main.Running h p ->
  exists rs,
    length rs = n /\ h = gathered rs /\ p = promptAt n
    /\ forall t r, rs !! t = Some r ->
         Stream t (promptAt t) (gathered (take t rs)) = Main.StreamOk r.
Proof.
  revert h p. induction n as [|n IH]; intros h p.
  - intros [= <- <-]. exists []. repeat split; done.
  - rewrite gameLoop_S. destruct (Main.gameLoop Stream sigCtx_Err n) as [h0 p0|e'] eqn:Hn; [|done].
    destruct (IH h0 p0 eq_refl) as (rs & Hlen & -> & -> & Hcalls).
    unfold Main.turn. destruct (Stream n (promptAt n) (gathered rs)) as [r|err] eqn:Hs.
    + rewrite append_steps. intros [= <- <-]. exists (rs ++ [r]).
      split; [rewrite List.length_app; simpl; lia|]. split; [by rewrite gathered_snoc|].
      split; [done|]. intros t r' Ht.
      destruct (decide (t < length rs)%nat) as [Hlt|Hge].
      * rewrite lookup_app_l in Ht by done. rewrite take_app_le by lia. by apply Hcalls.
      * rewrite lookup_app_r in Ht by lia.
        destruct (t - length rs)%nat as [|k] eqn:Hk; [|done].
        injection Ht as <-. assert (t = n) as -> by lia.
        rewrite take_app_length' by done. done.
    + by destruct (sigCtx_Err n).
Qed.

(** X2, witness: two Turns of a steady agent. *)
Lemma gameLoop_history_is_all_results_witness :
  exists rs,
    length rs = 2%nat
    /\ [Msg "assistant" "a"; Msg "tool" "b"; Msg "assistant" "c";
        Msg "assistant" "a"; Msg "tool" "b"; Msg "assistant" "c"] = gathered rs
    /\ "Continue."%string = promptAt 2
    /\ forall t r, rs !! t = Some r ->
         steady_Stream t (promptAt t) (gathered (take t rs)) = Main.StreamOk r.
Proof.
  exact (gameLoop_history_is_all_results steady_Stream (scripted_signal false) 2 _ _ eq_refl).
Defined.

(** X3. The total lies between the bounds of the dice. With an entropy source
    that keeps its contract and a count of at most [2^45], whenever
    [count + modifier] and [count * sides + modifier] are values of [int],
    [rollDice] returns its report with a [nil] error and the total in it is
    at least [count + modifier] and at most [count * sides + modifier]: in
    the structured form for the clamped count and sides, in the notation form
    for what the grammar reads. *)
Theorem rollDice_total_within_bounds
  (rand_Int : nat -> Z -> Z) (mapToLower : string -> string) :
  entropy_ok rand_Int ->
  let structured := fun (count sides modifier : Z) (rolls : list Z) (total : Z) =>
    (NewTextResponse
       ("Rolling " +:+ fmt_d count +:+ "d" +:+ fmt_d sides
          +:+ (if modifier =? 0 then EmptyString else fmt_plus_d modifier)
          +:+ ": " +:+ fmt_ints rolls +:+ " = " +:+ fmt_d total), None : option error) in
  let report := fun (notation : string) (modifier : Z) (rolls : list Z) (total : Z) =>
    (NewTextResponse
       ("🎲 Rolling " +:+ notation +:+ ": " +:+ fmt_ints rolls
          +:+ (if modifier =? 0 then EmptyString else " " +:+ fmt_plus_d modifier)
          +:+ " = **" +:+ fmt_d total +:+ "**"), None : option error) in
  (forall input, wf_diceQuery input ->
     let count := Z.max (Main.Count input) 1 in
     let sides := Z.max (Main.Sides input) 1 in
     let modifier := Main.Modifier input in
     count <= maxLen -> inInt (count + modifier) -> inInt (count * sides + modifier) ->
     exists rolls total,
       Main.rollDice rand_Int input
       = Ok (Rolled count sides modifier rolls total
               (structured count sides modifier rolls total))
       /\ count + modifier <= total <= count * sides + modifier)
  /\ (forall input c s sides,
        let notation := TrimSpace (Part000.Notation' input) in
        partsOf mapToLower notation = Some (c, s) ->
        positive_int s = Some sides ->
        let count := default 1 (positive_int c) in
        let modifier := modifierOf notation in
        count <= maxLen -> inInt (count + modifier) -> inInt (count * sides + modifier) ->
        exists rolls total,
          Part000.rollDice rand_Int mapToLower input
          = Ok (Rolled count sides modifier rolls total
                  (report notation modifier rolls total))
          /\ count + modifier <= total <= count * sides + modifier).
Proof.
  intros He structured report. split.
  - intros input Hwf count sides modifier Hc Hlo Hhi.
    destruct (Main_rollDice_spec rand_Int He input Hwf Hc) as [Heq Hlaw].
    eexists _, _. split; [exact Heq|]. by eapply dice_law_within.
  - intros input c s sides notation Hp Hs count modifier Hc Hlo Hhi.
    destruct (Part000_rollDice_spec rand_Int mapToLower He input c s sides Hp Hs Hc)
      as (Heq & _ & _ & Hlaw).
    eexists _, _. split; [exact Heq|]. by eapply dice_law_within.
Qed.

(** X3, witness: 2d6+3 in the two forms, between 5 and 15. *)
Lemma rollDice_total_within_bounds_witness :
  (exists rolls total,
     Main.rollDice zero_entropy {| Main.Count := 2; Main.Sides := 6; Main.Modifier := 3 |}
     = Ok (Rolled 2 6 3 rolls total
             (NewTextResponse
                ("Rolling 2d6+3: " +:+ fmt_ints rolls +:+ " = " +:+ fmt_d total), None))
     /\ 2 + 3 <= total <= 2 * 6 + 3)
  /\ (exists rolls total,
        Part000.rollDice zero_entropy ascii_only {| Part000.Notation' := "2d6+3" |}
        = Ok (Rolled 2 6 3 rolls total
                (NewTextResponse
                   ("🎲 Rolling 2d6+3: " +:+ fmt_ints rolls +:+ " +3 = **" +:+ fmt_d total
                      +:+ "**"), None))
        /\ 2 + 3 <= total <= 2 * 6 + 3).
Proof.
  destruct (rollDice_total_within_bounds zero_entropy ascii_only zero_entropy_ok) as (Hm & Hn).
  split.
  - apply (Hm {| Main.Count := 2; Main.Sides := 6; Main.Modifier := 3 |});
      [repeat split; vm_compute; congruence | vm_compute; congruence
       | split; vm_compute; congruence | split; vm_compute; congruence].
  - apply (Hn {| Part000.Notation' := "2d6+3" |} "2"%string "6"%string 6 eq_refl eq_refl);
      [vm_compute; congruence | split; vm_compute; congruence
       | split; vm_compute; congruence].
Defined.

(** X4. What the structured roller prints, the notation roller reads back.
    For every structured input with a clamped count of at most [2^45] and a
    modifier above the smallest [int], and for any entropy source, the
    response of main.go's [rollDice] names the expression as
    [<count>d<sides>[+|-<modifier>]], and part_000's [rollDice] on that very
    notation reads the same count, sides and modifier and, drawing from the
    same entropy source, reports the same rolls and the same total. *)
Theorem structured_notation_reads_back
  (rand_Int : nat -> Z -> Z) (mapToLower : string -> string) (input : Main.diceQuery) :
  wf_diceQuery input -> Z.max (Main.Count input) 1 <= maxLen ->
  - maxInt <= Main.Modifier input ->
  let count := Z.max (Main.Count input) 1 in
  let sides := Z.max (Main.Sides input) 1 in
  let modifier := Main.Modifier input in
  let notation :=
    fmt_d count +:+ "d" +:+ fmt_d sides
      +:+ (if modifier =? 0 then EmptyString else fmt_plus_d modifier) in
  exists rolls total,
    Main.rollDice rand_Int input
    = Ok (Rolled count sides modifier rolls total
            (NewTextResponse
               ("Rolling " +:+ notation +:+ ": " +:+ fmt_ints rolls
                  +:+ " = " +:+ fmt_d total), None))
    /\ Part000.rollDice rand_Int mapToLower {| Part000.Notation' := notation |}
       = Ok (Rolled count sides modifier rolls total
               (NewTextResponse
                  ("🎲 Rolling " +:+ notation +:+ ": " +:+ fmt_ints rolls
                     +:+ (if modifier =? 0 then EmptyString else " " +:+ fmt_plus_d modifier)
                     +:+ " = **" +:+ fmt_d total +:+ "**"), None)).
Proof.
  intros (Hc & Hs & Hm) Hlen Hlow count sides modifier notation.
  assert (Hcr : 1 <= count <= maxInt) by (unfold inInt, minInt, maxInt in *; lia).
  assert (Hsr : 1 <= sides <= maxInt) by (unfold inInt, minInt, maxInt in *; lia).
  assert (Hmr : - maxInt <= modifier <= maxInt) by (unfold inInt, modifier in *; lia).
  destruct (rollAll_total rand_Int count sides ltac:(lia) ltac:(lia)) as (rolls & total0 & Hroll).
  exists rolls, (int_add total0 modifier). split.
  - rewrite Main_rollDice_unfold. cbv zeta. fold count sides modifier. rewrite Hroll.
    cbn [mbind exec_bind mret exec_ret]. by rewrite structured_reply_canonical.
  - destruct (canonical_reads mapToLower count sides modifier Hcr Hsr Hmr)
      as (Ht & Hp & Hpc & Hps & Hmod).
    change notation with (canonical count sides modifier).
    rewrite rollDice_parse; cbn [Part000.Notation']; rewrite Ht.
    + cbv zeta. rewrite Hp, Hps, Hpc. cbn [default from_option id]. rewrite Hroll, Hmod.
      cbn [mbind exec_bind mret exec_ret]. by rewrite rolled_reply.
    + intros E. by rewrite E in Hp.
Qed.

(** X4, witness: 2d6-1 with every draw 0. *)
Lemma structured_notation_reads_back_witness :
  exists rolls total,
    Main.rollDice zero_entropy {| Main.Count := 2; Main.Sides := 6; Main.Modifier := -1 |}
    = Ok (Rolled 2 6 (-1) rolls total
            (NewTextResponse
               ("Rolling 2d6-1: " +:+ fmt_ints rolls +:+ " = " +:+ fmt_d total), None))
    /\ Part000.rollDice zero_entropy ascii_only {| Part000.Notation' := "2d6-1" |}
       = Ok (Rolled 2 6 (-1) rolls total
               (NewTextResponse
                  ("🎲 Rolling 2d6-1: " +:+ fmt_ints rolls +:+ " -1 = **" +:+ fmt_d total
                     +:+ "**"), None)).
Proof.
  apply (structured_notation_reads_back zero_entropy ascii_only
           {| Main.Count := 2; Main.Sides := 6; Main.Modifier := -1 |});
    [repeat split; vm_compute; congruence | vm_compute; congruence | vm_compute; congruence].
Defined.

(** X5. The notation roller panics on a blank notation, on a count the run
    time refuses, and on nothing else. Whatever the entropy source draws,
    [rollDice] of part_000 panics with a slice-bounds error exactly when the
    notation is empty once trimmed, panics in [make] exactly when the notation
    reads as a positive number of sides with a count above [2^45], and returns
    a response (a roll or the invalid-notation text) on every other string. *)
Theorem notation_roller_panics_exactly_when_blank_or_too_long
  (rand_Int : nat -> Z -> Z) (mapToLower : string -> string) (input : Part000.diceQuery) :
  let notation := TrimSpace (Part000.Notation' input) in
  let answer := Part000.rollDice rand_Int mapToLower input in
  let too_long :=
    exists c s sides,
      partsOf mapToLower notation = Some (c, s) /\ positive_int s = Some sides
      /\ maxLen < default 1 (positive_int c) in
  (answer = Panic SliceBoundsOutOfRange <-> notation = EmptyString)
  /\ (answer = Panic MakeSliceLenOutOfRange <-> notation <> EmptyString /\ too_long)
  /\ ((exists o, answer = Ok o) <-> notation <> EmptyString /\ ~ too_long)
  /\ (forall p, answer = Panic p -> p = SliceBoundsOutOfRange \/ p = MakeSliceLenOutOfRange).
Proof.
  intros notation answer too_long.
  destruct (rollDice_cases rand_Int mapToLower input)
    as [[He Ha]|[(Hne & Hlong & Ha)|(Hne & Hshort & [o Ha])]];
    fold notation in He || fold notation in Hne; fold answer in Ha; rewrite Ha.
  - split; [done|]. split; [split; [done | by intros [? _]]|].
    split; [split; [by intros [? ?] | by intros [? _]]|].
    intros p [= <-]. by left.
  - split; [split; [done | by intros ?]|]. split; [done|].
    split; [split; [by intros [? ?] | by intros [_ ?]]|].
    intros p [= <-]. by right.
  - split; [split; [done | by intros ?]|].
    split; [split; [done | by intros [_ ?]]|].
    split; [split; [done | by eexists]|]. by intros p.
Qed.

(** X6. Blanks around the input do not count. [rollDice] of part_000 answers a
    notation exactly as it answers the notation with the blanks at its two
    ends removed (Unicode blanks included), response text and all; and the
    player gate treats a line exactly as it treats the trimmed line. *)
Theorem outer_blanks_are_ignored
  (rand_Int : nat -> Z -> Z) (mapToLower : string -> string) :
  (forall notation,
     Part000.rollDice rand_Int mapToLower {| Part000.Notation' := notation |}
     = Part000.rollDice rand_Int mapToLower {| Part000.Notation' := TrimSpace notation |})
  /\ (forall opts line rest out,
        Main.askLoop opts (line :: rest) out = Main.askLoop opts (TrimSpace line :: rest) out).
Proof.
  split.
  - intros notation. unfold Part000.rollDice. cbn [Part000.Notation'].
    by rewrite TrimSpace_idem.
  - intros opts line rest out. cbn [Main.askLoop]. by rewrite TrimSpace_idem.
Qed.

(** X7. Typing the number shown beside an option selects that option. When
    the player's next line is the place [k] of an option, counted from 1 and
    written as [%d] prints it, [askPlayer] returns the text
    "The player chose: <option>" with a [nil] error and leaves the following
    lines unread; what it has printed by then is what was on the console, the
    banner, one line "  <j>. <option>\n" per option in order, the prompt
    "\nChoose [1-<n>]: " and the echo "-> <option>\n\n"; so the line printed
    for that option carries the number that selected it. *)
Theorem typing_the_label_selects_the_option
  (input : Main.askPlayerInput) (i : nat) (opt : string) :
  Main.Options input !! i = Some opt ->
  offered (Main.Options input) <= maxInt ->
  let opts := Main.Options input in
  let label := fun (j : nat) (o : string) =>
    "  " +:+ fmt_d (Z.of_nat j + 1) +:+ ". " +:+ o +:+ nl in
  let banner := nl +:+ nl +:+ "--- YOUR TURN ---" +:+ nl +:+ Main.Question input +:+ nl +:+ nl in
  let prompt := nl +:+ "Choose [1-" +:+ fmt_d (offered opts) +:+ "]: " in
  forall c rest,
    Main.pending c = fmt_d (Z.of_nat i + 1) :: rest ->
    exists c',
      Main.askPlayer input c
      = Ok ((NewTextResponse ("The player chose: " +:+ opt), None), c')
      /\ Main.pending c' = rest
      /\ Main.printed c'
         = Main.printed c ++ [banner] ++ imap label opts
           ++ [prompt; "-> " +:+ opt +:+ nl +:+ nl]
      /\ Main.printed c' !! (length (Main.printed c) + 1 + i)%nat = Some (label i opt).
Proof.
  intros Hi Hn opts label banner prompt c rest Hp.
  pose proof (lookup_lt_Some _ _ _ Hi) as Hlt.
  rewrite askPlayer_askLoop, Hp.
  destruct (askLoop_accept (Main.Options input) (fmt_d (Z.of_nat i + 1)) rest
              (announced input c) (Z.of_nat i + 1)) as (chosen & Hl & ->).
  { apply reads_fmt_d. unfold offered in Hn. lia. }
  { unfold offered. lia. }
  replace (Z.to_nat (Z.of_nat i + 1 - 1)) with i in Hl by lia.
  rewrite Hi in Hl. injection Hl as <-.
  eexists. split; [reflexivity|]. cbn [Main.pending Main.printed].
  split; [done|]. rewrite announced_printed.
  assert (Hshown : (Main.printed c ++ [turnBanner (Main.Question input)]
                      ++ imap optionLine (Main.Options input))
                   ++ [Main.choosePrompt (offered (Main.Options input)); echo opt]
                   = Main.printed c ++ [banner] ++ imap label opts
                     ++ [prompt; "-> " +:+ opt +:+ nl +:+ nl]).
  { by rewrite <- !app_assoc. }
  rewrite Hshown. split; [done|].
  rewrite lookup_app_r by lia. rewrite lookup_app_r by (simpl; lia).
  replace (length (Main.printed c) + 1 + i - length (Main.printed c)
           - length [banner])%nat with i by (simpl; lia).
  rewrite lookup_app_l by (by rewrite length_imap).
  rewrite list_lookup_imap. fold opts in Hi. by rewrite Hi.
Qed.

(** X7, witness: the third of five options. *)
Lemma typing_the_label_selects_the_option_witness :
  let c := {| Main.pending := ["3"; "1"]; Main.printed := ["The door creaks."] |} in
  exists c',
    Main.askPlayer five_options c
    = Ok ((NewTextResponse "The player chose: Cast Shield", None), c')
    /\ Main.pending c' = ["1"]
    /\ Main.printed c'
       = ["The door creaks.";
          nl +:+ nl +:+ "--- YOUR TURN ---" +:+ nl +:+ "What do you do?" +:+ nl +:+ nl;
          "  1. Enter" +:+ nl; "  2. Listen" +:+ nl; "  3. Cast Shield" +:+ nl;
          "  4. Search" +:+ nl; "  5. Leave" +:+ nl;
          nl +:+ "Choose [1-5]: "; "-> Cast Shield" +:+ nl +:+ nl]
    /\ Main.printed c' !! (length (Main.printed c) + 1 + 2)%nat
       = Some ("  3. Cast Shield" +:+ nl).
Proof.
  intros c.
  exact (typing_the_label_selects_the_option five_options 2 "Cast Shield" eq_refl
           ltac:(vm_compute; congruence) c ["1"]%string eq_refl).
Defined.

(** X8. The first acceptable line decides. When the pending lines are lines
    the gate turns down, then a line that reads (blanks trimmed) as an integer
    within [[1, len(options)]], then anything, [askPlayer] prints, after the
    banner and the option lines, the prompt "\nChoose [1-<n>]: " and the hint
    "Pick a number between 1 and <n>.\n" once per line turned down, then the
    prompt and the echo "-> <option>\n\n" of the chosen option; it returns the
    text "The player chose: <option>" with a [nil] error and leaves the lines
    after the accepted one unread. *)
Theorem first_acceptable_line_decides
  (input : Main.askPlayerInput) (c : Main.console)
  (bad : list string) (line : string) (rest : list string) (choice : Z) :
  let opts := Main.Options input in
  let n := offered opts in
  let banner := nl +:+ nl +:+ "--- YOUR TURN ---" +:+ nl +:+ Main.Question input +:+ nl +:+ nl in
  let label := fun (j : nat) (o : string) =>
    "  " +:+ fmt_d (Z.of_nat j + 1) +:+ ". " +:+ o +:+ nl in
  let prompt := nl +:+ "Choose [1-" +:+ fmt_d n +:+ "]: " in
  let hint := "Pick a number between 1 and " +:+ fmt_d n +:+ "." +:+ nl in
  Main.pending c = bad ++ line :: rest ->
  Forall (rejected n) bad ->
  Atoi (TrimSpace line) = Some choice -> 1 <= choice <= n ->
  exists chosen,
    opts !! Z.to_nat (choice - 1) = Some chosen
    /\ Main.askPlayer input c
       = Ok ((NewTextResponse ("The player chose: " +:+ chosen), None),
             {| Main.pending := rest;
                Main.printed :=
                  Main.printed c ++ [banner] ++ imap label opts
                  ++ concat (map (fun _ => [prompt; hint]) bad)
                  ++ [prompt; "-> " +:+ chosen +:+ nl +:+ nl] |}).
Proof.
  intros opts n banner label prompt hint Hp Hbad Ha Hc.
  rewrite askPlayer_askLoop, Hp, askLoop_skip by done.
  destruct (askLoop_accept (Main.Options input) line rest
              (announced input c ++ reprompts (offered (Main.Options input)) bad) choice Ha Hc)
    as (chosen & Hl & ->).
  exists chosen. split; [done|]. rewrite announced_printed.
  do 3 f_equal. by rewrite <- !app_assoc.
Qed.

(** X8, witness: "abc" and "9" are turned down, " 3 " picks the third option. *)
Lemma first_acceptable_line_decides_witness :
  let prompt := nl +:+ "Choose [1-5]: " in
  let hint := "Pick a number between 1 and 5." +:+ nl in
  exists chosen,
    Main.Options five_options !! Z.to_nat (3 - 1) = Some chosen
    /\ Main.askPlayer five_options
         {| Main.pending := ["abc"; "9"; " 3 "; "1"]; Main.printed := [] |}
       = Ok ((NewTextResponse ("The player chose: " +:+ chosen), None),
             {| Main.pending := ["1"];
                Main.printed :=
                  [nl +:+ nl +:+ "--- YOUR TURN ---" +:+ nl +:+ "What do you do?" +:+ nl +:+ nl;
                   "  1. Enter" +:+ nl; "  2. Listen" +:+ nl; "  3. Cast Shield" +:+ nl;
                   "  4. Search" +:+ nl; "  5. Leave" +:+ nl;
                   prompt; hint; prompt; hint; prompt; "-> " +:+ chosen +:+ nl +:+ nl] |}).
Proof.
  intros prompt hint.
  apply (first_acceptable_line_decides five_options
           {| Main.pending := ["abc"; "9"; " 3 "; "1"]; Main.printed := [] |}
           ["abc"; "9"]%string " 3 "%string ["1"]%string 3);
    [reflexivity | | reflexivity | vm_compute; split; congruence].
  constructor; [exact I|]. constructor; [right; reflexivity | constructor].
Defined.

(** X9. The gate never fails and never makes an option up. On every input and
    console, [askPlayer] returns without a panic and with a [nil] error;
    its response is "The player has left the game.", with the input used up,
    or "The player chose: " followed by one of the options it was given; the
    lines left pending are an end of those it found, and what was printed
    before stays printed, banner and options included. *)
Theorem askPlayer_answers_with_an_option_or_leaves
  (input : Main.askPlayerInput) (c : Main.console) :
  exists r c',
    Main.askPlayer input c = Ok (r, c')
    /\ Main.pending c' `suffix_of` Main.pending c
    /\ announced input c `prefix_of` Main.printed c'
    /\ Main.printed c `prefix_of` Main.printed c'
    /\ ((r = (NewTextResponse "The player has left the game.", None) /\ Main.pending c' = [])
        \/ exists chosen,
             chosen ∈ Main.Options input
             /\ r = (NewTextResponse ("The player chose: " +:+ chosen), None)).
Proof.
  rewrite askPlayer_askLoop.
  destruct (askLoop_invariants (Main.Options input) (Main.pending c) (announced input c))
    as (r & c' & -> & Hsuf & Hpre & Hres).
  exists r, c'. split; [done|]. split; [done|]. split; [done|]. split; [|done].
  etrans; [|exact Hpre]. unfold announced.
  rewrite (printOptions_printed (Main.Options input) 0). cbn [Main.Printf Main.printed].
  rewrite <- app_assoc. by apply prefix_app_r.
Qed.

(** X10. The address of a lookup is a normal form of the name. For an ASCII
    name, the slug the lookups put in the address has the length of the name,
    holds no space and no capital letter, and is its own slug: so a name and
    its slug ("Adult Black Dragon" and "adult-black-dragon") lead to the same
    monster and spell addresses, and a lookup of the slug goes to the address
    of the name: when the service cannot be reached there, [lookupMonster] and
    [lookupSpell] called with the slug return "Failed to reach D&D API" with
    a [nil] error. *)
Theorem slug_is_a_normal_form (mapToLower : string -> string) (name : string) :
  isASCII name = true ->
  let s := slug mapToLower name in
  all_bytes slug_byte s = true
  /\ String.length s = String.length name
  /\ slug mapToLower s = s
  /\ monsterURL mapToLower s = monsterURL mapToLower name
  /\ spellURL mapToLower s = spellURL mapToLower name
  /\ (forall http_Get json_Unmarshal Sprint_v Sprint_s,
        http_Get (monsterURL mapToLower name) = None ->
        Main.lookupMonster mapToLower http_Get json_Unmarshal Sprint_v Sprint_s
          {| Main.Name := s |}
        = Ok (NewTextResponse "Failed to reach D&D API", None))
  /\ (forall http_Get json_Unmarshal Sprint_v Sprint_s,
        http_Get (spellURL mapToLower name) = None ->
        Main.lookupSpell mapToLower http_Get json_Unmarshal Sprint_v Sprint_s
          {| Main.Name' := s |}
        = Ok (NewTextResponse "Failed to reach D&D API", None)).
Proof.
  intros Ha s. subst s. rewrite (slug_ascii mapToLower name Ha).
  destruct (slug_bytes name Ha) as [Hb Hlen].
  destruct (slug_fixed _ Hb) as (Hascii & Hrep & Hlow).
  assert (Hs : slug mapToLower (lower_bytes (ReplaceAll name " " "-"))
               = lower_bytes (ReplaceAll name " " "-")).
  { rewrite slug_ascii by done. by rewrite Hrep, Hlow. }
  assert (Hm : monsterURL mapToLower (lower_bytes (ReplaceAll name " " "-"))
               = monsterURL mapToLower name).
  { unfold monsterURL. by rewrite Hs, (slug_ascii mapToLower name Ha). }
  assert (Hsp : spellURL mapToLower (lower_bytes (ReplaceAll name " " "-"))
                = spellURL mapToLower name).
  { unfold spellURL. by rewrite Hs, (slug_ascii mapToLower name Ha). }
  split; [done|]. split; [done|]. split; [done|]. split; [done|]. split; [done|]. split.
  - intros http_Get json_Unmarshal Sprint_v Sprint_s Hdown.
    apply lookupMonster_unreachable. by rewrite Hm.
  - intros http_Get json_Unmarshal Sprint_v Sprint_s Hdown.
    apply lookupSpell_unreachable. by rewrite Hsp.
Qed.

(** X10, witness: "Adult Black Dragon". *)
Lemma slug_is_a_normal_form_witness :
  slug ascii_only "Adult Black Dragon" = "adult-black-dragon"%string
  /\ all_bytes slug_byte (slug ascii_only "Adult Black Dragon") = true
  /\ String.length (slug ascii_only "Adult Black Dragon") = String.length "Adult Black Dragon"
  /\ slug ascii_only (slug ascii_only "Adult Black Dragon") = slug ascii_only "Adult Black Dragon"
  /\ monsterURL ascii_only (slug ascii_only "Adult Black Dragon")
     = monsterURL ascii_only "Adult Black Dragon"
  /\ spellURL ascii_only (slug ascii_only "Adult Black Dragon")
     = spellURL ascii_only "Adult Black Dragon"
  /\ Main.lookupMonster ascii_only unreachable no_record blank_Sprint blank_Sprint
       {| Main.Name := slug ascii_only "Adult Black Dragon" |}
     = Ok (NewTextResponse "Failed to reach D&D API", None)
  /\ Main.lookupSpell ascii_only unreachable no_record blank_Sprint blank_Sprint
       {| Main.Name' := slug ascii_only "Adult Black Dragon" |}
     = Ok (NewTextResponse "Failed to reach D&D API", None).
Proof.
  split; [reflexivity|].
  destruct (slug_is_a_normal_form ascii_only "Adult Black Dragon" eq_refl)
    as (Hb & Hl & Hs & Hm & Hsp & Hmonster & Hspell).
  split; [done|]. split; [done|]. split; [done|]. split; [done|]. split; [done|].
  split; [by apply Hmonster | by apply Hspell].
Defined.

(** X12. [lookupMonster] panics exactly when a walked list holds a non-object.
    Once the service has answered with status 200, main.go's [lookupMonster]
    returns a text with a [nil] error if the lists under "actions" and
    "special_abilities" (where these are lists) hold objects only, and panics
    with an interface conversion error if one of them holds anything else;
    in every other case (service unreachable, any other status) it returns a
    text with a [nil] error. No other panic and no non-[nil] error occurs. *)
Theorem lookupMonster_panics_exactly_on_a_non_object
  (mapToLower : string -> string)
  (http_Get : string -> option Main.Response)
  (json_Unmarshal : string -> list (string * any))
  (Sprint_v Sprint_s : any -> string) (input : Main.monsterQuery) :
  let answer := Main.lookupMonster mapToLower http_Get json_Unmarshal Sprint_v Sprint_s input in
  (forall resp,
     http_Get (monsterURL mapToLower (Main.Name input)) = Some resp ->
     Main.StatusCode resp = 200 ->
     (entries_are_maps (json_Unmarshal (Main.Body resp))
      <-> exists text, answer = Ok (NewTextResponse text, None))
     /\ (~ entries_are_maps (json_Unmarshal (Main.Body resp))
         <-> answer = Panic InterfaceConversion))
  /\ ((forall resp,
         http_Get (monsterURL mapToLower (Main.Name input)) = Some resp ->
         Main.StatusCode resp <> 200) ->
      exists text, answer = Ok (NewTextResponse text, None))
  /\ ((exists text, answer = Ok (NewTextResponse text, None))
      \/ answer = Panic InterfaceConversion).
Proof.
  intros answer.
  assert (H200 : forall resp,
    http_Get (monsterURL mapToLower (Main.Name input)) = Some resp ->
    Main.StatusCode resp = 200 ->
    (entries_are_maps (json_Unmarshal (Main.Body resp))
     /\ exists text, answer = Ok (NewTextResponse text, None))
    \/ (~ entries_are_maps (json_Unmarshal (Main.Body resp))
        /\ answer = Panic InterfaceConversion)).
  { intros resp Hget Hs. subst answer. unfold monsterURL, slug in Hget.
    unfold Main.lookupMonster, entries_are_maps. rewrite Hget, Hs.
    cbn [Z.eqb Pos.eqb negb]. set (m := json_Unmarshal (Main.Body resp)).
    match goal with
    | |- context [match map_index m "actions" with
                  | ASlice l => Main.appendEntries _ l (?s +:+ ?h)
                  | _ => _
                  end] =>
        destruct (section_cases (Main.appendEntries Sprint_s) (map_index m "actions") s h
                    (appendEntries_maps Sprint_s) (appendEntries_not_map Sprint_s))
          as [[Hact [s1 ->]]|[Hact ->]]
    end.
    2:{ right. split; [|done]. by intros [? _]. }
    cbn [mbind exec_bind].
    match goal with
    | |- context [match map_index m "special_abilities" with
                  | ASlice l => Main.appendEntries _ l (?s +:+ ?h)
                  | _ => _
                  end] =>
        destruct (section_cases (Main.appendEntries Sprint_s)
                    (map_index m "special_abilities") s h
                    (appendEntries_maps Sprint_s) (appendEntries_not_map Sprint_s))
          as [[Hab [s2 ->]]|[Hab ->]]
    end.
    - left. split; [done|]. by eexists.
    - right. split; [|done]. by intros [_ ?]. }
  split; [|split].
  - intros resp Hget Hs.
    destruct (H200 resp Hget Hs) as [[Hm [text Ht]]|[Hm Hp]]; split; split; try done.
    + by eexists.
    + rewrite Ht. done.
    + intros [text Ht]. by rewrite Hp in Ht.
  - intros Hno. subst answer. unfold monsterURL, slug in Hno. unfold Main.lookupMonster.
    destruct (http_Get _) as [resp|] eqn:Hget; [|by eexists].
    specialize (Hno resp eq_refl).
    destruct (Z.eqb_spec (Main.StatusCode resp) 200); [done|]. by eexists.
  - destruct (http_Get (monsterURL mapToLower (Main.Name input))) as [resp|] eqn:Hget.
    + destruct (Z.eq_dec (Main.StatusCode resp) 200) as [Hs|Hs].
      * destruct (H200 resp eq_refl Hs) as [[_ Ht]|[_ Hp]]; [by left | by right].
      * left. subst answer. unfold monsterURL, slug in Hget. unfold Main.lookupMonster.
        rewrite Hget. destruct (Z.eqb_spec (Main.StatusCode resp) 200); [done|]. by eexists.
    + left. subst answer. unfold monsterURL, slug in Hget. unfold Main.lookupMonster.
      rewrite Hget. by eexists.
Qed.

(** X13. part_000's [lookupMonster] panics exactly when a walked list holds a
    non-object. Once the service has answered with status 200, it returns a
    text with a [nil] error if the lists under "actions" and
    "special_abilities" (where these are lists) hold objects only, and panics
    with an interface conversion error if one of them holds anything else; in
    every other case (service unreachable, any other status) it returns a text
    with a [nil] error. No other panic and no non-[nil] error occurs. *)
Theorem encounter_lookupMonster_panics_exactly_on_a_non_object
  (mapToLower : string -> string)
  (http_Get : string -> option Main.Response)
  (json_Unmarshal : string -> list (string * any))
  (Sprint_v Sprint_s : any -> string) (input : Part000Lookup.monsterQuery) :
  let answer :=
    Part000Lookup.lookupMonster mapToLower http_Get json_Unmarshal Sprint_v Sprint_s input in
  (forall resp,
     http_Get (monsterURL mapToLower (Part000Lookup.Name input)) = Some resp ->
     Main.StatusCode resp = 200 ->
     (entries_are_maps (json_Unmarshal (Main.Body resp))
      <-> exists text, answer = Ok (NewTextResponse text, None))
     /\ (~ entries_are_maps (json_Unmarshal (Main.Body resp))
         <-> answer = Panic InterfaceConversion))
  /\ ((forall resp,
         http_Get (monsterURL mapToLower (Part000Lookup.Name input)) = Some resp ->
         Main.StatusCode resp <> 200) ->
      exists text, answer = Ok (NewTextResponse text, None))
  /\ ((exists text, answer = Ok (NewTextResponse text, None))
      \/ answer = Panic InterfaceConversion).
Proof.
  intros answer.
  assert (H200 : forall resp,
    http_Get (monsterURL mapToLower (Part000Lookup.Name input)) = Some resp ->
    Main.StatusCode resp = 200 ->
    (entries_are_maps (json_Unmarshal (Main.Body resp))
     /\ exists text, answer = Ok (NewTextResponse text, None))
    \/ (~ entries_are_maps (json_Unmarshal (Main.Body resp))
        /\ answer = Panic InterfaceConversion)).
  { intros resp Hget Hs. subst answer. unfold monsterURL, slug in Hget.
    unfold Part000Lookup.lookupMonster, entries_are_maps. cbv zeta. rewrite Hget, Hs.
    cbn [Z.eqb Pos.eqb negb]. set (m := json_Unmarshal (Main.Body resp)).
    match goal with
    | |- context [match map_index m "actions" with
                  | ASlice l => Part000Lookup.appendEntries _ l (?s +:+ ?h)
                  | _ => _
                  end] =>
        destruct (section_cases (Part000Lookup.appendEntries Sprint_s)
                    (map_index m "actions") s h
                    (Part000_appendEntries_maps Sprint_s)
                    (Part000_appendEntries_not_map Sprint_s))
          as [[Hact [s1 ->]]|[Hact ->]]
    end.
    2:{ right. split; [|done]. by intros [? _]. }
    cbn [mbind exec_bind].
    match goal with
    | |- context [match map_index m "special_abilities" with
                  | ASlice l => Part000Lookup.appendEntries _ l (?s +:+ ?h)
                  | _ => _
                  end] =>
        destruct (section_cases (Part000Lookup.appendEntries Sprint_s)
                    (map_index m "special_abilities") s h
                    (Part000_appendEntries_maps Sprint_s)
                    (Part000_appendEntries_not_map Sprint_s))
          as [[Hab [s2 ->]]|[Hab ->]]
    end.
    - left. split; [done|]. by eexists.
    - right. split; [|done]. by intros [_ ?]. }
  split; [|split].
  - intros resp Hget Hs.
    destruct (H200 resp Hget Hs) as [[Hm [text Ht]]|[Hm Hp]]; split; split; try done.
    + by eexists.
    + rewrite Ht. done.
    + intros [text Ht]. by rewrite Hp in Ht.
  - intros Hno. subst answer. unfold monsterURL, slug in Hno.
    unfold Part000Lookup.lookupMonster. cbv zeta.
    destruct (http_Get _) as [resp|] eqn:Hget; [|by eexists].
    specialize (Hno resp eq_refl).
    destruct (Z.eqb_spec (Main.StatusCode resp) 200); [done|]. by eexists.
  - destruct (http_Get (monsterURL mapToLower (Part000Lookup.Name input))) as [resp|] eqn:Hget.
    + destruct (Z.eq_dec (Main.StatusCode resp) 200) as [Hs|Hs].
      * destruct (H200 resp eq_refl Hs) as [[_ Ht]|[_ Hp]]; [by left | by right].
      * left. subst answer. unfold monsterURL, slug in Hget.
        unfold Part000Lookup.lookupMonster. cbv zeta.
        rewrite Hget. destruct (Z.eqb_spec (Main.StatusCode resp) 200); [done|]. by eexists.
    + left. subst answer. unfold monsterURL, slug in Hget.
      unfold Part000Lookup.lookupMonster. cbv zeta. rewrite Hget. by eexists.
Qed.

(** X14. Any status but 200 reads as "not found"; part_000 fails in text too.
    Whatever the status the service answers with, if it is not 200 (a 404, but
    also a 500 or a 301) the lookups of main.go return
    "Monster '<name>' not found" and "Spell '<name>' not found", and those of
    part_000 "Monster '<name>' not found in the bestiary" and
    "Spell '<name>' not found in the spellbook", with the name as given and a
    [nil] error, the body unread; and when the service cannot be reached
    part_000's lookups return "Failed to reach D&D API" with a [nil] error. *)
Theorem every_other_status_reads_as_not_found
  (mapToLower : string -> string)
  (http_Get : string -> option Main.Response)
  (json_Unmarshal : string -> list (string * any))
  (Sprint_v Sprint_s : any -> string) (name : string) :
  (forall resp,
     http_Get (monsterURL mapToLower name) = Some resp -> Main.StatusCode resp <> 200 ->
     Main.lookupMonster mapToLower http_Get json_Unmarshal Sprint_v Sprint_s
       {| Main.Name := name |}
     = Ok (NewTextResponse ("Monster '" +:+ name +:+ "' not found"), None)
     /\ Part000Lookup.lookupMonster mapToLower http_Get json_Unmarshal Sprint_v Sprint_s
          {| Part000Lookup.Name := name |}
        = Ok (NewTextResponse ("Monster '" +:+ name +:+ "' not found in the bestiary"), None))
  /\ (forall resp,
        http_Get (spellURL mapToLower name) = Some resp -> Main.StatusCode resp <> 200 ->
        Main.lookupSpell mapToLower http_Get json_Unmarshal Sprint_v Sprint_s
          {| Main.Name' := name |}
        = Ok (NewTextResponse ("Spell '" +:+ name +:+ "' not found"), None)
        /\ Part000Lookup.lookupSpell mapToLower http_Get json_Unmarshal Sprint_v Sprint_s
             {| Part000Lookup.Name' := name |}
           = Ok (NewTextResponse ("Spell '" +:+ name +:+ "' not found in the spellbook"), None))
  /\ (http_Get (monsterURL mapToLower name) = None ->
      Part000Lookup.lookupMonster mapToLower http_Get json_Unmarshal Sprint_v Sprint_s
        {| Part000Lookup.Name := name |}
      = Ok (NewTextResponse "Failed to reach D&D API", None))
  /\ (http_Get (spellURL mapToLower name) = None ->
      Part000Lookup.lookupSpell mapToLower http_Get json_Unmarshal Sprint_v Sprint_s
        {| Part000Lookup.Name' := name |}
      = Ok (NewTextResponse "Failed to reach D&D API", None)).
Proof.
  split; [|split; [|split]].
  - intros resp Hget Hs. split; [by eapply lookupMonster_not_found|].
    unfold monsterURL, slug in Hget. unfold Part000Lookup.lookupMonster.
    cbv zeta. cbn [Part000Lookup.Name]. rewrite Hget.
    by destruct (Z.eqb_spec (Main.StatusCode resp) 200).
  - intros resp Hget Hs. split; [by eapply lookupSpell_not_found|].
    unfold spellURL, slug in Hget. unfold Part000Lookup.lookupSpell.
    cbv zeta. cbn [Part000Lookup.Name']. rewrite Hget.
    by destruct (Z.eqb_spec (Main.StatusCode resp) 200).
  - unfold monsterURL, slug. intros Hget. unfold Part000Lookup.lookupMonster.
    cbv zeta. cbn [Part000Lookup.Name]. by rewrite Hget.
  - unfold spellURL, slug. intros Hget. unfold Part000Lookup.lookupSpell.
    cbv zeta. cbn [Part000Lookup.Name']. by rewrite Hget.
Qed.

(** X14, witness: a server error, and an unreachable service. *)
Lemma every_other_status_reads_as_not_found_witness :
  (Main.lookupMonster ascii_only (answers 500 "oops") no_record blank_Sprint blank_Sprint
     {| Main.Name := "Giant Owl" |}
   = Ok (NewTextResponse "Monster 'Giant Owl' not found", None)
   /\ Part000Lookup.lookupMonster ascii_only (answers 500 "oops") no_record
        blank_Sprint blank_Sprint {| Part000Lookup.Name := "Giant Owl" |}
      = Ok (NewTextResponse "Monster 'Giant Owl' not found in the bestiary", None))
  /\ (Main.lookupSpell ascii_only (answers 301 "") no_record blank_Sprint blank_Sprint
        {| Main.Name' := "Misty Step" |}
      = Ok (NewTextResponse "Spell 'Misty Step' not found", None)
      /\ Part000Lookup.lookupSpell ascii_only (answers 301 "") no_record
           blank_Sprint blank_Sprint {| Part000Lookup.Name' := "Misty Step" |}
         = Ok (NewTextResponse "Spell 'Misty Step' not found in the spellbook", None))
  /\ Part000Lookup.lookupMonster ascii_only unreachable no_record blank_Sprint blank_Sprint
       {| Part000Lookup.Name := "Giant Owl" |}
     = Ok (NewTextResponse "Failed to reach D&D API", None)
  /\ Part000Lookup.lookupSpell ascii_only unreachable no_record blank_Sprint blank_Sprint
       {| Part000Lookup.Name' := "Misty Step" |}
     = Ok (NewTextResponse "Failed to reach D&D API", None).
Proof.
  split; [|split; [|split]].
  - apply (proj1 (every_other_status_reads_as_not_found ascii_only (answers 500 "oops")
                    no_record blank_Sprint blank_Sprint "Giant Owl")
             {| Main.StatusCode := 500; Main.Body := "oops" |}); [reflexivity|].
    simpl. lia.
  - apply (proj1 (proj2 (every_other_status_reads_as_not_found ascii_only (answers 301 "")
                    no_record blank_Sprint blank_Sprint "Misty Step"))
             {| Main.StatusCode := 301; Main.Body := "" |}); [reflexivity|].
    simpl. lia.
  - by apply (proj1 (proj2 (proj2 (every_other_status_reads_as_not_found ascii_only
                    unreachable no_record blank_Sprint blank_Sprint "Giant Owl")))).
  - by apply (proj2 (proj2 (proj2 (every_other_status_reads_as_not_found ascii_only
                    unreachable no_record blank_Sprint blank_Sprint "Misty Step")))).
Defined.

(** X15. Text after the modifier is ignored. When the trimmed notation is
    [<digits>d<digits>], a sign, a numeral within the range of [int] and then
    any text that does not start with a digit ("1d20+5 to hit"), [rollDice] of
    part_000 reads the count and the sides from the two runs of digits and the
    modifier from the sign and the numeral, as if the text were not there.
    When the sides are not a positive integer it returns the text
    "Invalid dice notation: <notation>" with a [nil] error; when they are, it
    rolls and reports, for a count of at most [2^45], and panics in [make]
    for a larger count. *)
Theorem text_after_the_modifier_is_ignored
  (rand_Int : nat -> Z -> Z) (mapToLower : string -> string) (input : Part000.diceQuery)
  (ct st : string) (sg : ascii) (D : string) (z : Z) (junk : string) :
  entropy_ok rand_Int ->
  all_digits ct = true -> all_digits st = true ->
  byte_in sg "+-" = true -> numeral D z -> z <= maxInt -> no_digit_first junk ->
  let notation := TrimSpace (Part000.Notation' input) in
  notation = ct +:+ "d" +:+ st +:+ String sg (D +:+ junk) ->
  let modifier := if Ascii.eqb sg "-" then - z else z in
  match positive_int st with
  | None =>
      Part000.rollDice rand_Int mapToLower input
      = Ok (Invalid (NewTextResponse ("Invalid dice notation: " +:+ notation), None))
  | Some sides =>
      let count := default 1 (positive_int ct) in
      (count <= maxLen ->
       exists rolls total,
         Part000.rollDice rand_Int mapToLower input
         = Ok (Rolled count sides modifier rolls total
                 (NewTextResponse
                    ("🎲 Rolling " +:+ notation +:+ ": " +:+ fmt_ints rolls
                       +:+ (if modifier =? 0 then EmptyString
                            else " " +:+ fmt_plus_d modifier)
                       +:+ " = **" +:+ fmt_d total +:+ "**"), None))
         /\ Z.of_nat (length rolls) = count
         /\ Forall (fun r => 1 <= r <= sides) rolls
         /\ total = wrap64 (sumZ rolls + modifier)
         /\ (inInt (sumZ rolls + modifier) -> total = sumZ rolls + modifier))
      /\ (maxLen < count ->
          Part000.rollDice rand_Int mapToLower input = Panic MakeSliceLenOutOfRange)
  end.
Proof.
  intros He Hct Hst Hsg Hn Hz Hj notation Ht modifier.
  destruct (reads_modifier_junk mapToLower ct st sg D z junk Hct Hst Hsg Hn Hz Hj)
    as [Hp Hmod].
  rewrite <- Ht in Hp, Hmod.
  pose proof (rollDice_reads rand_Int mapToLower He input ct st (signed sg z) Hp Hmod) as H.
  from_reads H.
Qed.

(** X15, witness: "1d20+5 to hit" and "2d6-1!". *)
Lemma text_after_the_modifier_is_ignored_witness :
  (exists rolls total,
     Part000.rollDice zero_entropy ascii_only {| Part000.Notation' := "1d20+5 to hit" |}
     = Ok (Rolled 1 20 5 rolls total
             (NewTextResponse
                ("🎲 Rolling 1d20+5 to hit: " +:+ fmt_ints rolls +:+ " +5 = **"
                   +:+ fmt_d total +:+ "**"), None))
     /\ Z.of_nat (length rolls) = 1
     /\ Forall (fun r => 1 <= r <= 20) rolls
     /\ total = wrap64 (sumZ rolls + 5)
     /\ (inInt (sumZ rolls + 5) -> total = sumZ rolls + 5))
  /\ (exists rolls total,
        Part000.rollDice zero_entropy ascii_only {| Part000.Notation' := "2d6-1!" |}
        = Ok (Rolled 2 6 (-1) rolls total
                (NewTextResponse
                   ("🎲 Rolling 2d6-1!: " +:+ fmt_ints rolls +:+ " -1 = **"
                      +:+ fmt_d total +:+ "**"), None))
        /\ Z.of_nat (length rolls) = 2
        /\ Forall (fun r => 1 <= r <= 6) rolls
        /\ total = wrap64 (sumZ rolls + -1)
        /\ (inInt (sumZ rolls + -1) -> total = sumZ rolls + -1)).
Proof.
  split.
  - apply (text_after_the_modifier_is_ignored zero_entropy ascii_only
             {| Part000.Notation' := "1d20+5 to hit" |} "1" "20" "+" "5" 5 " to hit"
             zero_entropy_ok eq_refl eq_refl eq_refl);
      [by repeat split | vm_compute; congruence | reflexivity | reflexivity
       | vm_compute; congruence].
  - apply (text_after_the_modifier_is_ignored zero_entropy ascii_only
             {| Part000.Notation' := "2d6-1!" |} "2" "6" "-" "1" 1 "!"
             zero_entropy_ok eq_refl eq_refl eq_refl);
      [by repeat split | vm_compute; congruence | reflexivity | reflexivity
       | vm_compute; congruence].
Defined.



(** X17. Every die is one draw, shifted by one. With an entropy source that
    keeps its contract and a count of at most [2^45], the outcomes [rollDice]
    reports in its text are, die by die and in the order drawn, the numbers
    [rand.Int] returned for the bound [sides] plus one: the i-th outcome is
    the i-th draw plus one, no draw is used twice or skipped, and the bound of
    every draw is the number of sides. *)
Theorem outcomes_are_the_draws_plus_one
  (rand_Int : nat -> Z -> Z) (mapToLower : string -> string) :
  entropy_ok rand_Int ->
  let structured := fun (count sides modifier : Z) (rolls : list Z) (total : Z) =>
    (NewTextResponse
       ("Rolling " +:+ fmt_d count +:+ "d" +:+ fmt_d sides
          +:+ (if modifier =? 0 then EmptyString else fmt_plus_d modifier)
          +:+ ": " +:+ fmt_ints rolls +:+ " = " +:+ fmt_d total), None : option error) in
  let report := fun (notation : string) (modifier : Z) (rolls : list Z) (total : Z) =>
    (NewTextResponse
       ("🎲 Rolling " +:+ notation +:+ ": " +:+ fmt_ints rolls
          +:+ (if modifier =? 0 then EmptyString else " " +:+ fmt_plus_d modifier)
          +:+ " = **" +:+ fmt_d total +:+ "**"), None : option error) in
  (forall input, wf_diceQuery input ->
     let count := Z.max (Main.Count input) 1 in
     let sides := Z.max (Main.Sides input) 1 in
     let modifier := Main.Modifier input in
     let rolls := map (fun i => rand_Int i sides + 1) (seq 0 (Z.to_nat count)) in
     count <= maxLen ->
     exists total,
       Main.rollDice rand_Int input
       = Ok (Rolled count sides modifier rolls total
               (structured count sides modifier rolls total))
       /\ total = wrap64 (sumZ rolls + modifier))
  /\ (forall input c s sides,
        let notation := TrimSpace (Part000.Notation' input) in
        partsOf mapToLower notation = Some (c, s) ->
        positive_int s = Some sides ->
        let count := default 1 (positive_int c) in
        let modifier := modifierOf notation in
        let rolls := map (fun i => rand_Int i sides + 1) (seq 0 (Z.to_nat count)) in
        count <= maxLen ->
        exists total,
          Part000.rollDice rand_Int mapToLower input
          = Ok (Rolled count sides modifier rolls total
                  (report notation modifier rolls total))
          /\ total = wrap64 (sumZ rolls + modifier)).
Proof.
  intros He structured report. split.
  - intros input Hwf count sides modifier rolls Hc.
    destruct (Main_rollDice_spec rand_Int He input Hwf Hc) as [Heq (_ & _ & Ht & _)].
    eexists. split; [exact Heq | exact Ht].
  - intros input c s sides notation Hp Hs count modifier rolls Hc.
    destruct (Part000_rollDice_spec rand_Int mapToLower He input c s sides Hp Hs Hc)
      as (Heq & _ & _ & (_ & _ & Ht & _)).
    eexists. split; [exact Heq | exact Ht].
Qed.

(** X17, witness: 3d6 structured and "3d6" as a notation, every draw 0. *)
Lemma outcomes_are_the_draws_plus_one_witness :
  Main.rollDice zero_entropy {| Main.Count := 3; Main.Sides := 6; Main.Modifier := 0 |}
  = Ok (Rolled 3 6 0 [1; 1; 1] 3 (NewTextResponse "Rolling 3d6: [1 1 1] = 3", None))
  /\ Part000.rollDice zero_entropy ascii_only {| Part000.Notation' := "3d6" |}
     = Ok (Rolled 3 6 0 [1; 1; 1] 3 (NewTextResponse "🎲 Rolling 3d6: [1 1 1] = **3**", None)).
Proof.
  destruct (outcomes_are_the_draws_plus_one zero_entropy ascii_only zero_entropy_ok)
    as (Hm & Hn).
  split.
  - destruct (Hm {| Main.Count := 3; Main.Sides := 6; Main.Modifier := 0 |})
      as (total & Heq & ->); [repeat split; vm_compute; congruence | vm_compute; congruence|].
    exact Heq.
  - destruct (Hn {| Part000.Notation' := "3d6" |} "3"%string "6"%string 6 eq_refl eq_refl)
      as (total & Heq & ->); [vm_compute; congruence|].
    exact Heq.
Defined.

(** X18. Numerals beyond the range of [int] are dropped, not reported. In a
    notation [<digits>d<digits>[+|-<modifier>]], a count numeral above the
    largest [int] is replaced by the count 1 and one die is rolled, and a
    sides numeral above the largest [int] makes [rollDice] of part_000 return
    the text "Invalid dice notation: <notation>" with a [nil] error; after
    [<digits>d<digits>] and a sign, a modifier numeral above the largest
    [int] is replaced by the modifier 0 and the dice are rolled, for a count
    of at most [2^45]. *)
Theorem numerals_beyond_int_are_dropped
  (rand_Int : nat -> Z -> Z) (mapToLower : string -> string) (input : Part000.diceQuery)
  (ct st : string) :
  entropy_ok rand_Int ->
  all_digits ct = true -> all_digits st = true ->
  let notation := TrimSpace (Part000.Notation' input) in
  let report := fun (modifier : Z) (rolls : list Z) (total : Z) =>
    (NewTextResponse
       ("🎲 Rolling " +:+ notation +:+ ": " +:+ fmt_ints rolls
          +:+ (if modifier =? 0 then EmptyString else " " +:+ fmt_plus_d modifier)
          +:+ " = **" +:+ fmt_d total +:+ "**"), None : option error) in
  (forall modifier zc sides,
     notation = notation_text ct st modifier ->
     - maxInt <= modifier <= maxInt ->
     numeral ct zc -> maxInt < zc -> positive_int st = Some sides ->
     exists rolls total,
       Part000.rollDice rand_Int mapToLower input
       = Ok (Rolled 1 sides modifier rolls total (report modifier rolls total))
       /\ length rolls = 1%nat)
  /\ (forall modifier zs,
        notation = notation_text ct st modifier ->
        - maxInt <= modifier <= maxInt ->
        numeral st zs -> maxInt < zs ->
        Part000.rollDice rand_Int mapToLower input
        = Ok (Invalid (NewTextResponse ("Invalid dice notation: " +:+ notation), None)))
  /\ (forall sg D z junk sides,
        notation = ct +:+ "d" +:+ st +:+ String sg (D +:+ junk) ->
        byte_in sg "+-" = true -> numeral D z -> maxInt < z -> no_digit_first junk ->
        positive_int st = Some sides ->
        default 1 (positive_int ct) <= maxLen ->
        exists rolls total,
          Part000.rollDice rand_Int mapToLower input
          = Ok (Rolled (default 1 (positive_int ct)) sides 0 rolls total
                  (report 0 rolls total))
          /\ Z.of_nat (length rolls) = default 1 (positive_int ct)
          /\ Forall (fun r => 1 <= r <= sides) rolls
          /\ total = wrap64 (sumZ rolls + 0)).
Proof.
  intros He Hct Hst notation report. split; [|split].
  - intros modifier zc sides Ht Hm Hn Hz Hs.
    destruct (notation_text_reads mapToLower ct st modifier Hct Hst Hm) as (_ & Hp & Hmod).
    rewrite <- Ht in Hp, Hmod.
    pose proof (rollDice_reads rand_Int mapToLower He input ct st modifier Hp Hmod) as H.
    rewrite Hs, (positive_int_beyond ct zc Hn Hz) in H. cbn [default from_option id] in H.
    destruct H as [Hok _].
    destruct (Hok ltac:(vm_compute; congruence)) as [Heq (Hlen & _)].
    eexists _, _. split; [exact Heq|]. lia.
  - intros modifier zs Ht Hm Hn Hz.
    destruct (notation_text_reads mapToLower ct st modifier Hct Hst Hm) as (_ & Hp & Hmod).
    rewrite <- Ht in Hp, Hmod.
    pose proof (rollDice_reads rand_Int mapToLower He input ct st modifier Hp Hmod) as H.
    rewrite (positive_int_beyond st zs Hn Hz) in H. exact H.
  - intros sg D z junk sides Ht Hsg Hn Hz Hj Hs Hc.
    destruct (reads_modifier_beyond mapToLower ct st sg D z junk Hct Hst Hsg Hn Hz Hj)
      as [Hp Hmod].
    rewrite <- Ht in Hp, Hmod.
    pose proof (rollDice_reads rand_Int mapToLower He input ct st 0 Hp Hmod) as H.
    rewrite Hs in H. destruct H as [Hok _].
    destruct (Hok Hc) as [Heq (Hlen & Hall & Htot & _)].
    eexists _, _. split; [exact Heq|]. split; [exact Hlen|]. split; [exact Hall | exact Htot].
Qed.

(** X18, witness: a count, a sides value and a modifier of twenty nines. *)
Lemma numerals_beyond_int_are_dropped_witness :
  (exists rolls total,
     Part000.rollDice zero_entropy ascii_only
       {| Part000.Notation' := "99999999999999999999d6" |}
     = Ok (Rolled 1 6 0 rolls total
             (NewTextResponse
                ("🎲 Rolling 99999999999999999999d6: " +:+ fmt_ints rolls +:+ " = **"
                   +:+ fmt_d total +:+ "**"), None))
     /\ length rolls = 1%nat)
  /\ Part000.rollDice zero_entropy ascii_only
       {| Part000.Notation' := "2d99999999999999999999" |}
     = Ok (Invalid (NewTextResponse "Invalid dice notation: 2d99999999999999999999", None))
  /\ (exists rolls total,
        Part000.rollDice zero_entropy ascii_only
          {| Part000.Notation' := "2d6+99999999999999999999" |}
        = Ok (Rolled 2 6 0 rolls total
                (NewTextResponse
                   ("🎲 Rolling 2d6+99999999999999999999: " +:+ fmt_ints rolls +:+ " = **"
                      +:+ fmt_d total +:+ "**"), None))
        /\ Z.of_nat (length rolls) = 2
        /\ Forall (fun r => 1 <= r <= 6) rolls
        /\ total = wrap64 (sumZ rolls + 0)).
Proof.
  split; [|split].
  - destruct (numerals_beyond_int_are_dropped zero_entropy ascii_only
                {| Part000.Notation' := "99999999999999999999d6" |}
                "99999999999999999999" "6" zero_entropy_ok eq_refl eq_refl) as (H & _ & _).
    apply (H 0 99999999999999999999 6);
      [reflexivity | unfold maxInt; lia | by repeat split | unfold maxInt; lia | reflexivity].
  - destruct (numerals_beyond_int_are_dropped zero_entropy ascii_only
                {| Part000.Notation' := "2d99999999999999999999" |}
                "2" "99999999999999999999" zero_entropy_ok eq_refl eq_refl) as (_ & H & _).
    apply (H 0 99999999999999999999);
      [reflexivity | unfold maxInt; lia | by repeat split | unfold maxInt; lia].
  - destruct (numerals_beyond_int_are_dropped zero_entropy ascii_only
                {| Part000.Notation' := "2d6+99999999999999999999" |}
                "2" "6" zero_entropy_ok eq_refl eq_refl) as (_ & _ & H).
    apply (H "+"%char "99999999999999999999"%string 99999999999999999999 ""%string 6);
      [reflexivity | reflexivity | by repeat split | unfold maxInt; lia | exact I
       | reflexivity | vm_compute; congruence].
Defined.

